(** * ai-core: the base router, the smart router and the memory tiers

    A shallow embedding of the Go packages [llm], [llm/router] and [memory]
    of everyday-items/ai-core, and the properties of them that the
    specification states.

    Conventions of the embedding.
    - A Go [map] is a [gmap]; where the code ranges over a map, the order
      of the visit is an explicit argument (Go leaves it unspecified).
    - A Go [map] or pointer that the code mutates in place lives in a heap
      ([Heap]); an entry holds the address of its metadata map, so two
      entries that hold the same address share the map.
    - [int] and [time.Duration] are [Z]; where the code depends on the
      64-bit wrap-around it is written out with [wrap64].
    - [float64] and [float32] are IEEE 754 binary numbers, as the Standard
      Library's executable specification [SpecFloat] has them: every
      operation rounds to nearest, ties to even, and a comparison with NaN
      is false. The code is taken as compiled for amd64, where a
      multiplication and an addition are not fused.
    - Calls that leave the program (a provider, the summarizer, the
      embedder, the vector store, the clock, the random source) are
      functions or oracles carried by the state or passed as arguments.
    - A call that can panic returns [Panic]. *)

From Stdlib Require Import ZArith Bool String Ascii List Lia Permutation Sorted SpecFloat.
From stdpp Require Import gmap strings list fin_maps pretty.

Local Open Scope Z_scope.

(** ** Go values shared by the packages *)

Definition error := string.

(** What a call yields: a value, a returned [error], or a run-time panic. *)
Inductive outcome (A : Type) : Type :=
| Ok (a : A)
| Err (e : error)
| Panic.
Arguments Ok {A} a.
Arguments Err {A} e.
Arguments Panic {A}.

#[global] Instance outcome_eq_dec {A : Type} `{EqDecision A} : EqDecision (outcome A).
Proof. solve_decision. Defined.

(** Two's-complement wrap-around of a 64-bit signed integer. *)
Definition wrap64 (z : Z) : Z := (z + 2 ^ 63) mod 2 ^ 64 - 2 ^ 63.

(** [len(s)] as a Go [int]. *)
Definition len {A : Type} (s : list A) : Z := Z.of_nat (length s).

(** [s[lo:hi]] on a slice whose capacity is its length; out of range panics. *)
Definition slice {A : Type} (s : list A) (lo hi : Z) : option (list A) :=
  if (0 <=? lo) && (lo <=? hi) && (hi <=? len s)
  then Some (take (Z.to_nat (hi - lo)) (drop (Z.to_nat lo) s))
  else None.

(** ** Floating-point numbers *)

Definition float64 : Type := spec_float.
Definition float32 : Type := spec_float.

Module f64.

Definition prec : Z := 53.
Definition emax : Z := 1024.

Definition add : float64 -> float64 -> float64 := SFadd prec emax.
Definition sub : float64 -> float64 -> float64 := SFsub prec emax.
Definition mul : float64 -> float64 -> float64 := SFmul prec emax.
Definition div : float64 -> float64 -> float64 := SFdiv prec emax.
Definition ltb : float64 -> float64 -> bool := SFltb.
Definition leb : float64 -> float64 -> bool := SFleb.
Definition eqb : float64 -> float64 -> bool := SFeqb.

Definition is_nan (x : float64) : bool :=
  match x with
  | S754_nan => true
  | _ => false
  end.

(** [float64(z)] of an integer [z]. *)
Definition of_int (z : Z) : float64 := binary_normalize prec emax z 0 false.

(** [int64(x)]: truncation toward zero; where the result does not fit
    (Go leaves it to the implementation) the value that amd64 gives. *)
Definition to_int (x : float64) : Z :=
  match x with
  | S754_zero _ => 0
  | S754_finite s m e =>
      let magnitude := if 0 <=? e then Zpos m * 2 ^ e else Zpos m / 2 ^ (- e) in
      let z := if s then - magnitude else magnitude in
      if (- 2 ^ 63 <=? z) && (z <? 2 ^ 63) then z else - 2 ^ 63
  | _ => - 2 ^ 63
  end.

(** The value of a decimal constant of the source: the number nearest to
    [digits / 10 ^ k], [k] being the number of digits after the point. The
    division rounds correctly because both operands are exact. *)
Definition constant (n : Number.number) : option float64 :=
  match n with
  | Number.Decimal (Decimal.Decimal i f) =>
      let digits := Z.of_int (Decimal.app_int i f) in
      let scale := 10 ^ Z.of_nat (Decimal.nb_digits f) in
      if (Z.abs digits <? 2 ^ 53) && (scale <? 2 ^ 53)
      then Some (div (of_int digits) (of_int scale))
      else None
  | _ => None
  end.

Definition shown (x : float64) : option Number.number := None.

End f64.

Declare Scope f64_scope.
Delimit Scope f64_scope with f64.
Number Notation spec_float f64.constant f64.shown : f64_scope.
Infix "+" := f64.add : f64_scope.
Infix "-" := f64.sub : f64_scope.
Infix "*" := f64.mul : f64_scope.
Infix "/" := f64.div : f64_scope.
Infix "<?" := f64.ltb : f64_scope.
Infix "<=?" := f64.leb : f64_scope.
Notation "x >? y" := (f64.ltb y x) : f64_scope.
Notation "x >=? y" := (f64.leb y x) : f64_scope.

(** The comparison of two [float32] values. *)
Module f32.
Definition ltb : float32 -> float32 -> bool := SFltb.
Definition eqb : float32 -> float32 -> bool := SFeqb.
End f32.

(** The dynamic values that the code stores in [map[string]any]: nil, the
    values of the comparable types that the code and JSON decoding put
    there, and the slices and maps (a JSON array, a JSON object), whose
    types are not comparable. *)
#[local] Unset Elimination Schemes.
Inductive any : Type :=
| ANil
| AString (s : string)
| AInt (z : Z)
| ABool (b : bool)
| AFloat32 (x : float32)
| AFloat64 (x : float64)
| ASlice (elems : list any)
| AMap (fields : list (string * any)).
#[local] Set Elimination Schemes.

(** [a == b] on two interface values: values of different dynamic types
    differ; values of one comparable type are compared; the comparison of
    two values of one type that is not comparable panics ([None]). *)
Definition any_equal (a b : any) : option bool :=
  match a, b with
  | ANil, ANil => Some true
  | AString s, AString t => Some (String.eqb s t)
  | AInt y, AInt z => Some (y =? z)
  | ABool b, ABool c => Some (Bool.eqb b c)
  | AFloat32 x, AFloat32 y => Some (f32.eqb x y)
  | AFloat64 x, AFloat64 y => Some (f64.eqb x y)
  | ASlice _, ASlice _ => None
  | AMap _, AMap _ => None
  | _, _ => Some false
  end.

(** Arguments of [fmt.Sprintf]. *)
Inductive fmt_arg : Type :=
| ArgS (s : string)
| ArgD (z : Z)
| ArgF (x : float64).

(** The two functions of Go's standard library that the modelled code calls
    and whose result it keeps: [fmt.Sprintf], and [sort.Slice] (which sorts
    in place by [less] and is not guaranteed to be stable). *)
Class GoStd : Type := {
  fmt_Sprintf : string -> list fmt_arg -> string;
  sort_Slice : forall A : Type, (A -> A -> bool) -> list A -> list A
}.
Arguments sort_Slice {_ A} less s.

(** The new-line character of the Go string literals. *)
Definition nl : string := String (ascii_of_nat 10) "".

(** ** Package [memory] *)

Module memory.

(** [time.Time] as the nanoseconds elapsed since Go's zero instant, so that
    the zero [Time] is [0]. *)
Definition Time := Z.
Definition IsZero (t : Time) : bool := t =? 0.
Definition Before (t u : Time) : bool := t <? u.
Definition After (t u : Time) : bool := u <? t.

(** Addresses of metadata maps, and the heap that holds the maps. *)
Definition loc := positive.
Abbreviation Heap := (gmap loc (gmap string any)).

(** The map behind a [map[string]any] value; the nil map reads as empty. *)
Definition deref (h : Heap) (m : option loc) : gmap string any :=
  match m with
  | None => ∅
  | Some l => default ∅ (h !! l)
  end.

(** What the calls read from outside: the package-level [idCounter], the
    random bytes of [crypto/rand] (already hex-encoded) and the clock. *)
Record World : Type := {
  idCounter : Z;
  randomHex : Z -> string;
  clock : nat -> Time;
  ticks : nat
}.

Definition time_Now (w : World) : Time * World :=
  (clock w (ticks w),
   {| idCounter := idCounter w; randomHex := randomHex w;
      clock := clock w; ticks := S (ticks w) |}).

Record Entry : Type := {
  ID : string;
  Role : string;
  Content : string;
  Metadata : option loc;
  Embedding : list float32;
  CreatedAt : Time;
  UpdatedAt : Time
}.

Definition setID (e : Entry) (id : string) : Entry :=
  {| ID := id; Role := Role e; Content := Content e; Metadata := Metadata e;
     Embedding := Embedding e; CreatedAt := CreatedAt e; UpdatedAt := UpdatedAt e |}.

Definition setCreatedAt (e : Entry) (t : Time) : Entry :=
  {| ID := ID e; Role := Role e; Content := Content e; Metadata := Metadata e;
     Embedding := Embedding e; CreatedAt := t; UpdatedAt := UpdatedAt e |}.

Definition setMetadata (e : Entry) (m : option loc) : Entry :=
  {| ID := ID e; Role := Role e; Content := Content e; Metadata := m;
     Embedding := Embedding e; CreatedAt := CreatedAt e; UpdatedAt := UpdatedAt e |}.

Record SearchQuery : Type := {
  qQuery : string;
  qEmbedding : list float32;
  qLimit : Z;
  qOffset : Z;
  qRoles : list string;
  qSince : option Time;
  qUntil : option Time;
  qMetadata : option loc;
  qOrderBy : string;
  qOrderDesc : bool
}.

Record MemoryStats : Type := {
  EntryCount : Z;
  TokenCount : Z;
  OldestEntry : option Time;
  NewestEntry : option Time
}.

(** The loop [for k, v := range query.Metadata] of [matchQuery]; [keys] is
    the order in which the [range] visits the keys. A key that the entry
    lacks, or whose value differs, ends the loop with [false]; the
    comparison [mv != v] of two values of one type that is not comparable
    panics. *)
Fixpoint matchMetadata (entryMetadata queryMetadata : gmap string any)
  (keys : list string) : outcome bool :=
  match keys with
  | [] => Ok true
  | k :: keys =>
      match queryMetadata !! k with
      | None => matchMetadata entryMetadata queryMetadata keys
      | Some v =>
          match entryMetadata !! k with
          | None => Ok false
          | Some mv =>
              match any_equal mv v with
              | None => Panic
              | Some false => Ok false
              | Some true => matchMetadata entryMetadata queryMetadata keys
              end
          end
      end
  end.

(** [matchQuery]: the role, time-range and metadata filters of a query;
    [keys] is the order of the [range] over the query's metadata. *)
Definition matchQuery (h : Heap) (keys : list string) (entry : Entry)
  (query : SearchQuery) : outcome bool :=
  if (0 <? len (qRoles query))
     && negb (existsb (fun role => String.eqb (Role entry) role) (qRoles query))
  then Ok false
  else if match qSince query with
          | Some since => Before (CreatedAt entry) since
          | None => false
          end
  then Ok false
  else if match qUntil query with
          | Some until => After (CreatedAt entry) until
          | None => false
          end
  then Ok false
  else if 0 <? Z.of_nat (size (deref h (qMetadata query)))
  then match Metadata entry with
       | None => Ok false
       | Some l => matchMetadata (deref h (Some l)) (deref h (qMetadata query)) keys
       end
  else Ok true.

(** The loop that keeps the entries which [matchQuery] accepts; [keys]
    gives, for the entry that is matched, the order of the [range] over the
    query's metadata. *)
Fixpoint matching (h : Heap) (keys : Entry -> list string) (query : SearchQuery)
  (entries : list Entry) : outcome (list Entry) :=
  match entries with
  | [] => Ok []
  | entry :: entries =>
      match matchQuery h (keys entry) entry query with
      | Ok keep =>
          match matching h keys query entries with
          | Ok results => Ok (if keep then entry :: results else results)
          | stopped => stopped
          end
      | Err err => Err err
      | Panic => Panic
      end
  end.

End memory.

(** *** Buffer memory: [BufferMemory] and its methods *)

Module Buffer.
Import memory.

Record BufferMemory : Type := {
  entries : list Entry;
  capacity : Z;
  idGen : World -> string * World
}.

Inductive BufferOption : Type :=
| WithIDGenerator (gen : World -> string * World).

Definition applyBufferOption (m : BufferMemory) (opt : BufferOption) : BufferMemory :=
  match opt with
  | WithIDGenerator gen =>
      {| entries := entries m; capacity := capacity m; idGen := gen |}
  end.

Definition defaultIDGen `{GoStd} (w : World) : string * World :=
  let counter := (idCounter w + 1) mod 2 ^ 64 in
  (fmt_Sprintf "mem-%d-%s" [ArgD counter; ArgS (randomHex w counter)],
   {| idCounter := counter; randomHex := randomHex w;
      clock := clock w; ticks := ticks w |}).

Definition NewBuffer `{GoStd} (capacity : Z) (opts : list BufferOption) : BufferMemory :=
  let capacity := if capacity <=? 0 then 100 else capacity in
  fold_left applyBufferOption opts
    {| entries := []; capacity := capacity; idGen := defaultIDGen |}.

Definition setEntries (m : BufferMemory) (es : list Entry) : BufferMemory :=
  {| entries := es; capacity := capacity m; idGen := idGen m |}.

(** The two assignments that open [Save]: the id and the creation time are
    filled in when the caller left them unset. *)
Definition stamp (m : BufferMemory) (entry : Entry) (w : World) : Entry * World :=
  let '(entry, w) :=
    if String.eqb (ID entry) ""
    then let '(id, w) := idGen m w in (setID entry id, w)
    else (entry, w) in
  if IsZero (CreatedAt entry)
  then let '(now, w) := time_Now w in (setCreatedAt entry now, w)
  else (entry, w).

(** [Save]: the returned error is always nil. *)
Definition Save (m : BufferMemory) (entry : Entry) (w : World)
  : option error * BufferMemory * World :=
  let '(entry, w) := stamp m entry w in
  let m := if capacity m <=? len (entries m)
           then setEntries m (drop 1 (entries m))
           else m in
  (None, setEntries m (entries m ++ [entry]), w).

Fixpoint SaveBatch (m : BufferMemory) (es : list Entry) (w : World)
  : option error * BufferMemory * World :=
  match es with
  | [] => (None, m, w)
  | entry :: es =>
      match Save m entry w with
      | (Some err, m, w) => (Some err, m, w)
      | (None, m, w) => SaveBatch m es w
      end
  end.

(** [Get]: the entry found (a copy) and the error. *)
Definition Get (m : BufferMemory) (id : string) : option Entry * option error :=
  (find (fun e => String.eqb (ID e) id) (entries m), None).

(** [Search]: filter, optional reversal, then the page [start, end). *)
Definition Search (m : BufferMemory) (h : Heap) (keys : Entry -> list string)
  (query : SearchQuery) : outcome (list Entry) :=
  match matching h keys query (entries m) with
  | Ok results =>
      let results := if qOrderDesc query then reverse results else results in
      let start := if qOffset query <? 0 then 0 else qOffset query in
      if len results <=? start then Ok []
      else
        let end_ :=
          if (0 <? qLimit query) && (wrap64 (start + qLimit query) <? len results)
          then wrap64 (start + qLimit query)
          else len results in
        match slice results start end_ with
        | Some page => Ok page
        | None => Panic
        end
  | stopped => stopped
  end.

Fixpoint removeFirst (id : string) (es : list Entry) : list Entry :=
  match es with
  | [] => []
  | e :: es => if String.eqb (ID e) id then es else e :: removeFirst id es
  end.

Definition Delete (m : BufferMemory) (id : string) : option error * BufferMemory :=
  (None, setEntries m (removeFirst id (entries m))).

Definition Clear (m : BufferMemory) : option error * BufferMemory :=
  (None, setEntries m []).

(** [Stats] leaves [TokenCount] at its zero value. *)
Definition Stats (m : BufferMemory) : MemoryStats :=
  {| EntryCount := len (entries m);
     TokenCount := 0;
     OldestEntry := CreatedAt <$> head (entries m);
     NewestEntry := CreatedAt <$> last (entries m) |}.

(** [Entries]: a copy of the entries. *)
Definition Entries (m : BufferMemory) : list Entry := entries m.

(** [Last]: a copy of the last [n] entries; the [make] of a slice of
    negative length panics. *)
Definition Last (m : BufferMemory) (n : Z) : outcome (list Entry) :=
  if len (entries m) <=? n then Ok (entries m)
  else if n <? 0 then Panic
  else match slice (entries m) (len (entries m) - n) (len (entries m)) with
       | Some tail => Ok tail
       | None => Panic
       end.

End Buffer.

(** *** Summary memory: [SummaryMemory] and its methods *)

Module Summary.
Import memory.

(** The [Summarizer] collaborator: [Summarize(ctx, content)]. *)
Definition Summarizer := string -> outcome string.

Record SummaryConfig : Type := {
  MaxEntries : Z;
  MaxTokens : Z;
  KeepRecent : Z;
  SummaryPrompt : string;
  ProgressiveSummary : bool;
  BufferCapacity : Z
}.

Definition defaultSummaryPrompt : string :=
"请将以下对话历史压缩成一个简洁的摘要，保留关键信息和上下文：

%s

请用一段话总结以上内容，突出重要的事实、决策和结论。".

Definition progressiveSummaryPrompt : string :=
"你正在更新一份对话摘要。

当前摘要：
%s

新对话内容：
%s

请将新内容融入现有摘要，生成一份更新后的完整摘要。保持简洁，只保留关键信息。".

Definition DefaultSummaryConfig : SummaryConfig :=
  {| MaxEntries := 20;
     MaxTokens := 4000;
     KeepRecent := 5;
     SummaryPrompt := defaultSummaryPrompt;
     ProgressiveSummary := true;
     BufferCapacity := 100 |}.

Record SummaryMemory : Type := {
  buffer : Buffer.BufferMemory;
  summarizer : Summarizer;
  config : SummaryConfig;
  summary : string;
  summaryTime : Time
}.

Inductive SummaryOption : Type :=
| WithSummaryConfig (c : SummaryConfig)
| WithMaxEntries (n : Z)
| WithKeepRecent (n : Z)
| WithProgressiveSummary (enabled : bool).

Definition applySummaryOption (c : SummaryConfig) (opt : SummaryOption) : SummaryConfig :=
  match opt with
  | WithSummaryConfig c' => c'
  | WithMaxEntries n =>
      {| MaxEntries := n; MaxTokens := MaxTokens c; KeepRecent := KeepRecent c;
         SummaryPrompt := SummaryPrompt c; ProgressiveSummary := ProgressiveSummary c;
         BufferCapacity := BufferCapacity c |}
  | WithKeepRecent n =>
      {| MaxEntries := MaxEntries c; MaxTokens := MaxTokens c; KeepRecent := n;
         SummaryPrompt := SummaryPrompt c; ProgressiveSummary := ProgressiveSummary c;
         BufferCapacity := BufferCapacity c |}
  | WithProgressiveSummary enabled =>
      {| MaxEntries := MaxEntries c; MaxTokens := MaxTokens c; KeepRecent := KeepRecent c;
         SummaryPrompt := SummaryPrompt c; ProgressiveSummary := enabled;
         BufferCapacity := BufferCapacity c |}
  end.

Definition NewSummaryMemory `{GoStd} (summarizer : Summarizer) (opts : list SummaryOption)
  : SummaryMemory :=
  let config := fold_left applySummaryOption opts DefaultSummaryConfig in
  {| buffer := Buffer.NewBuffer (BufferCapacity config) [];
     summarizer := summarizer;
     config := config;
     summary := "";
     summaryTime := 0 |}.

Definition setBuffer (m : SummaryMemory) (b : Buffer.BufferMemory) : SummaryMemory :=
  {| buffer := b; summarizer := summarizer m; config := config m;
     summary := summary m; summaryTime := summaryTime m |}.

Definition setSummary (m : SummaryMemory) (s : string) (t : Time) : SummaryMemory :=
  {| buffer := buffer m; summarizer := summarizer m; config := config m;
     summary := s; summaryTime := t |}.

(** [shouldSummarize]: the thresholds are read against the buffer's [Stats]. *)
Definition shouldSummarize (m : SummaryMemory) : bool :=
  let stats := Buffer.Stats (buffer m) in
  if (0 <? MaxEntries (config m)) && (MaxEntries (config m) <? EntryCount stats)
  then true
  else if (0 <? MaxTokens (config m)) && (MaxTokens (config m) <? TokenCount stats)
  then true
  else false.

(** The transcript that [doSummarize] builds: one [role: content] line per entry. *)
Definition transcript `{GoStd} (toSummarize : list Entry) : string :=
  fold_left
    (fun content entry =>
       content +:+ fmt_Sprintf ("%s: %s" +:+ nl) [ArgS (Role entry); ArgS (Content entry)])
    toSummarize "".

(** The loop that puts the recent entries back; [Buffer.Save]'s error is dropped. *)
Definition reinsert (b : Buffer.BufferMemory) (recentEntries : list Entry) (w : World)
  : Buffer.BufferMemory * World :=
  fold_left
    (fun '(b, w) entry => let '(_, b, w) := Buffer.Save b entry w in (b, w))
    recentEntries (b, w).

(** The prompt of [doSummarize]: the progressive template when it is enabled
    and a summary exists, the configured template otherwise. *)
Definition summaryPromptFor `{GoStd} (m : SummaryMemory) (toSummarize : list Entry) : string :=
  let content := transcript toSummarize in
  let currentSummary := summary m in
  if ProgressiveSummary (config m) && negb (String.eqb currentSummary "")
  then fmt_Sprintf progressiveSummaryPrompt [ArgS currentSummary; ArgS content]
  else fmt_Sprintf (SummaryPrompt (config m)) [ArgS content].

(** [doSummarize]: [Err] is the returned error (nothing was changed), [Panic]
    the slice expression out of range. *)
Definition doSummarize `{GoStd} (m : SummaryMemory) (w : World)
  : outcome (SummaryMemory * World) :=
  let entries := Buffer.Entries (buffer m) in
  if len entries <=? KeepRecent (config m) then Ok (m, w)
  else
    let cut := wrap64 (len entries - KeepRecent (config m)) in
    match slice entries 0 cut, slice entries cut (len entries) with
    | Some toSummarize, Some recentEntries =>
        match summarizer m (summaryPromptFor m toSummarize) with
        | Panic => Panic
        | Err err => Err (fmt_Sprintf "summarize failed: %w" [ArgS err])
        | Ok newSummary =>
            let '(now, w) := time_Now w in
            let m := setSummary m newSummary now in
            let '(_, b) := Buffer.Clear (buffer m) in
            let '(b, w) := reinsert b recentEntries w in
            Ok (setBuffer m b, w)
        end
    | _, _ => Panic
    end.

(** [Save]: the buffer's save, then the threshold check; the error of
    [doSummarize] is discarded. *)
Definition Save `{GoStd} (m : SummaryMemory) (entry : Entry) (w : World)
  : outcome (option error * SummaryMemory * World) :=
  match Buffer.Save (buffer m) entry w with
  | (Some err, b, w) => Ok (Some err, setBuffer m b, w)
  | (None, b, w) =>
      let m := setBuffer m b in
      if shouldSummarize m
      then match doSummarize m w with
           | Panic => Panic
           | Err _ => Ok (None, m, w)
           | Ok (m, w) => Ok (None, m, w)
           end
      else Ok (None, m, w)
  end.

Definition Get (m : SummaryMemory) (id : string) : option Entry * option error :=
  Buffer.Get (buffer m) id.

Definition Search (m : SummaryMemory) (h : Heap) (keys : Entry -> list string)
  (query : SearchQuery) : outcome (list Entry) :=
  Buffer.Search (buffer m) h keys query.

Definition Stats (m : SummaryMemory) : MemoryStats :=
  let stats := Buffer.Stats (buffer m) in
  if negb (String.eqb (summary m) "")
  then {| EntryCount := EntryCount stats;
          TokenCount := wrap64 (TokenCount stats + len (list_ascii_of_string (summary m)) / 4);
          OldestEntry := OldestEntry stats;
          NewestEntry := NewestEntry stats |}
  else stats.

Definition Entries (m : SummaryMemory) : list Entry := Buffer.Entries (buffer m).

(** The field [mu], a [sync.RWMutex], as the calling goroutine finds it:
    free, held by [others + 1] readers, or held by a writer. In a sequential
    run every holder is the caller itself, so that an acquisition which has
    to wait never returns: [RLock] and [Lock] then give [None]. Releasing a
    lock that is not held is the runtime's fatal error. *)
Inductive RWMutex : Type :=
| Free
| Reading (others : nat)
| Writing.

Definition RLock (mu : RWMutex) : option RWMutex :=
  match mu with
  | Free => Some (Reading 0)
  | Reading others => Some (Reading (S others))
  | Writing => None
  end.

Definition RUnlock (mu : RWMutex) : option RWMutex :=
  match mu with
  | Reading O => Some Free
  | Reading (S others) => Some (Reading others)
  | _ => None
  end.

Definition Lock (mu : RWMutex) : option RWMutex :=
  match mu with
  | Free => Some Writing
  | _ => None
  end.

Definition Unlock (mu : RWMutex) : option RWMutex :=
  match mu with
  | Writing => Some Free
  | _ => None
  end.

(** How a call that takes locks ends: it returns (or panics), or it waits
    for ever. *)
Inductive progress (A : Type) : Type :=
| Returns (result : outcome A)
| Waits.
Arguments Returns {A} result.
Arguments Waits {A}.

(** [doSummarize] with its lock operations on [m.mu], called while the mutex
    is in state [mu]: the read lock around the reads of the summary and of
    the configuration, the write lock around the update of the summary. *)
Definition doSummarizeUnder `{GoStd} (mu : RWMutex) (m : SummaryMemory) (w : World)
  : progress (SummaryMemory * World) :=
  let entries := Buffer.Entries (buffer m) in
  if len entries <=? KeepRecent (config m) then Returns (Ok (m, w))
  else
    let cut := wrap64 (len entries - KeepRecent (config m)) in
    match slice entries 0 cut, slice entries cut (len entries) with
    | Some toSummarize, Some recentEntries =>
        match RLock mu with
        | None => Waits
        | Some mu =>
            match RUnlock mu with
            | None => Returns Panic
            | Some mu =>
                match summarizer m (summaryPromptFor m toSummarize) with
                | Panic => Returns Panic
                | Err err => Returns (Err (fmt_Sprintf "summarize failed: %w" [ArgS err]))
                | Ok newSummary =>
                    match Lock mu with
                    | None => Waits
                    | Some mu =>
                        let '(now, w) := time_Now w in
                        let m := setSummary m newSummary now in
                        match Unlock mu with
                        | None => Returns Panic
                        | Some _ =>
                            let '(_, b) := Buffer.Clear (buffer m) in
                            let '(b, w) := reinsert b recentEntries w in
                            Returns (Ok (setBuffer m b, w))
                        end
                    end
                end
            end
        end
    | _, _ => Returns Panic
    end.

(** [ForceSummarize]: [m.mu.Lock()], the deferred [Unlock], and
    [doSummarize] under the lock so taken. *)
Definition ForceSummarize `{GoStd} (mu : RWMutex) (m : SummaryMemory) (w : World)
  : progress (SummaryMemory * World) :=
  match Lock mu with
  | None => Waits
  | Some mu => doSummarizeUnder mu m w
  end.

End Summary.

(** *** Vector memory: [VectorMemory], [Get] and [Search] *)

Module Vector.
Import memory.

(** The [Embedder] collaborator: [Embed(ctx, texts)]. *)
Definition Embedder := list string -> outcome (list (list float32)).

Record VectorResult : Type := {
  vrID : string;
  vrScore : float32;
  vrMetadata : option loc
}.

(** The [VectorStore] collaborator, as far as [Search] uses it:
    [Search(ctx, embedding, topK)]. *)
Record VectorStore : Type := {
  vsSearch : list float32 -> Z -> outcome (list VectorResult)
}.

Record VectorConfig : Type := {
  Dimension : Z;
  Capacity : Z;
  MinScore : float32;
  DefaultTopK : Z
}.

Record VectorMemory : Type := {
  entries : gmap string Entry;
  embedder : Embedder;
  store : VectorStore;
  config : VectorConfig
}.

(** [Get]: the stored entry and the error. *)
Definition Get (m : VectorMemory) (id : string) : option Entry * option error :=
  match entries m !! id with
  | None => (None, None)
  | Some entry => (Some entry, None)
  end.

(** [make(map[string]any)] followed by one assignment: a new map at an unused address. *)
Definition alloc (h : Heap) (m : gmap string any) : loc * Heap :=
  let l := fresh (dom h) in (l, <[l := m]> h).

(** [metadata[key] = v] on the map at [l]. *)
Definition store_key (h : Heap) (l : loc) (key : string) (v : any) : Heap :=
  <[l := <[key := v]> (deref h (Some l))]> h.

(** One round of the loop over the store's results: the score threshold,
    the lookup, the query's filters, then the copy that receives [_score]. *)
Definition scoreStep (m : VectorMemory) (keys : Entry -> list string)
  (query : SearchQuery) (st : Heap * list Entry) (result : VectorResult)
  : outcome (Heap * list Entry) :=
  let '(h, acc) := st in
  if f32.ltb (vrScore result) (MinScore (config m)) then Ok (h, acc)
  else match entries m !! vrID result with
       | None => Ok (h, acc)
       | Some entry =>
           match matchQuery h (keys entry) entry query with
           | Ok false => Ok (h, acc)
           | Ok true =>
               let score := AFloat32 (vrScore result) in
               match Metadata entry with
               | None =>
                   let '(l, h) := alloc h {[ "_score" := score ]} in
                   Ok (h, acc ++ [setMetadata entry (Some l)])
               | Some l => Ok (store_key h l "_score" score, acc ++ [entry])
               end
           | Err err => Err err
           | Panic => Panic
           end
       end.

(** The loop over the store's results. *)
Fixpoint scoreLoop (m : VectorMemory) (keys : Entry -> list string)
  (query : SearchQuery) (results : list VectorResult) (st : Heap * list Entry)
  : outcome (Heap * list Entry) :=
  match results with
  | [] => Ok st
  | result :: results =>
      match scoreStep m keys query st result with
      | Ok st => scoreLoop m keys query results st
      | stopped => stopped
      end
  end.

(** The entries of the map in the order [ord] in which [range] visits its keys. *)
Definition rangeEntries (m : VectorMemory) (ord : list string) : list Entry :=
  omap (fun k => entries m !! k) ord.

(** [Search]: by similarity when the query gives or yields an embedding,
    otherwise a scan ordered by creation time. [ord] is the order in which
    the scan's [range] visits the map. *)
Definition Search `{GoStd} (m : VectorMemory) (h : Heap) (keys : Entry -> list string)
  (query : SearchQuery) (ord : list string) : outcome (list Entry * Heap) :=
  let topK := if qLimit query <=? 0 then DefaultTopK (config m) else qLimit query in
  let embedded : outcome (list float32) :=
    if 0 <? len (qEmbedding query) then Ok (qEmbedding query)
    else if negb (String.eqb (qQuery query) "")
    then match embedder m [qQuery query] with
         | Panic => Panic
         | Err err => Err (fmt_Sprintf "generate query embedding: %w" [ArgS err])
         | Ok embeddings => Ok (default [] (head embeddings))
         end
    else Ok [] in
  match embedded with
  | Panic => Panic
  | Err err => Err err
  | Ok embedding =>
      if 0 <? len embedding
      then match vsSearch (store m) embedding topK with
           | Panic => Panic
           | Err err => Err (fmt_Sprintf "vector search: %w" [ArgS err])
           | Ok results =>
               match scoreLoop m keys query results (h, []) with
               | Ok (h, found) => Ok (found, h)
               | Err err => Err err
               | Panic => Panic
               end
           end
      else
        match matching h keys query (rangeEntries m ord) with
        | Ok found =>
            let found :=
              sort_Slice
                (fun a b => if qOrderDesc query
                            then After (CreatedAt a) (CreatedAt b)
                            else Before (CreatedAt a) (CreatedAt b))
                found in
            let start := qOffset query in
            if len found <? start then Ok ([], h)
            else
              let end_ :=
                if (0 <? qLimit query) && (wrap64 (start + qLimit query) <? len found)
                then wrap64 (start + qLimit query)
                else len found in
              match slice found start end_ with
              | Some page => Ok (page, h)
              | None => Panic
              end
        | Err err => Err err
        | Panic => Panic
        end
  end.

(** [SemanticSearch]: [Search] with the text and the limit only. *)
Definition SemanticSearch `{GoStd} (m : VectorMemory) (h : Heap)
  (keys : Entry -> list string) (query : string) (topK : Z) (ord : list string)
  : outcome (list Entry * Heap) :=
  Search m h keys
    {| qQuery := query; qEmbedding := []; qLimit := topK; qOffset := 0; qRoles := [];
       qSince := None; qUntil := None; qMetadata := None; qOrderBy := "";
       qOrderDesc := false |}
    ord.

End Vector.

(** *** Multi-layer memory: [MultiLayerMemory], [Get], [Search], [SearchLayer] *)

Module MultiLayer.
Import memory.

Definition MemoryLayer := string.
Definition LayerWorking : MemoryLayer := "working".
Definition LayerShortTerm : MemoryLayer := "short_term".
Definition LayerLongTerm : MemoryLayer := "long_term".

(** The tiers of a [MultiLayerMemory]; an absent tier is a nil pointer. The
    configuration and the counters of the struct are not read by the methods
    below. *)
Record MultiLayerMemory : Type := {
  working : Buffer.BufferMemory;
  shortTerm : option Summary.SummaryMemory;
  longTerm : option Vector.VectorMemory
}.

(** [Get]: the first tier that holds the id answers; the tiers' errors are
    dropped and the returned error is nil. *)
Definition Get (m : MultiLayerMemory) (id : string) : option Entry * option error :=
  let found :=
    match fst (Buffer.Get (working m) id) with
    | Some entry => Some entry
    | None =>
        match shortTerm m ≫= (fun st => fst (Summary.Get st id)) with
        | Some entry => Some entry
        | None => longTerm m ≫= (fun lt => fst (Vector.Get lt id))
        end
    end in
  (found, None).

(** [addLayerMeta]: a nil map is replaced by a new one; the tag is written
    into the map itself. *)
Definition addLayerMeta (h : Heap) (metadata : option loc) (layer : MemoryLayer)
  : option loc * Heap :=
  match metadata with
  | None =>
      let '(l, h) := Vector.alloc h {[ "_layer" := AString layer ]} in (Some l, h)
  | Some l => (Some l, Vector.store_key h l "_layer" (AString layer))
  end.

(** The loop [entries[i].Metadata = addLayerMeta(entries[i].Metadata, layer)]. *)
Definition tagLayer (layer : MemoryLayer) (st : Heap * list Entry) (entry : Entry)
  : Heap * list Entry :=
  let '(h, acc) := st in
  let '(metadata, h) := addLayerMeta h (Metadata entry) layer in
  (h, acc ++ [setMetadata entry metadata]).

Definition tagAll (h : Heap) (found : list Entry) (layer : MemoryLayer)
  : Heap * list Entry :=
  fold_left (tagLayer layer) found (h, []).

(** A tier's search seen as one that may change the heap (the buffers' do not). *)
Definition untouched (h : Heap) (r : outcome (list Entry)) : outcome (list Entry * Heap) :=
  match r with
  | Ok found => Ok (found, h)
  | Err err => Err err
  | Panic => Panic
  end.

(** [if entries, err := tier.Search(ctx, query); err == nil { tag; append }]. *)
Definition collect (layer : MemoryLayer) (allEntries : list Entry)
  (r : outcome (list Entry * Heap)) (h : Heap) : outcome (list Entry * Heap) :=
  match r with
  | Ok (found, h) =>
      let '(h, found) := tagAll h found layer in Ok (allEntries ++ found, h)
  | Err _ => Ok (allEntries, h)
  | Panic => Panic
  end.

Definition bind {A B : Type} (r : outcome A) (k : A -> outcome B) : outcome B :=
  match r with
  | Ok a => k a
  | Err err => Err err
  | Panic => Panic
  end.

(** [Search]: the tiers in turn, each tagged; a tier whose search returns an
    error is skipped; the total is cut to [Limit]. *)
Definition Search `{GoStd} (m : MultiLayerMemory) (h : Heap)
  (keys : Entry -> list string) (query : SearchQuery) (ord : list string)
  : outcome (list Entry * Heap) :=
  bind (collect LayerWorking [] (untouched h (Buffer.Search (working m) h keys query)) h)
    (fun '(allEntries, h) =>
  bind (match shortTerm m with
        | Some st =>
            collect LayerShortTerm allEntries
              (untouched h (Summary.Search st h keys query)) h
        | None => Ok (allEntries, h)
        end)
    (fun '(allEntries, h) =>
  bind (match longTerm m with
        | Some lt =>
            if negb (String.eqb (qQuery query) "") || (0 <? len (qEmbedding query))
            then collect LayerLongTerm allEntries (Vector.Search lt h keys query ord) h
            else Ok (allEntries, h)
        | None => Ok (allEntries, h)
        end)
    (fun '(allEntries, h) =>
  if (0 <? qLimit query) && (qLimit query <? len allEntries)
  then Ok (take (Z.to_nat (qLimit query)) allEntries, h)
  else Ok (allEntries, h)))).

(** [SearchLayer]: the search of one tier; an absent tier or an unknown
    layer name is an error. *)
Definition SearchLayer `{GoStd} (m : MultiLayerMemory) (h : Heap)
  (keys : Entry -> list string) (layer : MemoryLayer) (query : SearchQuery)
  (ord : list string) : outcome (list Entry * Heap) :=
  let unavailable : outcome (list Entry * Heap) :=
    Err (fmt_Sprintf "layer %s not available" [ArgS layer]) in
  if String.eqb layer LayerWorking
  then untouched h (Buffer.Search (working m) h keys query)
  else if String.eqb layer LayerShortTerm
  then match shortTerm m with
       | Some st => untouched h (Summary.Search st h keys query)
       | None => unavailable
       end
  else if String.eqb layer LayerLongTerm
  then match longTerm m with
       | Some lt => Vector.Search lt h keys query ord
       | None => unavailable
       end
  else unavailable.

End MultiLayer.

(** ** Package [llm] *)

Module llm.

Record Message : Type := {
  msgRole : string;
  msgContent : string
}.

(** [CompletionRequest]: the fields that the routers read or set. *)
Record CompletionRequest : Type := {
  reqModel : string;
  reqMessages : list Message;
  reqMaxTokens : Z
}.

Definition withModel (req : CompletionRequest) (model : string) : CompletionRequest :=
  {| reqModel := model; reqMessages := reqMessages req; reqMaxTokens := reqMaxTokens req |}.

Record Usage : Type := {
  PromptTokens : Z;
  CompletionTokens : Z;
  TotalTokens : Z
}.

Record CompletionResponse : Type := {
  respID : string;
  respModel : string;
  respContent : string;
  respUsage : Usage
}.

(** [streamx.Stream], as the chunks it will deliver. *)
Definition Stream := list string.

Record ModelInfo : Type := {
  ID : string;
  Name : string;
  Description : string;
  MaxTokens : Z;
  InputCost : float64;
  OutputCost : float64;
  Features : list string
}.

Definition HasFeature (m : ModelInfo) (feature : string) : bool :=
  existsb (fun f => String.eqb f feature) (Features m).

Definition FeatureVision : string := "vision".
Definition FeatureFunctions : string := "functions".
Definition FeatureJSON : string := "json_mode".
Definition FeatureStreaming : string := "streaming".
Definition FeatureEmbedding : string := "embedding".

(** A call that reached a provider: which provider, which method, which request. *)
Inductive CallKind : Type := CallComplete | CallStream.

Record Call : Type := {
  callee : nat;
  method : CallKind;
  request : CompletionRequest
}.

(** The [Provider] interface. [self] is the identity of the value behind the
    interface (what [==] compares); [Complete] and [Stream] answer from
    outside the program, possibly depending on the calls made so far. *)
Record Provider : Type := {
  self : nat;
  pName : string;
  pComplete : list Call -> CompletionRequest -> outcome CompletionResponse;
  pStream : list Call -> CompletionRequest -> outcome Stream;
  Models : list ModelInfo;
  CountTokens : list Message -> outcome Z
}.

(** [provider.Complete(ctx, req)] and [provider.Stream(ctx, req)], logged. *)
Definition Complete (p : Provider) (req : CompletionRequest) (log : list Call)
  : outcome CompletionResponse * list Call :=
  (pComplete p log req,
   log ++ [{| callee := self p; method := CallComplete; request := req |}]).

Definition doStream (p : Provider) (req : CompletionRequest) (log : list Call)
  : outcome Stream * list Call :=
  (pStream p log req,
   log ++ [{| callee := self p; method := CallStream; request := req |}]).

End llm.

(** ** Package [router]: the base router *)

Module router.
Import llm.

Definition Strategy := string.
Definition StrategyRoundRobin : Strategy := "round_robin".
Definition StrategyRandom : Strategy := "random".
Definition StrategyLeastLatency : Strategy := "least_latency".
Definition StrategyLeastCost : Strategy := "least_cost".
Definition StrategyWeighted : Strategy := "weighted".
Definition StrategyFallback : Strategy := "fallback".
Definition StrategyModelMatch : Strategy := "model_match".

(** [time.Duration]: nanoseconds. *)
Definition Duration := Z.
Definition Millisecond : Duration := 1000000.
Definition Milliseconds (d : Duration) : Z := Z.quot d 1000000.

Record Router : Type := {
  providers : gmap string Provider;
  providerList : list string;
  weights : gmap string Z;
  modelMap : gmap string string;
  strategy : Strategy;
  fallback : string;
  healthCheck : bool;
  healthy : gmap string bool;
  latencies : gmap string Duration;
  rrIndex : Z
}.

Inductive Option_ : Type :=
| WithStrategy (strategy : Strategy)
| WithFallback (provider : string)
| WithWeights (weights : gmap string Z)
| WithModelMap (modelMap : gmap string string)
| WithHealthCheck (enabled : bool).

Definition applyOption (r : Router) (opt : Option_) : Router :=
  match opt with
  | WithStrategy s =>
      {| providers := providers r; providerList := providerList r; weights := weights r;
         modelMap := modelMap r; strategy := s; fallback := fallback r;
         healthCheck := healthCheck r; healthy := healthy r; latencies := latencies r;
         rrIndex := rrIndex r |}
  | WithFallback p =>
      {| providers := providers r; providerList := providerList r; weights := weights r;
         modelMap := modelMap r; strategy := strategy r; fallback := p;
         healthCheck := healthCheck r; healthy := healthy r; latencies := latencies r;
         rrIndex := rrIndex r |}
  | WithWeights ws =>
      {| providers := providers r; providerList := providerList r; weights := ws;
         modelMap := modelMap r; strategy := strategy r; fallback := fallback r;
         healthCheck := healthCheck r; healthy := healthy r; latencies := latencies r;
         rrIndex := rrIndex r |}
  | WithModelMap mm =>
      {| providers := providers r; providerList := providerList r; weights := weights r;
         modelMap := mm; strategy := strategy r; fallback := fallback r;
         healthCheck := healthCheck r; healthy := healthy r; latencies := latencies r;
         rrIndex := rrIndex r |}
  | WithHealthCheck enabled =>
      {| providers := providers r; providerList := providerList r; weights := weights r;
         modelMap := modelMap r; strategy := strategy r; fallback := fallback r;
         healthCheck := enabled; healthy := healthy r; latencies := latencies r;
         rrIndex := rrIndex r |}
  end.

Definition New (opts : list Option_) : Router :=
  fold_left applyOption opts
    {| providers := ∅; providerList := []; weights := ∅; modelMap := ∅;
       strategy := StrategyRoundRobin; fallback := ""; healthCheck := false;
       healthy := ∅; latencies := ∅; rrIndex := 0 |}.

(** [Register]: the first provider to offer a model id keeps it in [modelMap]. *)
Definition Register (r : Router) (name : string) (provider : Provider) : Router :=
  {| providers := <[name := provider]> (providers r);
     providerList := providerList r ++ [name];
     weights := match weights r !! name with
                | Some _ => weights r
                | None => <[name := 1]> (weights r)
                end;
     modelMap := fold_left
                   (fun mm model =>
                      match mm !! ID model with
                      | Some _ => mm
                      | None => <[ID model := name]> mm
                      end)
                   (Models provider) (modelMap r);
     strategy := strategy r; fallback := fallback r; healthCheck := healthCheck r;
     healthy := <[name := true]> (healthy r);
     latencies := latencies r;
     rrIndex := rrIndex r |}.

Definition Unregister (r : Router) (name : string) : Router :=
  {| providers := delete name (providers r);
     providerList := filter (fun n => n <> name) (providerList r);
     weights := delete name (weights r);
     modelMap := filter (fun kv => kv.2 <> name) (modelMap r);
     strategy := strategy r; fallback := fallback r; healthCheck := healthCheck r;
     healthy := delete name (healthy r);
     latencies := delete name (latencies r);
     rrIndex := rrIndex r |}.

Definition SetHealthy (r : Router) (name : string) (isHealthy : bool) : Router :=
  {| providers := providers r; providerList := providerList r; weights := weights r;
     modelMap := modelMap r; strategy := strategy r; fallback := fallback r;
     healthCheck := healthCheck r; healthy := <[name := isHealthy]> (healthy r);
     latencies := latencies r; rrIndex := rrIndex r |}.

Definition setRRIndex (r : Router) (i : Z) : Router :=
  {| providers := providers r; providerList := providerList r; weights := weights r;
     modelMap := modelMap r; strategy := strategy r; fallback := fallback r;
     healthCheck := healthCheck r; healthy := healthy r; latencies := latencies r;
     rrIndex := i |}.

Definition setLatencies (r : Router) (ls : gmap string Duration) : Router :=
  {| providers := providers r; providerList := providerList r; weights := weights r;
     modelMap := modelMap r; strategy := strategy r; fallback := fallback r;
     healthCheck := healthCheck r; healthy := healthy r; latencies := ls;
     rrIndex := rrIndex r |}.

(** [r.healthy[name]], [r.latencies[name]], [r.weights[name]]: a missing key
    reads as the zero value. *)
Definition isHealthy (r : Router) (name : string) : bool := default false (healthy r !! name).
Definition latencyOf (r : Router) (name : string) : Duration := default 0 (latencies r !! name).
Definition weightOf (r : Router) (name : string) : Z := default 0 (weights r !! name).

(** [s[i]]; out of range panics. *)
Definition index {A : Type} (s : list A) (i : Z) : option A :=
  if i <? 0 then None else s !! Z.to_nat i.

(** [rand.Intn(n)] drawn from the random value [rnd]; it panics when [n <= 0]. *)
Definition rand_Intn (rnd : Z) (n : Z) : option Z :=
  if 0 <? n then Some (rnd mod n) else None.

Definition getHealthyProviders (r : Router) : list string :=
  if negb (healthCheck r) then providerList r
  else filter (fun name => isHealthy r name = true) (providerList r).

Definition roundRobinSelect (r : Router) (available : list string)
  : outcome (option Provider * Router) :=
  if len available =? 0 then Panic
  else match index available (Z.rem (rrIndex r) (len available)) with
       | None => Panic
       | Some name =>
           let next := wrap64 (rrIndex r + 1) in
           let next := if next <? 0 then 0 else next in
           Ok (providers r !! name, setRRIndex r next)
       end.

Definition randomSelect (r : Router) (rnd : Z) (available : list string)
  : outcome (option Provider) :=
  match rand_Intn rnd (len available) ≫= index available with
  | None => Panic
  | Some name => Ok (providers r !! name)
  end.

Definition leastLatencySelect (r : Router) (available : list string)
  : outcome (option Provider) :=
  let '(minLatency, selected) :=
    fold_left
      (fun '(minLatency, selected) name =>
         let latency := latencyOf r name in
         if latency =? 0 then (minLatency, selected)
         else if String.eqb selected "" || (latency <? minLatency)
         then (latency, name)
         else (minLatency, selected))
      available (0, ""%string) in
  if String.eqb selected ""
  then match index available 0 with
       | None => Panic
       | Some first => Ok (providers r !! first)
       end
  else Ok (providers r !! selected).

(** The inner loop of [leastCostSelect] over the models of the provider at
    position [i] of [available]. *)
Definition costScan (model : string) (i : nat) (name : string)
  (st : float64 * string) (m : ModelInfo) : float64 * string :=
  let '(minCost, selected) := st in
  if negb (String.eqb model "") && negb (String.eqb (ID m) model)
  then (minCost, selected)
  else
    let cost := (InputCost m + OutputCost m)%f64 in
    if (i =? 0)%nat || (cost <? minCost)%f64 then (cost, name) else (minCost, selected).

(** The outer loop of [leastCostSelect], from position [i]; a nil provider
    panics at [provider.Models()]. *)
Fixpoint costLoop (r : Router) (model : string) (i : nat) (names : list string)
  (st : float64 * string) : option (float64 * string) :=
  match names with
  | [] => Some st
  | name :: names =>
      match providers r !! name with
      | None => None
      | Some provider =>
          costLoop r model (S i) names (fold_left (costScan model i name) (Models provider) st)
      end
  end.

Definition leastCostSelect (r : Router) (available : list string) (model : string)
  : outcome (option Provider) :=
  match costLoop r model 0 available (0%f64, ""%string) with
  | None => Panic
  | Some (_, selected) =>
      if String.eqb selected ""
      then match index available 0 with
           | None => Panic
           | Some first => Ok (providers r !! first)
           end
      else Ok (providers r !! selected)
  end.

(** The second loop of [weightedSelect]: the first name at which the running
    sum of weights passes [target]. *)
Fixpoint weightedPick (r : Router) (target current : Z) (names : list string)
  : option string :=
  match names with
  | [] => None
  | name :: names =>
      let current := wrap64 (current + weightOf r name) in
      if target <? current then Some name else weightedPick r target current names
  end.

Definition weightedSelect (r : Router) (rnd : Z) (available : list string)
  : outcome (option Provider) :=
  let totalWeight :=
    fold_left (fun total name => wrap64 (total + weightOf r name)) available 0 in
  let first :=
    match index available 0 with
    | None => Panic
    | Some first => Ok (providers r !! first)
    end in
  if totalWeight =? 0 then first
  else match rand_Intn rnd totalWeight with
       | None => Panic
       | Some target =>
           match weightedPick r target 0 available with
           | Some name => Ok (providers r !! name)
           | None => first
           end
       end.

Definition fallbackSelect (r : Router) (available : list string)
  : outcome (option Provider) :=
  match find (fun name => isHealthy r name) (providerList r) with
  | Some name => Ok (providers r !! name)
  | None => Err "no healthy providers"
  end.

(** [selectProvider]: the model's own provider first, then the strategy. *)
Definition selectProvider (r : Router) (rnd : Z) (req : CompletionRequest)
  : outcome (option Provider * Router) :=
  let keep (o : outcome (option Provider)) : outcome (option Provider * Router) :=
    match o with
    | Ok p => Ok (p, r)
    | Err err => Err err
    | Panic => Panic
    end in
  let byStrategy : outcome (option Provider * Router) :=
    let available := getHealthyProviders r in
    if len available =? 0 then Err "no healthy providers available"
    else if String.eqb (strategy r) StrategyRoundRobin then roundRobinSelect r available
    else if String.eqb (strategy r) StrategyRandom then keep (randomSelect r rnd available)
    else if String.eqb (strategy r) StrategyLeastLatency
    then keep (leastLatencySelect r available)
    else if String.eqb (strategy r) StrategyLeastCost
    then keep (leastCostSelect r available (reqModel req))
    else if String.eqb (strategy r) StrategyWeighted then keep (weightedSelect r rnd available)
    else if String.eqb (strategy r) StrategyFallback then keep (fallbackSelect r available)
    else roundRobinSelect r available in
  if len (providerList r) =? 0 then Err "no providers registered"
  else if negb (String.eqb (reqModel req) "")
  then match modelMap r !! reqModel req with
       | Some provName =>
           match providers r !! provName with
           | Some provider =>
               if negb (healthCheck r) || isHealthy r provName
               then Ok (Some provider, r)
               else byStrategy
           | None => byStrategy
           end
       | None => byStrategy
       end
  else byStrategy.

(** [recordLatency]: the moving average, 0.7 of the old value and 0.3 of the new. *)
Definition recordLatency (r : Router) (name : string) (latency : Duration) : Router :=
  match latencies r !! name with
  | Some old =>
      setLatencies r
        (<[name := f64.to_int (f64.of_int old * 0.7 + f64.of_int latency * 0.3)%f64]>
           (latencies r))
  | None => setLatencies r (<[name := latency]> (latencies r))
  end.

(** [getProviderName]: the first name, in the order [visit] of the [range]
    over [providers], that is bound to this very provider. *)
Definition getProviderName (r : Router) (visit : list string) (provider : Provider) : string :=
  default ""%string
    (find (fun name =>
             match providers r !! name with
             | Some p => (self p =? self provider)%nat
             | None => false
             end) visit).

(** What one call of [Complete] or [Stream] reads from outside the router:
    the random draw, the time the provider took, and the order in which a
    [range] over [providers] visits the names. *)
Record Oracle : Type := {
  rnd : Z;
  elapsed : Duration;
  visit : list string
}.

(** The retry of [Complete] and [Stream] after the provider returned [err]. *)
Definition fallbackProvider (r : Router) : option Provider :=
  if negb (String.eqb (fallback r) "") then providers r !! fallback r else None.

(** [Complete]: the response or error, the router afterwards, and the calls made. *)
Definition Complete (r : Router) (o : Oracle) (req : CompletionRequest) (log : list Call)
  : outcome CompletionResponse * Router * list Call :=
  match selectProvider r (rnd o) req with
  | Panic => (Panic, r, log)
  | Err err => (Err err, r, log)
  | Ok (None, r) => (Panic, r, log)
  | Ok (Some provider, r) =>
      let '(resp, log) := llm.Complete provider req log in
      let r := recordLatency r (getProviderName r (visit o) provider) (elapsed o) in
      match resp with
      | Panic => (Panic, r, log)
      | Err err =>
          match fallbackProvider r with
          | Some fb => let '(resp, log) := llm.Complete fb req log in (resp, r, log)
          | None => (Err err, r, log)
          end
      | Ok resp => (Ok resp, r, log)
      end
  end.

(** [Stream]: as [Complete], without the latency record. *)
Definition Stream (r : Router) (o : Oracle) (req : CompletionRequest) (log : list Call)
  : outcome llm.Stream * Router * list Call :=
  match selectProvider r (rnd o) req with
  | Panic => (Panic, r, log)
  | Err err => (Err err, r, log)
  | Ok (None, r) => (Panic, r, log)
  | Ok (Some provider, r) =>
      let '(stream, log) := llm.doStream provider req log in
      match stream with
      | Panic => (Panic, r, log)
      | Err err =>
          match fallbackProvider r with
          | Some fb => let '(stream, log) := llm.doStream fb req log in (stream, r, log)
          | None => (Err err, r, log)
          end
      | Ok stream => (Ok stream, r, log)
      end
  end.

(** [Unregister] as a call: the [make] of the new list, with capacity
    [len(r.providerList)-1], panics when the list is empty; otherwise the
    router is updated as [Unregister] says. *)
Definition tryUnregister (r : Router) (name : string) : outcome Router :=
  if len (providerList r) =? 0 then Panic else Ok (Unregister r name).

(** [RouteByCapability]: the first provider, in the order [visit] of the
    [range] over [providers], that is marked healthy and has a model with
    the capability; nil when there is none. *)
Fixpoint RouteByCapability (r : Router) (visit : list string) (capability : string)
  : option Provider :=
  match visit with
  | [] => None
  | name :: visit =>
      match providers r !! name with
      | None => RouteByCapability r visit capability
      | Some provider =>
          if negb (isHealthy r name) then RouteByCapability r visit capability
          else if existsb (fun model => HasFeature model capability) (Models provider)
          then Some provider
          else RouteByCapability r visit capability
      end
  end.

(** What [ExecuteWithRetry] returns: the response of the first attempt that
    succeeds, or the [MultiProviderError] with the error of each attempt. *)
Inductive Retried : Type :=
| Completed (resp : CompletionResponse)
| AllFailed (errors : gmap string error)
| Panicked.

(** The loop of [ExecuteWithRetry] from attempt [i], [n] attempts being left;
    [os i] is what attempt [i] reads from outside. *)
Fixpoint retryLoop `{GoStd} (n : nat) (i : Z) (r : Router) (os : Z -> Oracle)
  (req : CompletionRequest) (log : list Call) (errors : gmap string error)
  : Retried * Router * list Call :=
  match n with
  | O => (AllFailed errors, r, log)
  | S n =>
      match Complete r (os i) req log with
      | (Ok resp, r, log) => (Completed resp, r, log)
      | (Panic, r, log) => (Panicked, r, log)
      | (Err err, r, log) =>
          retryLoop n (i + 1) r os req log
            (<[fmt_Sprintf "attempt_%d" [ArgD (i + 1)] := err]> errors)
      end
  end.

Definition ExecuteWithRetry `{GoStd} (r : Router) (os : Z -> Oracle)
  (req : CompletionRequest) (maxRetries : Z) (log : list Call)
  : Retried * Router * list Call :=
  retryLoop (Z.to_nat maxRetries) 0 r os req log ∅.

End router.

(** The router as a [Provider]: the methods [Models] and [CountTokens]. *)
Module RouterProvider.
Import llm router.

(** The inner loop of [Models]: a model whose id was seen is skipped. *)
Definition collectModel (st : list ModelInfo * gset string) (model : ModelInfo)
  : list ModelInfo * gset string :=
  let '(models, seen) := st in
  if bool_decide (ID model ∈ seen) then (models, seen)
  else (models ++ [model], {[ ID model ]} ∪ seen).

(** [Models]: the models of every provider, each id once; [visit] is the
    order of the [range] over [providers]. *)
Definition Models (r : Router) (visit : list string) : list ModelInfo :=
  fst (fold_left
         (fun st name =>
            match providers r !! name with
            | Some provider => fold_left collectModel (llm.Models provider) st
            | None => st
            end)
         visit ([], ∅)).

(** [CountTokens]: the count of the provider registered first. *)
Definition CountTokens (r : Router) (messages : list Message) : outcome Z :=
  if len (providerList r) =? 0 then Err "no providers registered"
  else match index (providerList r) 0 ≫= (fun name => providers r !! name) with
       | Some provider => llm.CountTokens provider messages
       | None => Panic
       end.

End RouterProvider.

(** ** Package [router]: the smart router *)

Module smart.
Import llm router.

Definition TaskType := string.
Definition TaskComplexity := string.
Definition RoutingPriority := string.
Definition PriorityQuality : RoutingPriority := "quality".
Definition PriorityCost : RoutingPriority := "cost".
Definition PriorityLatency : RoutingPriority := "latency".
Definition PriorityBalanced : RoutingPriority := "balanced".

Record RoutingConstraints : Type := {
  MaxLatencyMs : Z;
  MaxCostPerRequest : float64;
  MaxInputTokens : Z;
  PreferredProviders : list string;
  ExcludedProviders : list string;
  PreferredModels : list string;
  ExcludedModels : list string;
  RequireStreaming : bool;
  RequireVision : bool;
  RequireFunctionCalling : bool;
  RequireJSONMode : bool
}.

(** [RoutingContext]; its [Hints] map is never read by the router. *)
Record RoutingContext : Type := {
  TaskType_ : TaskType;
  Complexity : TaskComplexity;
  RequiredCapabilities : list string;
  Constraints : RoutingConstraints;
  Priority : RoutingPriority
}.

Definition NewRoutingContext (taskType : TaskType) (complexity : TaskComplexity)
  : RoutingContext :=
  {| TaskType_ := taskType;
     Complexity := complexity;
     RequiredCapabilities := [];
     Constraints :=
       {| MaxLatencyMs := 0; MaxCostPerRequest := 0%f64; MaxInputTokens := 0;
          PreferredProviders := []; ExcludedProviders := [];
          PreferredModels := []; ExcludedModels := [];
          RequireStreaming := false; RequireVision := false;
          RequireFunctionCalling := false; RequireJSONMode := false |};
     Priority := PriorityBalanced |}.

(** [ModelProfile]: the fields that scoring reads. *)
Record ModelProfile : Type := {
  TaskScores : gmap string float64;
  ComplexityScores : gmap string float64;
  AverageLatencyMs : Z;
  InputCostPerMillion : float64;
  OutputCostPerMillion : float64
}.

Record ScoreBreakdown : Type := {
  sbTaskScore : float64;
  sbComplexityScore : float64;
  sbCostScore : float64;
  sbLatencyScore : float64;
  sbCapabilityScore : float64;
  sbPreferenceScore : float64
}.

Record AlternativeModel : Type := {
  altProviderName : string;
  altModelID : string;
  altScore : float64;
  altReason : string
}.

(** [RoutingDecision]; its [Metadata] is a new empty map. *)
Record RoutingDecision : Type := {
  dProvider : Provider;
  dProviderName : string;
  dModelID : string;
  dModelInfo : ModelInfo;
  dReason : string;
  dScore : float64;
  dScores : ScoreBreakdown;
  dEstimatedCost : float64;
  dEstimatedLatency : Z;
  dAlternatives : list AlternativeModel;
  dDecidedAt : Z
}.

(** The [TaskClassifier] interface: [Classify(ctx, req)]. *)
Definition TaskClassifier := CompletionRequest -> TaskType * TaskComplexity.

(** [SmartRouter]: the embedded [*Router] and the fields that routing reads. *)
Record SmartRouter : Type := {
  base : Router;
  classifier : option TaskClassifier;
  modelProfiles : gmap string ModelProfile;
  maxHistorySize : Z;
  autoClassify : bool
}.

Record candidate : Type := {
  provider : Provider;
  providerName : string;
  modelID : string;
  modelInfo : ModelInfo;
  profile : option ModelProfile
}.

Record candidateScore : Type := {
  Total : float64;
  TaskScore : float64;
  ComplexityScore : float64;
  CostScore : float64;
  LatencyScore : float64;
  CapabilityScore : float64;
  PreferenceScore : float64
}.

Record scoredCandidate : Type := {
  scCandidate : candidate;
  score : candidateScore
}.

Definition isProviderExcluded (name : string) (ctx : option RoutingContext) : bool :=
  match ctx with
  | None => false
  | Some ctx =>
      if len (ExcludedProviders (Constraints ctx)) =? 0 then false
      else existsb (fun excluded => String.eqb excluded name)
             (ExcludedProviders (Constraints ctx))
  end.

Definition isModelExcluded (modelID : string) (ctx : option RoutingContext) : bool :=
  match ctx with
  | None => false
  | Some ctx =>
      if len (ExcludedModels (Constraints ctx)) =? 0 then false
      else existsb (fun excluded => String.eqb excluded modelID)
             (ExcludedModels (Constraints ctx))
  end.

Definition meetsCapabilityRequirements (model : ModelInfo) (ctx : option RoutingContext)
  : bool :=
  match ctx with
  | None => true
  | Some ctx =>
      if negb (forallb (fun cap => HasFeature model cap) (RequiredCapabilities ctx))
      then false
      else if RequireVision (Constraints ctx) && negb (HasFeature model FeatureVision)
      then false
      else if RequireFunctionCalling (Constraints ctx)
              && negb (HasFeature model FeatureFunctions)
      then false
      else if RequireStreaming (Constraints ctx) && negb (HasFeature model FeatureStreaming)
      then false
      else if RequireJSONMode (Constraints ctx) && negb (HasFeature model FeatureJSON)
      then false
      else true
  end.

(** The models of one provider that pass the filters of [getCandidates]. *)
Definition candidatesOf (r : SmartRouter) (ctx : option RoutingContext)
  (name : string) (p : Provider) : list candidate :=
  if isProviderExcluded name ctx then []
  else if healthCheck (base r) && negb (isHealthy (base r) name) then []
  else
    omap (fun model =>
            if isModelExcluded (ID model) ctx then None
            else if negb (meetsCapabilityRequirements model ctx) then None
            else Some {| provider := p; providerName := name; modelID := ID model;
                         modelInfo := model;
                         profile := modelProfiles r !! ID model |})
      (Models p).

(** [getCandidates]: [visit] is the order in which the [range] over
    [providers] visits the names. *)
Definition getCandidates (r : SmartRouter) (visit : list string)
  (ctx : option RoutingContext) : list candidate :=
  flat_map
    (fun name =>
       match providers (base r) !! name with
       | Some p => candidatesOf r ctx name p
       | None => []
       end)
    visit.

Definition calculateTaskScore (c : candidate) (ctx : option RoutingContext) : float64 :=
  match profile c, ctx with
  | Some profile, Some ctx =>
      if String.eqb (TaskType_ ctx) "" then 0.5%f64
      else default 0.5%f64 (TaskScores profile !! TaskType_ ctx)
  | _, _ => 0.5%f64
  end.

Definition calculateComplexityScore (c : candidate) (ctx : option RoutingContext)
  : float64 :=
  match profile c, ctx with
  | Some profile, Some ctx =>
      if String.eqb (Complexity ctx) "" then 0.5%f64
      else default 0.5%f64 (ComplexityScores profile !! Complexity ctx)
  | _, _ => 0.5%f64
  end.

(** [estimateCost]: a quarter of the bytes of each message as input tokens,
    [MaxTokens] (500 when unset) as output tokens, prices per million. *)
Definition estimateCost (c : candidate) (req : CompletionRequest) : float64 :=
  let inputTokens :=
    fold_left
      (fun inputTokens msg =>
         wrap64 (inputTokens + Z.quot (Z.of_nat (String.length (msgContent msg))) 4))
      (reqMessages req) 0 in
  let outputTokens := if reqMaxTokens req =? 0 then 500 else reqMaxTokens req in
  let inputCost := (f64.of_int inputTokens * InputCost (modelInfo c) / 1000000)%f64 in
  let outputCost := (f64.of_int outputTokens * OutputCost (modelInfo c) / 1000000)%f64 in
  (inputCost + outputCost)%f64.

Definition calculateCostScore (c : candidate) (ctx : option RoutingContext)
  (req : CompletionRequest) : float64 :=
  let estimatedCost := estimateCost c req in
  if match ctx with
     | Some ctx =>
         (MaxCostPerRequest (Constraints ctx) >? 0)%f64
         && (estimatedCost >? MaxCostPerRequest (Constraints ctx))%f64
     | None => false
     end
  then 0.0%f64
  else
    let maxCost := 0.1%f64 in
    if (estimatedCost >=? maxCost)%f64 then 0.1%f64
    else (1.0 - estimatedCost / maxCost)%f64.

Definition calculateLatencyScore (r : SmartRouter) (c : candidate)
  (ctx : option RoutingContext) : float64 :=
  let latency := latencyOf (base r) (providerName c) in
  let latency :=
    match profile c with
    | Some profile =>
        if 0 <? AverageLatencyMs profile
        then wrap64 (AverageLatencyMs profile * Millisecond)
        else latency
    | None => latency
    end in
  if latency =? 0 then 0.5%f64
  else if match ctx with
          | Some ctx =>
              (0 <? MaxLatencyMs (Constraints ctx))
              && (MaxLatencyMs (Constraints ctx) <? Milliseconds latency)
          | None => false
          end
  then 0.0%f64
  else
    let maxLatency := 10000.0%f64 in
    let latencyMs := f64.of_int (Milliseconds latency) in
    if (latencyMs >=? maxLatency)%f64 then 0.1%f64
    else (1.0 - latencyMs / maxLatency)%f64.

Definition calculateCapabilityScore (c : candidate) (ctx : option RoutingContext)
  : float64 :=
  match ctx with
  | None => 1.0%f64
  | Some ctx =>
      if len (RequiredCapabilities ctx) =? 0 then 1.0%f64
      else
        let matched :=
          len (filter (fun cap => HasFeature (modelInfo c) cap = true)
                 (RequiredCapabilities ctx)) in
        (f64.of_int matched / f64.of_int (len (RequiredCapabilities ctx)))%f64
  end.

Definition calculatePreferenceScore (c : candidate) (ctx : option RoutingContext)
  : float64 :=
  match ctx with
  | None => 0.5%f64
  | Some ctx =>
      let score := 0.5%f64 in
      let score :=
        if existsb (fun pref => String.eqb pref (providerName c))
             (PreferredProviders (Constraints ctx))
        then (score + 0.3)%f64 else score in
      let score :=
        if existsb (fun pref => String.eqb pref (modelID c))
             (PreferredModels (Constraints ctx))
        then (score + 0.2)%f64 else score in
      if (score >? 1.0)%f64 then 1.0%f64 else score
  end.

(** [calculateTotalScore]: the weights of the priority; [s] holds the six axes. *)
Definition calculateTotalScore (s : candidateScore) (ctx : option RoutingContext)
  : float64 :=
  let priority :=
    match ctx with
    | Some ctx => if String.eqb (Priority ctx) "" then PriorityBalanced else Priority ctx
    | None => PriorityBalanced
    end in
  if String.eqb priority PriorityQuality then
    (TaskScore s * 0.4 + ComplexityScore s * 0.25 + CapabilityScore s * 0.2
     + CostScore s * 0.05 + LatencyScore s * 0.05 + PreferenceScore s * 0.05)%f64
  else if String.eqb priority PriorityCost then
    (CostScore s * 0.5 + TaskScore s * 0.2 + ComplexityScore s * 0.1
     + CapabilityScore s * 0.1 + LatencyScore s * 0.05 + PreferenceScore s * 0.05)%f64
  else if String.eqb priority PriorityLatency then
    (LatencyScore s * 0.5 + TaskScore s * 0.2 + ComplexityScore s * 0.1
     + CapabilityScore s * 0.1 + CostScore s * 0.05 + PreferenceScore s * 0.05)%f64
  else
    (TaskScore s * 0.25 + ComplexityScore s * 0.15 + CostScore s * 0.2
     + LatencyScore s * 0.15 + CapabilityScore s * 0.15 + PreferenceScore s * 0.1)%f64.

Definition calculateScore (r : SmartRouter) (c : candidate) (ctx : option RoutingContext)
  (req : CompletionRequest) : candidateScore :=
  let axes :=
    {| Total := 0%f64;
       TaskScore := calculateTaskScore c ctx;
       ComplexityScore := calculateComplexityScore c ctx;
       CostScore := calculateCostScore c ctx req;
       LatencyScore := calculateLatencyScore r c ctx;
       CapabilityScore := calculateCapabilityScore c ctx;
       PreferenceScore := calculatePreferenceScore c ctx |} in
  {| Total := calculateTotalScore axes ctx;
     TaskScore := TaskScore axes;
     ComplexityScore := ComplexityScore axes;
     CostScore := CostScore axes;
     LatencyScore := LatencyScore axes;
     CapabilityScore := CapabilityScore axes;
     PreferenceScore := PreferenceScore axes |}.

Definition estimateLatency (r : SmartRouter) (c : candidate) : Z :=
  match match profile c with
        | Some profile =>
            if 0 <? AverageLatencyMs profile then Some (AverageLatencyMs profile) else None
        | None => None
        end with
  | Some ms => ms
  | None =>
      let latency := latencyOf (base r) (providerName c) in
      if 0 <? latency then Milliseconds latency else 1000
  end.

Definition buildDecisionReason `{GoStd} (best : scoredCandidate)
  (ctx : option RoutingContext) : string :=
  let taskType :=
    match ctx with
    | Some ctx => if String.eqb (TaskType_ ctx) "" then "通用"%string else TaskType_ ctx
    | None => "通用"%string
    end in
  fmt_Sprintf
    "选择 %s (%s) 用于%s任务，综合得分 %.2f (任务匹配: %.2f, 复杂度匹配: %.2f, 成本: %.2f, 延迟: %.2f)"
    [ArgS (modelID (scCandidate best)); ArgS (providerName (scCandidate best));
     ArgS taskType; ArgF (Total (score best)); ArgF (TaskScore (score best));
     ArgF (ComplexityScore (score best)); ArgF (CostScore (score best));
     ArgF (LatencyScore (score best))].

Definition autoClassifyRequest (r : SmartRouter) (req : CompletionRequest)
  : option RoutingContext :=
  if negb (autoClassify r) then None
  else match classifier r with
       | None => None
       | Some classify =>
           let '(taskType, complexity) := classify req in
           Some (NewRoutingContext taskType complexity)
       end.

Definition alternativeOf `{GoStd} (alt : scoredCandidate) : AlternativeModel :=
  {| altProviderName := providerName (scCandidate alt);
     altModelID := modelID (scCandidate alt);
     altScore := Total (score alt);
     altReason := fmt_Sprintf "得分 %.2f，低于最佳模型" [ArgF (Total (score alt))] |}.

(** The comparison that [Route] hands to [sort.Slice]: higher total first. *)
Definition byTotal (a b : scoredCandidate) : bool :=
  (Total (score a) >? Total (score b))%f64.

(** The decision that [Route] builds from the sorted candidates: the first
    one, and the next three at most as alternatives. *)
Definition buildDecision `{GoStd} (r : SmartRouter) (now : Z) (req : CompletionRequest)
  (routingCtx : option RoutingContext) (best : scoredCandidate)
  (rest : list scoredCandidate) : RoutingDecision :=
  {| dProvider := provider (scCandidate best);
     dProviderName := providerName (scCandidate best);
     dModelID := modelID (scCandidate best);
     dModelInfo := modelInfo (scCandidate best);
     dReason := buildDecisionReason best routingCtx;
     dScore := Total (score best);
     dScores :=
       {| sbTaskScore := TaskScore (score best);
          sbComplexityScore := ComplexityScore (score best);
          sbCostScore := CostScore (score best);
          sbLatencyScore := LatencyScore (score best);
          sbCapabilityScore := CapabilityScore (score best);
          sbPreferenceScore := PreferenceScore (score best) |};
     dEstimatedCost := estimateCost (scCandidate best) req;
     dEstimatedLatency := estimateLatency r (scCandidate best);
     dAlternatives := map alternativeOf (take 3 rest);
     dDecidedAt := now |}.

(** The context that [Route] works with: the caller's, or the classifier's
    when the caller gave none. *)
Definition effectiveContext (r : SmartRouter) (req : CompletionRequest)
  (routingCtx : option RoutingContext) : option RoutingContext :=
  match routingCtx with
  | None => autoClassifyRequest r req
  | Some _ => routingCtx
  end.

(** The candidates with their scores, in the order of [getCandidates]. *)
Definition scoreAll (r : SmartRouter) (visit : list string) (req : CompletionRequest)
  (routingCtx : option RoutingContext) : list scoredCandidate :=
  map (fun c => {| scCandidate := c; score := calculateScore r c routingCtx req |})
    (getCandidates r visit routingCtx).

(** [Route]: [visit] is the order of the [range] over [providers], [now] the
    reading of the clock. *)
Definition Route `{GoStd} (r : SmartRouter) (visit : list string) (now : Z)
  (req : CompletionRequest) (routingCtx : option RoutingContext)
  : outcome RoutingDecision :=
  let routingCtx := effectiveContext r req routingCtx in
  let candidates := getCandidates r visit routingCtx in
  if len candidates =? 0 then Err "没有满足条件的候选模型"
  else
    match sort_Slice byTotal (scoreAll r visit req routingCtx) with
    | [] => Panic
    | best :: rest => Ok (buildDecision r now req routingCtx best rest)
    end.

(** The two assignments that [StreamWithRouting] makes through a non-nil
    [routingCtx]. *)
Definition requireStreaming (ctx : RoutingContext) : RoutingContext :=
  {| TaskType_ := TaskType_ ctx;
     Complexity := Complexity ctx;
     RequiredCapabilities := RequiredCapabilities ctx ++ [FeatureStreaming];
     Constraints :=
       {| MaxLatencyMs := MaxLatencyMs (Constraints ctx);
          MaxCostPerRequest := MaxCostPerRequest (Constraints ctx);
          MaxInputTokens := MaxInputTokens (Constraints ctx);
          PreferredProviders := PreferredProviders (Constraints ctx);
          ExcludedProviders := ExcludedProviders (Constraints ctx);
          PreferredModels := PreferredModels (Constraints ctx);
          ExcludedModels := ExcludedModels (Constraints ctx);
          RequireStreaming := true;
          RequireVision := RequireVision (Constraints ctx);
          RequireFunctionCalling := RequireFunctionCalling (Constraints ctx);
          RequireJSONMode := RequireJSONMode (Constraints ctx) |};
     Priority := Priority ctx |}.

(** [StreamWithRouting]: the stream or the error, the decision (nil when
    routing failed), the caller's context after the call, and the calls made. *)
Definition StreamWithRouting `{GoStd} (r : SmartRouter) (visit : list string) (now : Z)
  (req : CompletionRequest) (routingCtx : option RoutingContext) (log : list Call)
  : outcome llm.Stream * option RoutingDecision * option RoutingContext * list Call :=
  let routingCtx := requireStreaming <$> routingCtx in
  match Route r visit now req routingCtx with
  | Panic => (Panic, None, routingCtx, log)
  | Err err => (Err (fmt_Sprintf "路由决策失败: %w" [ArgS err]), None, routingCtx, log)
  | Ok decision =>
      let req := withModel req (dModelID decision) in
      let '(stream, log) := llm.doStream (dProvider decision) req log in
      match stream with
      | Panic => (Panic, Some decision, routingCtx, log)
      | Err err =>
          (Err (fmt_Sprintf "流式请求执行失败: %w" [ArgS err]), Some decision, routingCtx, log)
      | Ok stream => (Ok stream, Some decision, routingCtx, log)
      end
  end.

(** [RoutingRecord]: one entry of the routing history. *)
Record RoutingRecord : Type := {
  recDecision : RoutingDecision;
  recContext : option RoutingContext;
  recSuccess : bool;
  recActualLatency : Duration;
  recActualCost : float64;
  recTimestamp : Z
}.

(** [recordRouting]: the record is appended to the history, which is then
    cut to its last [maxHistorySize] records; [now] is the reading of the
    clock, [resp] is nil when the provider returned an error. *)
Definition recordRouting (r : SmartRouter) (history : list RoutingRecord)
  (decision : RoutingDecision) (ctx : option RoutingContext) (success : bool)
  (elapsed : Duration) (resp : option CompletionResponse) (now : Z)
  : outcome (list RoutingRecord) :=
  let actualCost :=
    match resp with
    | Some resp =>
        match modelProfiles r !! dModelID decision with
        | Some profile =>
            (f64.of_int (PromptTokens (respUsage resp)) * InputCostPerMillion profile
               / 1000000
             + f64.of_int (CompletionTokens (respUsage resp)) * OutputCostPerMillion profile
               / 1000000)%f64
        | None => 0%f64
        end
    | None => 0%f64
    end in
  let record :=
    {| recDecision := decision; recContext := ctx; recSuccess := success;
       recActualLatency := elapsed; recActualCost := actualCost; recTimestamp := now |} in
  let history := history ++ [record] in
  if maxHistorySize r <? len history
  then match slice history (len history - maxHistorySize r) (len history) with
       | Some history => Ok history
       | None => Panic
       end
  else Ok history.

(** [CompleteWithRouting]: the response or the error, the decision (nil
    when routing failed), the calls made and the routing history. [now] is
    the clock when [Route] decides, [elapsed] the time the provider took,
    [stamp] the clock when the record is written. *)
Definition CompleteWithRouting `{GoStd} (r : SmartRouter) (visit : list string)
  (now : Z) (elapsed : Duration) (stamp : Z) (req : CompletionRequest)
  (routingCtx : option RoutingContext) (log : list Call) (history : list RoutingRecord)
  : outcome CompletionResponse * option RoutingDecision * list Call * list RoutingRecord :=
  match Route r visit now req routingCtx with
  | Panic => (Panic, None, log, history)
  | Err err => (Err (fmt_Sprintf "路由决策失败: %w" [ArgS err]), None, log, history)
  | Ok decision =>
      let req := withModel req (dModelID decision) in
      let '(resp, log) := llm.Complete (dProvider decision) req log in
      match resp with
      | Panic => (Panic, Some decision, log, history)
      | Err err =>
          match recordRouting r history decision routingCtx false elapsed None stamp with
          | Ok history =>
              (Err (fmt_Sprintf "请求执行失败: %w" [ArgS err]), Some decision, log, history)
          | _ => (Panic, Some decision, log, history)
          end
      | Ok resp =>
          match recordRouting r history decision routingCtx true elapsed (Some resp) stamp with
          | Ok history => (Ok resp, Some decision, log, history)
          | _ => (Panic, Some decision, log, history)
          end
      end
  end.

End smart.

(** ** An instance of [GoStd] to run the model on concrete inputs *)

(** [insertionSortLessFunc] of Go's [sort] package, which [sort.Slice] runs on
    a slice of at most 12 elements: each element moves left past the
    elements it is [less] than. [sorted] is the sorted prefix, last element
    first. *)
Fixpoint insertBack {A : Type} (less : A -> A -> bool) (x : A) (sorted : list A) : list A :=
  match sorted with
  | [] => [x]
  | y :: ys => if less x y then y :: insertBack less x ys else x :: y :: ys
  end.

Definition insertionSort {A : Type} (less : A -> A -> bool) (s : list A) : list A :=
  rev (fold_left (fun sorted x => insertBack less x sorted) s []).

(** [%.2f] of a number: two decimals of its exact value, rounded to
    nearest, ties to even. *)
Definition twoDecimals (x : float64) : string :=
  match x with
  | S754_nan => "NaN"
  | S754_infinity s => if s then "-Inf" else "+Inf"
  | S754_zero s => if s then "-0.00" else "0.00"
  | S754_finite s m e =>
      let numerator := Zpos m * 100 * 2 ^ Z.max e 0 in
      let denominator := 2 ^ Z.max (- e) 0 in
      let q := numerator / denominator in
      let r := numerator mod denominator in
      let cents :=
        if (denominator <? 2 * r) || ((2 * r =? denominator) && Z.odd q)
        then q + 1 else q in
      let frac := cents mod 100 in
      let sign : string := if s then "-" else "" in
      let pad : string := if frac <? 10 then "0" else "" in
      sign +:+ pretty (cents / 100) +:+ "." +:+ pad +:+ pretty frac
  end.

Definition render (a : option fmt_arg) : string :=
  match a with
  | Some (ArgS s) => s
  | Some (ArgD z) => pretty z
  | Some (ArgF x) => twoDecimals x
  | None => "%!(MISSING)"
  end.

(** [fmt.Sprintf] for the verbs of the modelled code ([%s], [%d], [%w], [%.2f]):
    each verb is replaced by the next argument. *)
Fixpoint sprintf (format : string) (inVerb : bool) (args : list fmt_arg) : string :=
  match format with
  | EmptyString => EmptyString
  | String c rest =>
      if inVerb
      then if existsb (Ascii.eqb c) ["s"; "d"; "w"; "f"; "v"]%char
           then (render (head args) +:+ sprintf rest false (tail args))%string
           else sprintf rest true args
      else if Ascii.eqb c "%"%char then sprintf rest true args
      else String c (sprintf rest false args)
  end.

#[global] Instance goStd : GoStd := {|
  fmt_Sprintf := fun format args => sprintf format false args;
  sort_Slice := @insertionSort
|}.

(** * Properties *)


(** ** Integers and slices *)

Lemma wrap64_small (z : Z) : - 2 ^ 63 <= z < 2 ^ 63 -> wrap64 z = z.
Proof. intros Hz. unfold wrap64. rewrite Z.mod_small; lia. Qed.

Lemma wrap64_range (z : Z) : - 2 ^ 63 <= wrap64 z < 2 ^ 63.
Proof.
  unfold wrap64.
  pose proof (Z.mod_pos_bound (z + 2 ^ 63) (2 ^ 64) ltac:(lia)). lia.
Qed.

Lemma slice_Some {A : Type} (s : list A) (lo hi : Z) :
  0 <= lo <= hi -> hi <= len s ->
  slice s lo hi = Some (take (Z.to_nat (hi - lo)) (drop (Z.to_nat lo) s)).
Proof.
  intros Hlo Hhi. unfold slice.
  destruct (Z.leb_spec 0 lo); [|lia].
  destruct (Z.leb_spec lo hi); [|lia].
  destruct (Z.leb_spec hi (len s)); [|lia]. done.
Qed.

Lemma slice_None {A : Type} (s : list A) (lo hi : Z) :
  lo < 0 \/ hi < lo \/ len s < hi -> slice s lo hi = None.
Proof.
  intros Hbad. unfold slice.
  destruct (Z.leb_spec 0 lo); [|done].
  destruct (Z.leb_spec lo hi); [|done].
  destruct (Z.leb_spec hi (len s)); [lia|done].
Qed.

Lemma len_nonneg {A : Type} (s : list A) : 0 <= len s.
Proof. unfold len. lia. Qed.

Lemma len_app {A : Type} (s t : list A) : len (s ++ t) = len s + len t.
Proof. unfold len. rewrite length_app. lia. Qed.

(** ** Floating-point numbers *)

(** *** The conversion of an integer, and a number divided by itself *)

Lemma digits2_pos_size (p : positive) : digits2_pos p = Pos.size p.
Proof. induction p; simpl; congruence. Qed.

Lemma digits2_pos_bounds (p : positive) :
  2 ^ (Zpos (digits2_pos p) - 1) <= Zpos p < 2 ^ Zpos (digits2_pos p).
Proof.
  rewrite digits2_pos_size.
  pose proof (Pos.size_gt p) as Hgt. pose proof (Pos.size_le p) as Hle.
  apply Pos2Z.pos_lt_pos in Hgt. apply Pos2Z.pos_le_pos in Hle.
  rewrite Pos2Z.inj_pow in Hgt, Hle.
  replace (Zpos (Pos.size p)) with (Z.succ (Zpos (Pos.size p) - 1)) in Hle at 1 by lia.
  rewrite Z.pow_succ_r in Hle by lia. lia.
Qed.

Lemma digits2_pos_unique (p : positive) (d : Z) :
  2 ^ (d - 1) <= Zpos p < 2 ^ d -> Zpos (digits2_pos p) = d.
Proof.
  intros [Hlo Hhi]. pose proof (digits2_pos_bounds p) as [Hlo' Hhi'].
  assert (0 < d) as Hd.
  { destruct (Z.ltb_spec 0 d); [done|]. 
    assert (2 ^ d <= 2 ^ 0) by (destruct (Z.eq_dec d 0) as [->|]; [lia|];
      rewrite Z.pow_neg_r by lia; simpl; lia). simpl in *. lia. }
  destruct (Z.lt_trichotomy (Zpos (digits2_pos p)) d) as [Hlt|[Heq|Hgt]]; [|done|].
  - assert (2 ^ Zpos (digits2_pos p) <= 2 ^ (d - 1)) by (apply Z.pow_le_mono_r; lia). lia.
  - assert (2 ^ d <= 2 ^ (Zpos (digits2_pos p) - 1)) by (apply Z.pow_le_mono_r; lia). lia.
Qed.

Lemma iter_xO_value (p : positive) (k : positive) :
  Zpos (Pos.iter xO p k) = Zpos p * 2 ^ Zpos k.
Proof.
  revert p. induction k using Pos.peano_ind; intros p.
  - simpl. lia.
  - rewrite Pos.iter_succ. rewrite Pos2Z.inj_xO, IHk, Pos2Z.inj_succ, Z.pow_succ_r by lia. lia.
Qed.

Lemma shr_1_m (mrs : shr_record) :
  0 <= shr_m mrs -> shr_m (shr_1 mrs) = shr_m mrs / 2.
Proof.
  destruct mrs as [m r s]. simpl. intros Hm.
  destruct m as [|p|p]; [done| |lia].
  destruct p as [p|p|]; simpl.
  - rewrite Pos2Z.inj_xI. apply Z.div_unique with 1; lia.
  - rewrite Pos2Z.inj_xO. apply Z.div_unique with 0; lia.
  - done.
Qed.

Lemma iter_shr_1_m (k : positive) (mrs : shr_record) :
  0 <= shr_m mrs -> shr_m (SpecFloat.iter_pos shr_1 k mrs) = shr_m mrs / 2 ^ Zpos k.
Proof.
  revert mrs. induction k as [k IH|k IH|]; intros mrs Hm; simpl SpecFloat.iter_pos.
  - assert (0 <= shr_m (shr_1 mrs)) as H1 by (rewrite shr_1_m by done; apply Z.div_pos; lia).
    assert (0 <= shr_m (SpecFloat.iter_pos shr_1 k (shr_1 mrs))) as H2
      by (rewrite IH by done; apply Z.div_pos; lia).
    rewrite IH, IH, shr_1_m by done.
    rewrite !Z.div_div by lia. f_equal.
    rewrite (Pos2Z.inj_xI k).
    replace (2 * Z.pos k + 1) with (1 + Z.pos k + Z.pos k) by lia.
    rewrite !Z.pow_add_r by lia. lia.
  - assert (0 <= shr_m (SpecFloat.iter_pos shr_1 k mrs)) as H2
      by (rewrite IH by done; apply Z.div_pos; lia).
    rewrite IH, IH by done. rewrite Z.div_div by lia. f_equal.
    rewrite (Pos2Z.inj_xO k).
    replace (2 * Z.pos k) with (Z.pos k + Z.pos k) by lia.
    rewrite Z.pow_add_r by lia. lia.
  - rewrite shr_1_m by done. done.
Qed.

(** [shr_fexp] on a positive mantissa: the mantissa is divided by a power of
    two that leaves it 53 digits, or stays as it is. *)
Lemma shr_fexp_pos (p : positive) (e : Z) (l : location) :
  -1021 <= e ->
  let d := Zpos (digits2_pos p) in
  let '(mrs, e') := shr_fexp f64.prec f64.emax (Zpos p) e l in
  (d <= 53 -> shr_m mrs = Zpos p /\ e' = e)
  /\ (53 < d -> shr_m mrs = Zpos p / 2 ^ (d - 53) /\ e' = e + (d - 53)).
Proof.
  intros He d. unfold shr_fexp, fexp, emin, f64.prec, f64.emax.
  cbn [Zdigits2]. fold d.
  replace (Z.max (d + e - 53) (3 - 1024 - 53) - e) with (d - 53) by lia.
  unfold shr. destruct (d - 53) as [|k|k] eqn:Hk.
  - split; [|lia]. intros _. by destruct l as [|[]].
  - split; [lia|]. intros _. rewrite iter_shr_1_m by (destruct l as [|[]]; simpl; lia).
    split; [|done]. by destruct l as [|[]].
  - split; [|lia]. intros _. by destruct l as [|[]].
Qed.

Lemma round_nearest_even_range (m : Z) (l : location) :
  m <= round_nearest_even m l <= m + 1.
Proof.
  destruct l as [|[]]; simpl; try lia. destruct (Z.even m); lia.
Qed.

(** Rounding a positive mantissa of at most 64 digits, at an exponent
    between -52 and 0, gives a positive finite number. *)
Lemma binary_round_aux_pos (s : bool) (p : positive) (e : Z) (l : location) :
  2 ^ 52 <= Zpos p < 2 ^ 64 -> -52 <= e <= 0 ->
  exists m e', binary_round_aux f64.prec f64.emax s (Zpos p) e l = S754_finite s m e'.
Proof.
  intros Hp He. unfold binary_round_aux.
  pose proof (shr_fexp_pos p e l ltac:(lia)) as H1. cbn zeta in H1.
  pose proof (digits2_pos_bounds p) as Hd.
  set (d := Zpos (digits2_pos p)) in *.
  assert (53 <= d <= 64) as Hd'.
  { split.
    - destruct (Z.le_gt_cases 53 d); [done|].
      assert (2 ^ d <= 2 ^ 52) by (apply Z.pow_le_mono_r; lia). lia.
    - destruct (Z.le_gt_cases d 64); [done|].
      assert (2 ^ 64 <= 2 ^ (d - 1)) by (apply Z.pow_le_mono_r; lia). lia. }
  destruct (shr_fexp f64.prec f64.emax (Zpos p) e l) as [mrs e1].
  assert (2 ^ 52 <= shr_m mrs < 2 ^ 53 /\ e <= e1 <= e + 11) as [Hm1 He1].
  { destruct H1 as [Hsmall Hbig]. destruct (Z.eq_dec d 53) as [Heq|Hne].
    - destruct (Hsmall ltac:(lia)) as [-> ->]. rewrite Heq in Hd.
      change (2 ^ (53 - 1)) with (2 ^ 52) in Hd. lia.
    - destruct (Hbig ltac:(lia)) as [-> ->]. split; [|lia].
      assert (2 ^ (d - 1) = 2 ^ 52 * 2 ^ (d - 53)) as Hlo
        by (rewrite <- Z.pow_add_r by lia; f_equal; lia).
      assert (2 ^ d = 2 ^ 53 * 2 ^ (d - 53)) as Hhi
        by (rewrite <- Z.pow_add_r by lia; f_equal; lia).
      assert (0 < 2 ^ (d - 53)) by (apply Z.pow_pos_nonneg; lia).
      split.
      + apply Z.div_le_lower_bound; lia.
      + apply Z.div_lt_upper_bound; lia. }
  pose proof (round_nearest_even_range (shr_m mrs) (loc_of_shr_record mrs)) as Hr.
  set (m2 := round_nearest_even (shr_m mrs) (loc_of_shr_record mrs)) in *.
  destruct m2 as [|p2|p2] eqn:Hm2; [lia| |lia].
  pose proof (shr_fexp_pos p2 e1 loc_Exact ltac:(lia)) as H2. cbn zeta in H2.
  destruct (shr_fexp f64.prec f64.emax (Zpos p2) e1 loc_Exact) as [mrs2 e2].
  destruct H2 as [Hsmall Hbig].
  destruct (Z.eq_dec (Zpos p2) (2 ^ 53)) as [Htop|Hbelow].
  - assert (Zpos (digits2_pos p2) = 54) as Hd2
      by (apply digits2_pos_unique; rewrite Htop; simpl; lia).
    destruct (Hbig ltac:(lia)) as [Hm He2]. rewrite Hd2, Htop in Hm. rewrite Hd2 in He2.
    change (2 ^ 53 / 2 ^ (54 - 53)) with (2 ^ 52) in Hm. rewrite Hm.
    change (2 ^ 52) with (Zpos (2 ^ 52)%positive).
    destruct (Z.leb_spec e2 (f64.emax - f64.prec)) as [_|Hover];
      [by eexists _, _ | unfold f64.emax, f64.prec in Hover; lia].
  - assert (Zpos (digits2_pos p2) = 53) as Hd2
      by (apply digits2_pos_unique; change (2 ^ (53 - 1)) with (2 ^ 52); lia).
    destruct (Hsmall ltac:(lia)) as [-> ->].
    destruct (Z.leb_spec e1 (f64.emax - f64.prec)) as [_|Hover];
      [by eexists _, _ | unfold f64.emax, f64.prec in Hover; lia].
Qed.

(** [float64(z)] for a positive [int]: a positive finite number. *)
Lemma of_int_finite (z : Z) :
  0 < z < 2 ^ 63 -> exists m e, f64.of_int z = S754_finite false m e.
Proof.
  intros Hz. destruct z as [|p|p]; [lia| |lia].
  unfold f64.of_int, binary_normalize, binary_round.
  pose proof (digits2_pos_bounds p) as Hd.
  set (d := Zpos (digits2_pos p)) in *.
  assert (1 <= d <= 63) as Hd'.
  { split; [subst d; lia|].
    destruct (Z.le_gt_cases d 63); [done|].
    assert (2 ^ 63 <= 2 ^ (d - 1)) by (apply Z.pow_le_mono_r; lia). lia. }
  unfold shl_align, fexp, emin, f64.prec, f64.emax.
  replace (Z.max (d + 0 - 53) (3 - 1024 - 53) - 0) with (d - 53) by lia.
  destruct (d - 53) as [|k|k] eqn:Hk.
  - apply binary_round_aux_pos; [|lia].
    assert (d = 53) as Heq by lia. rewrite Heq in Hd.
    change (2 ^ (53 - 1)) with (2 ^ 52) in Hd. lia.
  - apply binary_round_aux_pos; [|lia].
    assert (2 ^ 52 <= 2 ^ (d - 1)) by (apply Z.pow_le_mono_r; lia). lia.
  - replace (Z.max (d + 0 - 53) (3 - 1024 - 53)) with (d - 53) by lia.
    apply binary_round_aux_pos; [|lia].
    rewrite iter_xO_value.
    assert (Zpos k = 53 - d) as -> by lia.
    assert (2 ^ (d - 1) * 2 ^ (53 - d) = 2 ^ 52) as Hlo
      by (rewrite <- Z.pow_add_r by lia; f_equal; lia).
    assert (2 ^ d * 2 ^ (53 - d) = 2 ^ 53) as Hhi
      by (rewrite <- Z.pow_add_r by lia; f_equal; lia).
    assert (0 < 2 ^ (53 - d)) by (apply Z.pow_pos_nonneg; lia).
    nia.
Qed.

(** A finite number divided by itself is 1. *)
Lemma div_self (s : bool) (m : positive) (e : Z) :
  f64.div (S754_finite s m e) (S754_finite s m e) = f64.of_int 1.
Proof.
  unfold f64.div, SFdiv, SFdiv_core_binary. cbn [Zdigits2].
  replace (Zpos (digits2_pos m) + e - (Zpos (digits2_pos m) + e)) with 0 by lia.
  replace (e - e) with 0 by lia.
  change (Z.min (fexp f64.prec f64.emax 0) 0) with (-53).
  change (0 - -53) with 53.
  cbv iota.
  assert (IntDef.Z.div_eucl (IntDef.Z.shiftl (Zpos m) 53) (Zpos m) = (2 ^ 53, 0)) as ->.
  { change (Z.div_eucl (Z.shiftl (Zpos m) 53) (Zpos m) = (2 ^ 53, 0)).
    rewrite Z.shiftl_mul_pow2 by lia.
    pose proof (Z_div_mod (Zpos m * 2 ^ 53) (Zpos m) ltac:(lia)) as Hdm.
    destruct (Z.div_eucl (Zpos m * 2 ^ 53) (Zpos m)) as [q r]. destruct Hdm as [Heq Hr].
    assert (q = 2 ^ 53) as -> by nia. f_equal. lia. }
  rewrite xorb_nilpotent.
  replace (new_location (Zpos m) 0) with loc_Exact
    by (unfold new_location, new_location_even, new_location_odd; by destruct (Z.even _)).
  vm_compute. reflexivity.
Qed.

Lemma of_int_div_self (z : Z) :
  0 < z < 2 ^ 63 -> f64.div (f64.of_int z) (f64.of_int z) = f64.of_int 1.
Proof. intros (m & e & ->)%of_int_finite. apply div_self. Qed.

(** *** The order of the numbers that are not NaN *)

(** The place of a number in the order: its class, then exponent and
    mantissa (negated for a negative number). *)
Definition rank (x : float64) : Z * Z * Z :=
  match x with
  | S754_nan => (0, 0, 0)
  | S754_infinity true => (-2, 0, 0)
  | S754_infinity false => (2, 0, 0)
  | S754_zero _ => (0, 0, 0)
  | S754_finite true m e => (-1, - e, - Zpos m)
  | S754_finite false m e => (1, e, Zpos m)
  end.

Definition below (a b : Z * Z * Z) : Prop :=
  a.1.1 < b.1.1
  \/ (a.1.1 = b.1.1 /\ (a.1.2 < b.1.2 \/ (a.1.2 = b.1.2 /\ a.2 < b.2))).

Lemma ltb_below (x y : float64) :
  f64.is_nan x = false -> f64.is_nan y = false ->
  f64.ltb x y = true <-> below (rank x) (rank y).
Proof.
  intros Hx Hy. unfold f64.ltb, SFltb, below.
  destruct x as [sx|sx| |sx mx ex], y as [sy|sy| |sy my ey]; try done;
    try destruct sx; try destruct sy; cbn; try (split; [done|lia]); try (split; [lia|done]).
  - destruct (Z.compare_spec ex ey); cbn; try (split; [lia|intros; lia || done]).
    change (Pos.compare_cont Eq mx my) with (Pos.compare mx my).
    destruct (Pos.compare_spec mx my); cbn; split; (done || lia).
  - destruct (Z.compare_spec ex ey); cbn; try (split; [lia|intros; lia || done]).
    change (Pos.compare_cont Eq mx my) with (Pos.compare mx my).
    destruct (Pos.compare_spec mx my); cbn; split; (done || lia).
Qed.

Lemma ltb_irrefl (x : float64) : f64.ltb x x = false.
Proof.
  destruct (f64.is_nan x) eqn:Hx; [by destruct x|].
  destruct (f64.ltb x x) eqn:Hlt; [|done].
  apply ltb_below in Hlt; [|done|done]. unfold below in Hlt. lia.
Qed.

Lemma ltb_trans (x y z : float64) :
  f64.ltb x y = true -> f64.ltb y z = true -> f64.ltb x z = true.
Proof.
  intros Hxy Hyz.
  assert (f64.is_nan x = false /\ f64.is_nan y = false /\ f64.is_nan z = false)
    as (Hx & Hy & Hz).
  { destruct x, y, z; try done; by destruct s. }
  apply ltb_below in Hxy, Hyz; try done. apply ltb_below; try done.
  unfold below in *. lia.
Qed.

Lemma ltb_negative_trans (x y z : float64) :
  f64.is_nan x = false -> f64.is_nan y = false -> f64.is_nan z = false ->
  f64.ltb x y = false -> f64.ltb y z = false -> f64.ltb x z = false.
Proof.
  intros Hx Hy Hz Hxy Hyz.
  destruct (f64.ltb x z) eqn:Hxz; [|done].
  apply ltb_below in Hxz; try done.
  assert (~ below (rank x) (rank y)) as Hn1 by (rewrite <- ltb_below by done; congruence).
  assert (~ below (rank y) (rank z)) as Hn2 by (rewrite <- ltb_below by done; congruence).
  unfold below in *. lia.
Qed.

Lemma leb_ltb (x y : float64) :
  f64.is_nan x = false -> f64.is_nan y = false ->
  f64.leb x y = negb (f64.ltb y x).
Proof.
  intros Hx Hy. unfold f64.leb, f64.ltb, SFleb, SFltb.
  destruct x as [sx|sx| |sx mx ex], y as [sy|sy| |sy my ey]; try done;
    try destruct sx; try destruct sy; cbn; try done.
  - rewrite (Z.compare_antisym ex ey).
    destruct (Z.compare_spec ex ey); cbn; try done.
    change (Pos.compare_cont Eq ?a ?b) with (Pos.compare a b).
    rewrite (Pos.compare_antisym mx my). by destruct (Pos.compare mx my).
  - rewrite (Z.compare_antisym ex ey).
    destruct (Z.compare_spec ex ey); cbn; try done.
    change (Pos.compare_cont Eq ?a ?b) with (Pos.compare a b).
    rewrite (Pos.compare_antisym mx my). by destruct (Pos.compare mx my).
Qed.


(** The last [k] elements of a list. *)
Definition lastN {A : Type} (k : nat) (l : list A) : list A := drop (length l - k) l.

(** [e'] is [e] as [Buffer.Save] stores it: only an unset id and an unset
    creation time are filled in. *)
Definition stamped (e e' : memory.Entry) : Prop :=
  memory.Role e' = memory.Role e
  /\ memory.Content e' = memory.Content e
  /\ memory.Metadata e' = memory.Metadata e
  /\ memory.Embedding e' = memory.Embedding e
  /\ memory.UpdatedAt e' = memory.UpdatedAt e
  /\ (memory.ID e <> ""%string -> memory.ID e' = memory.ID e)
  /\ (memory.CreatedAt e <> 0 -> memory.CreatedAt e' = memory.CreatedAt e).

(** The entries of successive [Save] calls as the buffer stores them. *)
Fixpoint stampAll (m : Buffer.BufferMemory) (es : list memory.Entry) (w : memory.World)
  : list memory.Entry :=
  match es with
  | [] => []
  | e :: es => let '(e', w') := Buffer.stamp m e w in e' :: stampAll m es w'
  end.

(** Successive calls of [Save], one per entry. *)
Definition saveAll (m : Buffer.BufferMemory) (es : list memory.Entry) (w : memory.World)
  : Buffer.BufferMemory * memory.World :=
  fold_left (fun '(m, w) e => let '(_, m, w) := Buffer.Save m e w in (m, w)) es (m, w).

Section Buffer_facts.
Import memory Buffer.

Lemma stamp_setEntries m es e w : stamp (setEntries m es) e w = stamp m e w.
Proof. reflexivity. Qed.

Lemma stampAll_setEntries m es l w : stampAll (setEntries m es) l w = stampAll m l w.
Proof.
  revert w. induction l as [|e l IH]; intros w; simpl; [done|].
  rewrite stamp_setEntries. destruct (stamp m e w) as [e' w']. by rewrite IH.
Qed.

Lemma stamp_stamped m e w : stamped e (stamp m e w).1.
Proof.
  unfold stamp, stamped.
  destruct (String.eqb_spec (ID e) "") as [Hid|Hid].
  - destruct (idGen m w) as [id w1]. simpl.
    unfold IsZero. destruct (Z.eqb_spec (CreatedAt e) 0) as [Hc|Hc]; simpl; tauto.
  - unfold IsZero. destruct (Z.eqb_spec (CreatedAt e) 0) as [Hc|Hc]; simpl; tauto.
Qed.

Lemma stampAll_stamped m es w : Forall2 stamped es (stampAll m es w).
Proof.
  revert w. induction es as [|e es IH]; intros w; simpl; [constructor|].
  pose proof (stamp_stamped m e w) as Hs.
  destruct (stamp m e w) as [e' w']. constructor; [exact Hs | apply IH].
Qed.

Lemma stampAll_length m es w : length (stampAll m es w) = length es.
Proof. symmetry. eapply Forall2_length, stampAll_stamped. Qed.

(** One [Save] keeps the newest [capacity] entries. *)
Lemma Save_entries m e w :
  Save m e w =
    (None,
     setEntries m ((if capacity m <=? len (entries m) then drop 1 (entries m) else entries m)
                   ++ [(stamp m e w).1]),
     (stamp m e w).2).
Proof.
  unfold Save. destruct (stamp m e w) as [e' w']. simpl.
  by destruct (capacity m <=? len (entries m)).
Qed.

Lemma lastN_app_full {A} (k : nat) (l1 l2 : list A) :
  (k <= length l2)%nat -> lastN k (l1 ++ l2) = lastN k l2.
Proof.
  intros Hk. unfold lastN. rewrite length_app.
  replace (length l1 + length l2 - k)%nat with (length l1 + (length l2 - k))%nat by lia.
  by rewrite drop_app_add.
Qed.

Lemma lastN_all {A} (k : nat) (l : list A) : (length l <= k)%nat -> lastN k l = l.
Proof. intros Hk. unfold lastN. replace (length l - k)%nat with 0%nat by lia. done. Qed.

Lemma lastN_drop1 {A} (k : nat) (l : list A) :
  (k < length l)%nat -> lastN k (drop 1 l) = lastN k l.
Proof.
  intros Hk. unfold lastN. rewrite length_drop, drop_drop.
  f_equal. lia.
Qed.

Lemma saveAll_entries es : forall m w,
  1 <= capacity m -> len (entries m) <= capacity m ->
  entries (saveAll m es w).1
    = lastN (Z.to_nat (capacity m)) (entries m ++ stampAll m es w)
  /\ capacity (saveAll m es w).1 = capacity m.
Proof.
  induction es as [|e es IH]; intros m w Hcap Hlen.
  - simpl. rewrite app_nil_r, lastN_all; [done|]. unfold len in Hlen. lia.
  - unfold saveAll. simpl. fold (saveAll). rewrite Save_entries.
    destruct (stamp m e w) as [e' w'] eqn:Hst. simpl.
    set (m' := setEntries m _).
    change (fold_left _ es (m', w')) with (saveAll m' es w').
    destruct (IH m' w') as [IHe IHc].
    + done.
    + subst m'. simpl. unfold len in *. rewrite length_app. simpl.
      destruct (Z.leb_spec (capacity m) (Z.of_nat (length (entries m)))).
      * rewrite length_drop. lia.
      * lia.
    + rewrite IHe, IHc. subst m'. simpl. split; [|done].
      rewrite stampAll_setEntries.
      rewrite <- app_assoc. simpl.
      unfold len in *.
      destruct (Z.leb_spec (capacity m) (Z.of_nat (length (entries m)))) as [Hfull|Hroom]; [|done].
      assert (length (entries m) = Z.to_nat (capacity m)) as Hl by lia.
      unfold lastN. rewrite !length_app, length_drop. simpl.
      replace (length (entries m) - 1 + S (length (stampAll m es w')) - Z.to_nat (capacity m))%nat
        with (length (stampAll m es w'))%nat by lia.
      replace (length (entries m) + S (length (stampAll m es w')) - Z.to_nat (capacity m))%nat
        with (1 + length (stampAll m es w'))%nat by lia.
      rewrite <- drop_drop. f_equal.
      destruct (entries m) as [|x xs] eqn:He; [simpl in Hl; lia|]. done.
Qed.

End Buffer_facts.

Section Buffer_claims.
Import memory Buffer.
Context `{GoStd}.

Lemma applyBufferOptions_shape (opts : list BufferOption) (m0 : BufferMemory) :
  entries (fold_left applyBufferOption opts m0) = entries m0
  /\ capacity (fold_left applyBufferOption opts m0) = capacity m0.
Proof.
  revert m0. induction opts as [|opt opts IH]; intros m0; [done|].
  cbn [fold_left]. destruct (IH (applyBufferOption m0 opt)) as [-> ->].
  by destruct opt.
Qed.

Lemma NewBuffer_shape (c : Z) (opts : list BufferOption) :
  entries (NewBuffer c opts) = []
  /\ capacity (NewBuffer c opts) = (if c <=? 0 then 100 else c).
Proof. unfold NewBuffer. by destruct (applyBufferOptions_shape opts
  {| entries := []; capacity := if c <=? 0 then 100 else c; idGen := defaultIDGen |}) as [-> ->]. Qed.

(** [SaveBatch] is the succession of [Save] calls, and never returns an error. *)
Lemma SaveBatch_saveAll (es : list Entry) (m : BufferMemory) (w : World) :
  SaveBatch m es w = (None, (saveAll m es w).1, (saveAll m es w).2).
Proof.
  revert m w. induction es as [|e es IH]; intros m w; [done|].
  unfold saveAll. cbn [SaveBatch fold_left]. rewrite Save_entries.
  rewrite IH. done.
Qed.

(** C7. A buffer created with capacity [c] (100 when [c <= 0]) holds, after
    the [n] saves of [es], [min n c] entries, and they are the last
    [min n c] entries saved, in the order of the saves. The entries saved
    are the caller's ([stamped]), with id and creation time filled in when
    unset. *)
Theorem C7_buffer_keeps_last (c : Z) (opts : list BufferOption) (es : list Entry) (w : World) :
  let m := NewBuffer c opts in
  let m' := (saveAll m es w).1 in
  let k := Z.min (len es) (if c <=? 0 then 100 else c) in
  EntryCount (Stats m') = k
  /\ entries m' = lastN (Z.to_nat k) (stampAll m es w)
  /\ Forall2 stamped es (stampAll m es w).
Proof.
  intros m m' k.
  destruct (NewBuffer_shape c opts) as [Hnil Hcap]. fold m in Hnil, Hcap.
  assert (1 <= capacity m) as Hpos by (rewrite Hcap; destruct (Z.leb_spec c 0); lia).
  destruct (saveAll_entries es m w Hpos) as [Hent _].
  { rewrite Hnil. unfold len. simpl. lia. }
  fold m' in Hent. rewrite Hnil in Hent. simpl in Hent.
  assert (entries m' = lastN (Z.to_nat k) (stampAll m es w)) as Hlast.
  { rewrite Hent. subst k. rewrite <- Hcap. unfold len.
    destruct (Z.le_gt_cases (Z.of_nat (length es)) (capacity m)) as [Hle|Hgt].
    - rewrite Z.min_l by done. rewrite !lastN_all; [done| |]; rewrite stampAll_length; lia.
    - rewrite Z.min_r by lia. done. }
  split; [|split; [exact Hlast | apply stampAll_stamped]].
  unfold Stats. simpl. rewrite Hlast. unfold len, lastN.
  rewrite length_drop, stampAll_length. subst k. unfold len. lia.
Qed.

End Buffer_claims.

(** A world to run the model in: ids count from 1, the clock starts at 1. *)
Definition world0 : memory.World :=
  {| memory.idCounter := 0;
     memory.randomHex := fun _ => "00000000"%string;
     memory.clock := fun n => Z.of_nat n + 1;
     memory.ticks := 0 |}.

Definition userEntry (id content : string) : memory.Entry :=
  {| memory.ID := id; memory.Role := "user"; memory.Content := content;
     memory.Metadata := None; memory.Embedding := []; memory.CreatedAt := 1;
     memory.UpdatedAt := 0 |}.

(** A buffer of capacity 3 that receives the ids A, B, C, D, E holds C, D, E. *)
Example buffer_capacity_3 :
  map memory.ID
    (Buffer.entries
       (saveAll (Buffer.NewBuffer 3 [])
          (map (fun id => userEntry id "x") ["A"; "B"; "C"; "D"; "E"]%string) world0).1)
  = ["C"; "D"; "E"]%string.
Proof. reflexivity. Qed.

(** An entry saved without id and creation time receives both. *)
Example buffer_stamps_unset_fields :
  map (fun e => (memory.ID e, memory.CreatedAt e))
    (Buffer.entries
       (saveAll (Buffer.NewBuffer 0 [])
          [{| memory.ID := ""; memory.Role := "user"; memory.Content := "x";
              memory.Metadata := None; memory.Embedding := []; memory.CreatedAt := 0;
              memory.UpdatedAt := 0 |}] world0).1)
  = [("mem-1-00000000"%string, 1)].
Proof. vm_compute. reflexivity. Qed.


(** ** [Get] on an absent id *)

(** The implementations of the [Memory] interface that the claim names. *)
Inductive MemoryImpl : Type :=
| OfBuffer (m : Buffer.BufferMemory)
| OfVector (m : Vector.VectorMemory)
| OfMultiLayer (m : MultiLayer.MultiLayerMemory).

(** [m.Get(ctx, id)] through the interface. *)
Definition Memory_Get (m : MemoryImpl) (id : string) : option memory.Entry * option error :=
  match m with
  | OfBuffer m => Buffer.Get m id
  | OfVector m => Vector.Get m id
  | OfMultiLayer m => MultiLayer.Get m id
  end.

(** A buffer holds [id] when one of its entries carries it. *)
Definition bufferHolds (m : Buffer.BufferMemory) (id : string) : Prop :=
  exists e, e ∈ Buffer.entries m /\ memory.ID e = id.

(** A memory holds [id]: a buffer entry carries it, the vector memory's map
    binds it, or a tier of the multi-layer memory holds it. *)
Definition holds (m : MemoryImpl) (id : string) : Prop :=
  match m with
  | OfBuffer m => bufferHolds m id
  | OfVector m => is_Some (Vector.entries m !! id)
  | OfMultiLayer m =>
      bufferHolds (MultiLayer.working m) id
      \/ (exists st, MultiLayer.shortTerm m = Some st /\ bufferHolds (Summary.buffer st) id)
      \/ (exists lt, MultiLayer.longTerm m = Some lt /\ is_Some (Vector.entries lt !! id))
  end.

Section Get_absent.
Import memory.

Lemma Buffer_Get_absent (m : Buffer.BufferMemory) (id : string) :
  ~ bufferHolds m id -> Buffer.Get m id = (None, None).
Proof.
  intros Habsent. unfold Buffer.Get. f_equal.
  unfold bufferHolds in Habsent.
  induction (Buffer.entries m) as [|e es IH]; [done|].
  simpl. destruct (String.eqb_spec (ID e) id) as [Heq|Hne].
  - exfalso. apply Habsent. exists e. split; [left | done].
  - apply IH. intros (e' & Hin & Hid). apply Habsent. exists e'. split; [by right | done].
Qed.

Lemma Vector_Get_absent (m : Vector.VectorMemory) (id : string) :
  ~ is_Some (Vector.entries m !! id) -> Vector.Get m id = (None, None).
Proof.
  intros Habsent. unfold Vector.Get.
  destruct (Vector.entries m !! id) as [e|] eqn:He; [|done].
  exfalso. apply Habsent. by exists e.
Qed.

(** C10. [Get] of an id that the memory does not hold returns the nil entry
    and the nil error, for a buffer, a vector and a multi-layer memory. *)
Theorem C10_Get_absent_is_nil_nil (m : MemoryImpl) (id : string) :
  ~ holds m id -> Memory_Get m id = (None, None).
Proof.
  destruct m as [b|v|ml]; cbn [Memory_Get holds]; intros Habsent.
  - by apply Buffer_Get_absent.
  - by apply Vector_Get_absent.
  - unfold MultiLayer.Get.
    rewrite (Buffer_Get_absent (MultiLayer.working ml) id) by tauto.
    assert (MultiLayer.shortTerm ml ≫= (fun st => (Summary.Get st id).1) = None) as ->.
    { destruct (MultiLayer.shortTerm ml) as [st|] eqn:Hst; [|done].
      cbn [mbind option_bind]. unfold Summary.Get.
      rewrite (Buffer_Get_absent (Summary.buffer st) id); [done|].
      intros Hh. apply Habsent. right. left. by exists st. }
    assert (MultiLayer.longTerm ml ≫= (fun lt => (Vector.Get lt id).1) = None) as ->.
    { destruct (MultiLayer.longTerm ml) as [lt|] eqn:Hlt; [|done].
      cbn [mbind option_bind].
      rewrite (Vector_Get_absent lt id); [done|].
      intros Hh. apply Habsent. right. right. by exists lt. }
    done.
Qed.

End Get_absent.

(** A multi-layer memory with one working entry ["a"] and no other tier. *)
Definition entryA : memory.Entry :=
  {| memory.ID := "a"; memory.Role := "user"; memory.Content := "hello";
     memory.Metadata := None; memory.Embedding := []; memory.CreatedAt := 1;
     memory.UpdatedAt := 0 |}.

Definition onlyWorking : MultiLayer.MultiLayerMemory :=
  {| MultiLayer.working :=
       Buffer.setEntries (Buffer.NewBuffer 3 []) [entryA];
     MultiLayer.shortTerm := None;
     MultiLayer.longTerm := None |}.

Lemma C10_witness :
  ~ holds (OfMultiLayer onlyWorking) "b"
  /\ Memory_Get (OfMultiLayer onlyWorking) "b" = (None, None)
  /\ Memory_Get (OfMultiLayer onlyWorking) "a" = (Some entryA, None).
Proof.
  assert (~ holds (OfMultiLayer onlyWorking) "b") as Habsent.
  { simpl. intros [(e & Hin & Hid) | [(st & Hst & _) | (lt & Hlt & _)]];
      [|discriminate|discriminate].
    apply list_elem_of_singleton in Hin. subst e. discriminate. }
  split; [exact Habsent|].
  split; [exact (C10_Get_absent_is_nil_nil (OfMultiLayer onlyWorking) "b" Habsent)|].
  reflexivity.
Defined.


(** ** Summary memory: when a save compresses *)

(** A buffer as its constructor and [Save] leave it: a positive capacity
    (an [int]) and at most that many entries. *)
Definition fits (b : Buffer.BufferMemory) : Prop :=
  1 <= Buffer.capacity b < 2 ^ 63 /\ len (Buffer.entries b) <= Buffer.capacity b.

(** The buffer and the world after the buffer's part of a save. *)
Definition saved (m : Summary.SummaryMemory) (entry : memory.Entry) (w : memory.World)
  : Buffer.BufferMemory * memory.World :=
  let '(_, b, w) := Buffer.Save (Summary.buffer m) entry w in (b, w).

(** The condition of the claim as the specification words it: the entry
    count exceeds [max_entries] or the token count exceeds [max_tokens]. *)
Definition exceeds (m : Summary.SummaryMemory) (b : Buffer.BufferMemory) : Prop :=
  Summary.MaxEntries (Summary.config m) < memory.EntryCount (Buffer.Stats b)
  \/ Summary.MaxTokens (Summary.config m) < memory.TokenCount (Buffer.Stats b).

(** The claim as stated, at one save: the save succeeds; when the condition
    holds and more than [keep_recent] entries exist, only the [keep_recent]
    most recent entries remain; when it does not hold, nothing is compressed. *)
Definition compresses_as_claimed `{GoStd} (m : Summary.SummaryMemory) (entry : memory.Entry)
  (w : memory.World) : Prop :=
  let b := (saved m entry w).1 in
  let keep := Summary.KeepRecent (Summary.config m) in
  exists m' w',
    Summary.Save m entry w = Ok (None, m', w')
    /\ (exceeds m b -> keep < memory.EntryCount (Buffer.Stats b) ->
        Buffer.entries (Summary.buffer m') = lastN (Z.to_nat keep) (Buffer.entries b))
    /\ (~ exceeds m b ->
        Buffer.entries (Summary.buffer m') = Buffer.entries b
        /\ Summary.summary m' = Summary.summary m).

Section Summary_facts.
Import memory.
Context `{GoStd}.

Lemma fits_NewBuffer (c : Z) (opts : list Buffer.BufferOption) :
  c < 2 ^ 63 -> fits (Buffer.NewBuffer c opts).
Proof.
  intros Hc. unfold fits. destruct (NewBuffer_shape c opts) as [-> ->].
  unfold len. simpl. destruct (Z.leb_spec c 0); lia.
Qed.

Lemma saved_eq (m : Summary.SummaryMemory) (entry : Entry) (w : World) :
  Buffer.Save (Summary.buffer m) entry w = (None, (saved m entry w).1, (saved m entry w).2).
Proof. unfold saved. rewrite Save_entries. done. Qed.

Lemma fits_Save (b : Buffer.BufferMemory) (entry : Entry) (w : World) :
  fits b -> fits (Buffer.Save b entry w).1.2.
Proof.
  intros [Hcap Hlen]. rewrite Save_entries. unfold fits. simpl.
  split; [done|]. rewrite len_app. unfold len in *. simpl.
  destruct (Z.leb_spec (Buffer.capacity b) (Z.of_nat (length (Buffer.entries b)))).
  - rewrite length_drop. lia.
  - lia.
Qed.

Lemma saved_nonempty (m : Summary.SummaryMemory) (entry : Entry) (w : World) :
  1 <= len (Buffer.entries (saved m entry w).1).
Proof.
  unfold saved. rewrite Save_entries. simpl. rewrite len_app. unfold len. simpl. lia.
Qed.

Lemma reinsert_saveAll (b : Buffer.BufferMemory) (l : list Entry) (w : World) :
  Summary.reinsert b l w = saveAll b l w.
Proof. reflexivity. Qed.

(** Putting at most [capacity] entries back into the emptied buffer keeps them all. *)
Lemma reinsert_cleared (b : Buffer.BufferMemory) (l : list Entry) (w : World) :
  1 <= Buffer.capacity b -> len l <= Buffer.capacity b ->
  Buffer.entries (Summary.reinsert (Buffer.setEntries b []) l w).1
    = stampAll b l w
  /\ Buffer.capacity (Summary.reinsert (Buffer.setEntries b []) l w).1 = Buffer.capacity b.
Proof.
  intros Hcap Hl. rewrite reinsert_saveAll.
  destruct (saveAll_entries l (Buffer.setEntries b []) w) as [-> ->]; [done| |].
  { simpl. unfold len. simpl. lia. }
  simpl. rewrite stampAll_setEntries. split; [|done].
  apply lastN_all. rewrite stampAll_length. unfold len in Hl. lia.
Qed.

(** [shouldSummarize] reads the thresholds only when they are positive, and
    the buffer's token count is always zero. *)
Lemma shouldSummarize_spec (m : Summary.SummaryMemory) :
  Summary.shouldSummarize m = true <->
  0 < Summary.MaxEntries (Summary.config m)
  /\ Summary.MaxEntries (Summary.config m) < len (Buffer.entries (Summary.buffer m)).
Proof.
  unfold Summary.shouldSummarize. simpl.
  destruct (Z.ltb_spec 0 (Summary.MaxEntries (Summary.config m)));
    destruct (Z.ltb_spec (Summary.MaxEntries (Summary.config m))
                (len (Buffer.entries (Summary.buffer m)))); simpl;
    destruct (Z.ltb_spec 0 (Summary.MaxTokens (Summary.config m)));
    destruct (Z.ltb_spec (Summary.MaxTokens (Summary.config m)) 0); simpl;
    split; intros; try done; try lia.
Qed.

(** What [doSummarize] does when more than [KeepRecent >= 0] entries exist. *)
Lemma doSummarize_cut (m : Summary.SummaryMemory) (w : World) :
  let es := Buffer.entries (Summary.buffer m) in
  let keep := Summary.KeepRecent (Summary.config m) in
  fits (Summary.buffer m) -> 0 <= keep < len es ->
  Summary.doSummarize m w =
    match Summary.summarizer m
            (Summary.summaryPromptFor m (take (Z.to_nat (len es - keep)) es)) with
    | Panic => Panic
    | Err err => Err (fmt_Sprintf "summarize failed: %w" [ArgS err])
    | Ok newSummary =>
        let '(now, w) := time_Now w in
        let m := Summary.setSummary m newSummary now in
        let '(b, w) :=
          Summary.reinsert (Buffer.setEntries (Summary.buffer m) [])
            (lastN (Z.to_nat keep) es) w in
        Ok (Summary.setBuffer m b, w)
    end.
Proof.
  intros es keep [Hcap Hlen] Hkeep. unfold Summary.doSummarize, Buffer.Entries.
  fold es keep.
  assert (len es <= Buffer.capacity (Summary.buffer m)) as Hlen' by exact Hlen.
  destruct (Z.leb_spec (len es) keep); [lia|].
  rewrite wrap64_small by (pose proof (len_nonneg es); lia).
  rewrite (slice_Some es 0 (len es - keep)) by lia.
  rewrite (slice_Some es (len es - keep) (len es)) by lia.
  rewrite Z.sub_0_r. simpl (drop (Z.to_nat 0) es).
  replace (take (Z.to_nat (len es - (len es - keep))) (drop (Z.to_nat (len es - keep)) es))
    with (lastN (Z.to_nat keep) es).
  2:{ unfold lastN. rewrite take_ge.
      - f_equal. unfold len. lia.
      - rewrite length_drop. unfold len. lia. }
  destruct (Summary.summarizer m _) as [newSummary|err|]; try done.
Qed.

End Summary_facts.

Section Summary_save.
Import memory.
Context `{GoStd}.

(** [Save] after the buffer's part: the threshold check and, when it fires,
    [doSummarize], whose returned error is dropped. *)
Lemma Save_unfold (m : Summary.SummaryMemory) (entry : Entry) (w : World) :
  Summary.Save m entry w =
    let b := (saved m entry w).1 in
    let w1 := (saved m entry w).2 in
    if Summary.shouldSummarize (Summary.setBuffer m b)
    then match Summary.doSummarize (Summary.setBuffer m b) w1 with
         | Panic => Panic
         | Err _ => Ok (None, Summary.setBuffer m b, w1)
         | Ok (m', w') => Ok (None, m', w')
         end
    else Ok (None, Summary.setBuffer m b, w1).
Proof. unfold Summary.Save. rewrite saved_eq. done. Qed.

End Summary_save.

Section Summary_claim.
Import memory.
Context `{GoStd}.

(** C8 (amended). After the buffer's part of a save, compression is
    triggered exactly when [MaxEntries] is positive and the entry count
    exceeds it (the buffer reports a token count of zero, so [MaxTokens]
    never triggers). When it is not triggered, or at most [KeepRecent]
    entries exist, the save only stores the entry. When it is triggered and
    more than [KeepRecent >= 0] entries exist, the summarizer receives the
    prompt built from all but the [KeepRecent] most recent entries; if it
    answers, its answer becomes the summary and exactly those most recent
    entries remain; if it fails, the buffer is left as it is. In each of
    these cases the save returns a nil error. *)
Theorem C8_summary_save_compression (m : Summary.SummaryMemory) (entry : Entry) (w : World) :
  fits (Summary.buffer m) ->
  let b := (saved m entry w).1 in
  let w1 := (saved m entry w).2 in
  let n := len (Buffer.entries b) in
  let keep := Summary.KeepRecent (Summary.config m) in
  let triggered := Summary.shouldSummarize (Summary.setBuffer m b) = true in
  (triggered <->
     0 < Summary.MaxEntries (Summary.config m) /\ Summary.MaxEntries (Summary.config m) < n)
  /\ TokenCount (Buffer.Stats b) = 0
  /\ (~ triggered -> Summary.Save m entry w = Ok (None, Summary.setBuffer m b, w1))
  /\ (triggered -> n <= keep ->
      Summary.Save m entry w = Ok (None, Summary.setBuffer m b, w1))
  /\ (triggered -> 0 <= keep < n ->
      match Summary.summarizer m
              (Summary.summaryPromptFor m (take (Z.to_nat (n - keep)) (Buffer.entries b))) with
      | Ok newSummary =>
          exists m' w',
            Summary.Save m entry w = Ok (None, m', w')
            /\ Summary.summary m' = newSummary
            /\ EntryCount (Buffer.Stats (Summary.buffer m')) = keep
            /\ Forall2 stamped (lastN (Z.to_nat keep) (Buffer.entries b))
                 (Buffer.entries (Summary.buffer m'))
            /\ fits (Summary.buffer m')
      | Err _ => Summary.Save m entry w = Ok (None, Summary.setBuffer m b, w1)
      | Panic => Summary.Save m entry w = Panic
      end).
Proof.
  intros Hfits b w1 n keep triggered.
  assert (fits b) as Hfits_b.
  { pose proof (fits_Save _ entry w Hfits) as Hf. rewrite saved_eq in Hf. exact Hf. }
  pose proof (Save_unfold m entry w) as HSave. cbv zeta in HSave. fold b w1 in HSave.
  split; [apply (shouldSummarize_spec (Summary.setBuffer m b))|].
  split; [done|].
  split.
  { intros Hno. rewrite HSave.
    destruct (Summary.shouldSummarize (Summary.setBuffer m b)); [by destruct Hno|done]. }
  split.
  { intros Hyes Hfew. rewrite HSave, Hyes.
    unfold Summary.doSummarize, Buffer.Entries. simpl.
    fold b n keep. destruct (Z.leb_spec n keep); [done|lia]. }
  intros Hyes Hkeep. rewrite HSave, Hyes.
  rewrite (doSummarize_cut (Summary.setBuffer m b) w1 Hfits_b Hkeep).
  cbn [Summary.buffer Summary.setBuffer Summary.config Summary.summarizer].
  fold n keep.
  change (Summary.summaryPromptFor (Summary.setBuffer m b)) with (Summary.summaryPromptFor m).
  destruct (Summary.summarizer m _) as [newSummary|err|]; [|done|done].
  destruct (time_Now w1) as [now w2] eqn:Hnow.
  cbn [Summary.buffer Summary.setSummary].
  destruct Hfits_b as [Hcap Hlen].
  assert (len (lastN (Z.to_nat keep) (Buffer.entries b)) = keep) as Hk.
  { unfold lastN, len. rewrite length_drop. unfold n, len in Hkeep. lia. }
  destruct (reinsert_cleared b (lastN (Z.to_nat keep) (Buffer.entries b)) w2) as [Hent Hc];
    [lia | fold n in Hlen; lia |].
  destruct (Summary.reinsert _ _ w2) as [b' w3]. simpl in Hent, Hc.
  eexists _, _. split; [reflexivity|]. simpl.
  split; [done|]. rewrite Hent.
  split; [unfold len; rewrite stampAll_length; exact Hk|].
  split; [apply stampAll_stamped|].
  unfold fits. rewrite Hc, Hent. split; [done|].
  unfold len. rewrite stampAll_length. fold (len (lastN (Z.to_nat keep) (Buffer.entries b))).
  fold n in Hlen. lia.
Qed.

End Summary_claim.

(** *** Concrete runs of the summary memory *)

(** A summarizer that always answers, and one that always fails. *)
Definition answering : Summary.Summarizer := fun _ => Ok "S"%string.
Definition failing : Summary.Summarizer := fun _ => Err "unavailable"%string.

(** A new memory with the given options into which [A] has been saved. *)
Definition afterFirstSave (s : Summary.Summarizer) (opts : list Summary.SummaryOption)
  : Summary.SummaryMemory * memory.World :=
  let m := Summary.NewSummaryMemory s opts in
  (Summary.setBuffer m (saved m (userEntry "A" "first") world0).1,
   (saved m (userEntry "A" "first") world0).2).

Lemma fits_afterFirstSave (s : Summary.Summarizer) (opts : list Summary.SummaryOption) :
  Summary.BufferCapacity (fold_left Summary.applySummaryOption opts Summary.DefaultSummaryConfig)
    < 2 ^ 63 ->
  fits (Summary.buffer (afterFirstSave s opts).1).
Proof.
  intros Hc. unfold afterFirstSave. cbn [fst Summary.buffer Summary.setBuffer].
  pose proof (fits_Save (Summary.buffer (Summary.NewSummaryMemory s opts))
                (userEntry "A" "first") world0) as Hf.
  rewrite saved_eq in Hf. apply Hf. unfold Summary.NewSummaryMemory.
  cbn [Summary.buffer]. by apply fits_NewBuffer.
Qed.

(** With [max_entries = 1] and [keep_recent = 1], the second save compresses:
    the summarizer's answer is installed and one entry remains. *)
Lemma C8_witness :
  let m := (afterFirstSave answering [Summary.WithMaxEntries 1; Summary.WithKeepRecent 1]).1 in
  let w := (afterFirstSave answering [Summary.WithMaxEntries 1; Summary.WithKeepRecent 1]).2 in
  fits (Summary.buffer m)
  /\ exists m' w',
       Summary.Save m (userEntry "B" "second") w = Ok (None, m', w')
       /\ Summary.summary m' = "S"%string
       /\ memory.EntryCount (Buffer.Stats (Summary.buffer m')) = 1.
Proof.
  intros m w.
  assert (fits (Summary.buffer m)) as Hfits.
  { apply fits_afterFirstSave. vm_compute. reflexivity. }
  split; [exact Hfits|].
  destruct (C8_summary_save_compression m (userEntry "B" "second") w Hfits)
    as (_ & _ & _ & _ & Hcut).
  assert (Summary.shouldSummarize
            (Summary.setBuffer m (saved m (userEntry "B" "second") w).1) = true) as Htrig
    by (vm_compute; reflexivity).
  assert (len (Buffer.entries (saved m (userEntry "B" "second") w).1) = 2) as Hn
    by (vm_compute; reflexivity).
  specialize (Hcut Htrig). rewrite Hn in Hcut.
  specialize (Hcut ltac:(change (Summary.KeepRecent (Summary.config m)) with 1; lia)).
  destruct Hcut as (m' & w' & HSave & Hsum & Hcount & _).
  exists m', w'. split; [exact HSave|]. split; [exact Hsum | exact Hcount].
Defined.

(** The claim fails at two saves: with [max_entries = 0] the count exceeds
    the threshold and yet nothing is compressed; with a summarizer that
    fails, the entries to be compressed stay in the buffer. *)
Lemma C8_counterexample :
  ~ compresses_as_claimed
      (Summary.NewSummaryMemory answering [Summary.WithMaxEntries 0; Summary.WithKeepRecent 0])
      (userEntry "A" "first") world0
  /\ ~ compresses_as_claimed
        (afterFirstSave failing [Summary.WithMaxEntries 1; Summary.WithKeepRecent 0]).1
        (userEntry "B" "second")
        (afterFirstSave failing [Summary.WithMaxEntries 1; Summary.WithKeepRecent 0]).2.
Proof.
  split.
  - set (m := Summary.NewSummaryMemory answering _).
    intros (m' & w' & HSave & Hyes & _).
    rewrite Save_unfold in HSave. cbv zeta in HSave.
    replace (Summary.shouldSummarize
               (Summary.setBuffer m (saved m (userEntry "A" "first") world0).1))
      with false in HSave by (vm_compute; reflexivity).
    injection HSave as <- _.
    assert (Buffer.entries (saved m (userEntry "A" "first") world0).1
            = lastN (Z.to_nat 0) (Buffer.entries (saved m (userEntry "A" "first") world0).1))
      as Heq.
    { apply Hyes; [left|]; vm_compute; reflexivity. }
    apply (f_equal length) in Heq. vm_compute in Heq. discriminate.
  - set (m := (afterFirstSave failing _).1). set (w := (afterFirstSave failing _).2).
    intros (m' & w' & HSave & Hyes & _).
    assert (fits (Summary.buffer m)) as Hfits.
    { apply fits_afterFirstSave. vm_compute. reflexivity. }
    assert (fits (saved m (userEntry "B" "second") w).1) as Hfits'.
    { pose proof (fits_Save _ (userEntry "B" "second") w Hfits) as Hf.
      rewrite saved_eq in Hf. exact Hf. }
    rewrite Save_unfold in HSave. cbv zeta in HSave.
    replace (Summary.shouldSummarize
               (Summary.setBuffer m (saved m (userEntry "B" "second") w).1))
      with true in HSave by (vm_compute; reflexivity).
    rewrite doSummarize_cut in HSave.
    2:{ exact Hfits'. }
    2:{ cbn [Summary.buffer Summary.setBuffer Summary.config].
        replace (len (Buffer.entries (saved m (userEntry "B" "second") w).1)) with 2
          by (vm_compute; reflexivity).
        change (Summary.KeepRecent (Summary.config m)) with 0. lia. }
    change (Summary.summarizer (Summary.setBuffer m (saved m (userEntry "B" "second") w).1))
      with failing in HSave.
    unfold failing at 1 in HSave.
    injection HSave as <- _.
    assert (Buffer.entries (saved m (userEntry "B" "second") w).1
            = lastN (Z.to_nat 0) (Buffer.entries (saved m (userEntry "B" "second") w).1))
      as Heq.
    { apply Hyes; [left|]; vm_compute; reflexivity. }
    apply (f_equal length) in Heq. vm_compute in Heq. discriminate.
Qed.


(** ** The base router: the registry and the selection *)

(** The registry as [New], [Register] and [Unregister] keep it: the names of
    [providerList] are the names bound in [providers]. *)
Definition registry_ok (r : router.Router) : Prop :=
  forall name, is_Some (router.providers r !! name) <-> name ∈ router.providerList r.

Section Registry.
Import llm router.

Lemma applyOption_registry (r : Router) (opt : Option_) :
  providers (applyOption r opt) = providers r
  /\ providerList (applyOption r opt) = providerList r.
Proof. by destruct opt. Qed.

Lemma registry_ok_New (opts : list Option_) : registry_ok (New opts).
Proof.
  unfold New.
  assert (forall r, providers (fold_left applyOption opts r) = providers r
                    /\ providerList (fold_left applyOption opts r) = providerList r) as Hfold.
  { induction opts as [|opt opts IH]; intros r; [done|].
    cbn [fold_left]. destruct (IH (applyOption r opt)) as [-> ->].
    apply applyOption_registry. }
  intros name. destruct (Hfold {| providers := ∅; providerList := []; weights := ∅;
    modelMap := ∅; strategy := StrategyRoundRobin; fallback := ""; healthCheck := false;
    healthy := ∅; latencies := ∅; rrIndex := 0 |}) as [-> ->].
  simpl. rewrite lookup_empty. split; [by intros [? ?] | by intros ?%elem_of_nil].
Qed.

Lemma registry_ok_Register (r : Router) (name : string) (p : Provider) :
  registry_ok r -> registry_ok (Register r name p).
Proof.
  intros Hok n. unfold Register. cbn [providers providerList].
  rewrite elem_of_app, list_elem_of_singleton, <- (Hok n).
  destruct (decide (name = n)) as [->|Hne].
  - rewrite lookup_insert_eq. split; [by right | by eexists].
  - rewrite lookup_insert_ne by done. split; [by left | intros [?|?]; [done|by subst]].
Qed.

Lemma registry_ok_Unregister (r : Router) (name : string) :
  registry_ok r -> registry_ok (Unregister r name).
Proof.
  intros Hok n. unfold Unregister. cbn [providers providerList].
  rewrite list_elem_of_filter, <- (Hok n).
  destruct (decide (name = n)) as [->|Hne].
  - rewrite lookup_delete_eq. split; [by intros [? ?] | by intros [? _]].
  - rewrite lookup_delete_ne by done. split; [intros ?; split; [congruence|done] | by intros [_ ?]].
Qed.

Lemma registry_ok_SetHealthy (r : Router) (name : string) (b : bool) :
  registry_ok r -> registry_ok (SetHealthy r name b).
Proof. intros Hok n. exact (Hok n). Qed.

(** Selection changes nothing but the round-robin cursor. *)
Lemma selectProvider_frame (r r1 : Router) (rnd : Z) (req : CompletionRequest)
  (p : option Provider) :
  selectProvider r rnd req = Ok (p, r1) -> exists i, r1 = setRRIndex r i.
Proof.
  assert (r = setRRIndex r (rrIndex r)) as Hsame by by destruct r.
  assert (forall o : outcome (option Provider),
            match o with Ok p => Ok (p, r) | Err err => Err err | Panic => Panic end
            = Ok (p, r1) -> exists i, r1 = setRRIndex r i) as Hkeep.
  { intros [p'|err|] Heq; try done. injection Heq as _ <-. by exists (rrIndex r). }
  assert (forall available, roundRobinSelect r available = Ok (p, r1) ->
            exists i, r1 = setRRIndex r i) as Hrr.
  { intros available. unfold roundRobinSelect.
    destruct (len available =? 0); [done|].
    destruct (index available _); [|done].
    intros Heq. injection Heq as _ <-. by eexists. }
  unfold selectProvider.
  set (byStrategy := if len (getHealthyProviders r) =? 0 then _ else _).
  assert (byStrategy = Ok (p, r1) -> exists i, r1 = setRRIndex r i) as Hby.
  { subst byStrategy. destruct (len (getHealthyProviders r) =? 0); [done|].
    repeat (match goal with |- context [if String.eqb ?a ?b then _ else _] =>
                              destruct (String.eqb a b) end); eauto. }
  destruct (len (providerList r) =? 0); [done|].
  destruct (negb (String.eqb (reqModel req) "")); [|done].
  destruct (modelMap r !! reqModel req) as [provName|]; [|done].
  destruct (providers r !! provName) as [provider|]; [|done].
  destruct (negb (healthCheck r) || isHealthy r provName); [|done].
  intros Heq. injection Heq as _ <-. by exists (rrIndex r).
Qed.

Lemma selectProvider_registry_ok (r r1 : Router) (rnd : Z) (req : CompletionRequest)
  (p : option Provider) :
  selectProvider r rnd req = Ok (p, r1) -> registry_ok r -> registry_ok r1.
Proof. intros [i ->]%selectProvider_frame Hok n. exact (Hok n). Qed.

(** C2. When the request names a model that [modelMap] binds to a registered
    provider, and that provider is healthy or health checks are off,
    selection returns that provider and leaves the router as it is, whatever
    the strategy. *)
Theorem C2_model_match_precedence (r : Router) (rnd : Z) (req : CompletionRequest)
  (provName : string) (P : Provider) :
  registry_ok r ->
  reqModel req <> ""%string ->
  modelMap r !! reqModel req = Some provName ->
  providers r !! provName = Some P ->
  healthCheck r = false \/ isHealthy r provName = true ->
  selectProvider r rnd req = Ok (Some P, r).
Proof.
  intros Hok Hmodel Hmap Hprov Hhealthy. unfold selectProvider.
  assert (provName ∈ providerList r) as Hin by (apply Hok; by eexists).
  destruct (Z.eqb_spec (len (providerList r)) 0) as [Hempty|_].
  { destruct (providerList r); [by apply elem_of_nil in Hin | discriminate Hempty]. }
  destruct (String.eqb_spec (reqModel req) "") as [?|_]; [done|].
  cbn [negb]. rewrite Hmap, Hprov.
  destruct Hhealthy as [-> | ->]; [done|]. by rewrite orb_true_r.
Qed.

End Registry.

(** *** Concrete registries *)

Definition model (id : string) (input output : float64) (features : list string)
  : llm.ModelInfo :=
  {| llm.ID := id; llm.Name := id; llm.Description := ""; llm.MaxTokens := 128000;
     llm.InputCost := input; llm.OutputCost := output; llm.Features := features |}.
Arguments model id%_string (input output)%_f64 features%_list.

Definition reply (content : string) : llm.CompletionResponse :=
  {| llm.respID := "r"; llm.respModel := ""; llm.respContent := content;
     llm.respUsage := {| llm.PromptTokens := 0; llm.CompletionTokens := 0;
                         llm.TotalTokens := 0 |} |}.

(** A provider that always answers, one that always fails, and one that
    fails its first call and answers from then on. *)
Definition steady (id : nat) (name : string) (models : list llm.ModelInfo) : llm.Provider :=
  {| llm.self := id; llm.pName := name;
     llm.pComplete := fun _ _ => Ok (reply name);
     llm.pStream := fun _ _ => Ok [name];
     llm.Models := models;
     llm.CountTokens := fun _ => Ok 1 |}.

Definition broken (id : nat) (name : string) (models : list llm.ModelInfo) : llm.Provider :=
  {| llm.self := id; llm.pName := name;
     llm.pComplete := fun _ _ => Err "boom"%string;
     llm.pStream := fun _ _ => Err "boom"%string;
     llm.Models := models;
     llm.CountTokens := fun _ => Ok 1 |}.

Definition flaky (id : nat) (name : string) (models : list llm.ModelInfo) : llm.Provider :=
  {| llm.self := id; llm.pName := name;
     llm.pComplete := fun log _ =>
       match log with [] => Err "boom"%string | _ => Ok (reply name) end;
     llm.pStream := fun log _ =>
       match log with [] => Err "boom"%string | _ => Ok [name] end;
     llm.Models := models;
     llm.CountTokens := fun _ => Ok 1 |}.

Definition ask (model : string) : llm.CompletionRequest :=
  {| llm.reqModel := model;
     llm.reqMessages := [{| llm.msgRole := "user"; llm.msgContent := "hello" |}];
     llm.reqMaxTokens := 0 |}.

(** The registry of the specification's scenario S1. *)
Definition openai : llm.Provider := steady 1 "openai" [model "gpt-4o" 2.5 10 []].
Definition deepseek : llm.Provider := steady 2 "deepseek" [model "deepseek-chat" 0.14 0.28 []].

Definition routerS1 : router.Router :=
  router.Register
    (router.Register (router.New [router.WithStrategy router.StrategyLeastCost])
       "openai" openai)
    "deepseek" deepseek.

Example leastCost_S1 :
  router.selectProvider routerS1 0 (ask "") = Ok (Some deepseek, routerS1).
Proof. vm_compute. reflexivity. Qed.

(** Provider [a] offers a model at 1 + 1 and one at 10 + 10; provider [b]
    offers one model at 5 + 5. *)
Definition providerA : llm.Provider :=
  steady 1 "a" [model "cheap" 1 1 []; model "pricey" 10 10 []].
Definition providerB : llm.Provider := steady 2 "b" [model "mid" 5 5 []].

Definition routerAB : router.Router :=
  router.Register
    (router.Register (router.New [router.WithStrategy router.StrategyLeastCost]) "a" providerA)
    "b" providerB.

(** C1 (the code at the failing input). Under [least_cost], with no model
    requested, the router selects [b], whose only model costs 10, although
    [a] offers a model that costs 2: within the first provider every model
    overwrites the running minimum, so the minimum carried on is the cost of
    its last model, 20. *)
Lemma C1_leastCost_skips_cheapest :
  router.selectProvider routerAB 0 (ask "") = Ok (Some providerB, routerAB)
  /\ router.costLoop routerAB "" 0 ["a"%string] (0%f64, ""%string)
     = Some (20%f64, "a"%string)
  /\ Forall
       (fun m => (llm.InputCost (model "cheap" 1 1 []) + llm.OutputCost (model "cheap" 1 1 [])
                  <? llm.InputCost m + llm.OutputCost m)%f64 = true)
       (llm.Models providerB).
Proof.
  split; [vm_compute; reflexivity|].
  split; [vm_compute; reflexivity|].
  repeat constructor.
Qed.

Lemma C2_witness :
  registry_ok routerAB
  /\ router.selectProvider routerAB 0 (ask "cheap") = Ok (Some providerA, routerAB).
Proof.
  assert (registry_ok routerAB) as Hok.
  { do 2 apply registry_ok_Register. apply registry_ok_New. }
  split; [exact Hok|].
  apply (C2_model_match_precedence routerAB 0 (ask "cheap") "a" providerA Hok).
  - discriminate.
  - vm_compute. reflexivity.
  - vm_compute. reflexivity.
  - left. reflexivity.
Defined.

(** ** The base router: the retry through the fallback *)

Definition completeCall (p : llm.Provider) (req : llm.CompletionRequest) : llm.Call :=
  {| llm.callee := llm.self p; llm.method := llm.CallComplete; llm.request := req |}.

Definition streamCall (p : llm.Provider) (req : llm.CompletionRequest) : llm.Call :=
  {| llm.callee := llm.self p; llm.method := llm.CallStream; llm.request := req |}.

(** The claim as stated, for [Complete]: after the chosen provider [p]
    returned [err], the fallback is called once when it is set and is not
    [p]; otherwise [err] is returned and no other call is made. *)
Definition retries_as_claimed (r : router.Router) (o : router.Oracle)
  (req : llm.CompletionRequest) (log : list llm.Call) : Prop :=
  forall p r1 err,
    router.selectProvider r (router.rnd o) req = Ok (Some p, r1) ->
    llm.pComplete p log req = Err err ->
    let differs :=
      router.fallback r <> ""%string
      /\ (forall fb, router.providers r !! router.fallback r = Some fb ->
                     llm.self fb <> llm.self p) in
    (differs ->
     exists fb,
       router.providers r !! router.fallback r = Some fb
       /\ (router.Complete r o req log).1.1 = llm.pComplete fb (log ++ [completeCall p req]) req
       /\ (router.Complete r o req log).2 = log ++ [completeCall p req; completeCall fb req])
    /\ (~ differs ->
        (router.Complete r o req log).1.1 = Err err
        /\ (router.Complete r o req log).2 = log ++ [completeCall p req]).

Section Fallback.
Import llm router.

Lemma fallbackProvider_spec (r : Router) (fb : Provider) :
  fallbackProvider r = Some fb <->
  fallback r <> ""%string /\ providers r !! fallback r = Some fb.
Proof.
  unfold fallbackProvider.
  destruct (String.eqb_spec (fallback r) "") as [Hempty|Hset]; simpl.
  - split; [done | by intros [? _]].
  - split; [done | by intros [_ ?]].
Qed.

Lemma fallbackProvider_frame (r : Router) (i : Z) (name : string) (d : Duration) :
  fallbackProvider (recordLatency (setRRIndex r i) name d) = fallbackProvider r.
Proof. unfold recordLatency. by destruct (latencies (setRRIndex r i) !! name). Qed.

(** C5 (amended). When the provider that was selected returns an error,
    [Complete] and [Stream] call the fallback provider once, and return what
    it returns, exactly when [fallback] is set and names a registered
    provider (which may be the provider that just failed); otherwise they
    return the provider's error as it is, after that one call. *)
Theorem C5_fallback_retry (r r1 : Router) (o : Oracle) (req : CompletionRequest)
  (log : list Call) (p : Provider) :
  selectProvider r (rnd o) req = Ok (Some p, r1) ->
  (forall fb, fallbackProvider r = Some fb <->
              fallback r <> ""%string /\ providers r !! fallback r = Some fb)
  /\ (forall err, pComplete p log req = Err err ->
      match fallbackProvider r with
      | Some fb =>
          (Complete r o req log).1.1 = pComplete fb (log ++ [completeCall p req]) req
          /\ (Complete r o req log).2 = log ++ [completeCall p req; completeCall fb req]
      | None =>
          (Complete r o req log).1.1 = Err err
          /\ (Complete r o req log).2 = log ++ [completeCall p req]
      end)
  /\ (forall err, pStream p log req = Err err ->
      match fallbackProvider r with
      | Some fb =>
          (Stream r o req log).1.1 = pStream fb (log ++ [streamCall p req]) req
          /\ (Stream r o req log).2 = log ++ [streamCall p req; streamCall fb req]
      | None =>
          (Stream r o req log).1.1 = Err err
          /\ (Stream r o req log).2 = log ++ [streamCall p req]
      end).
Proof.
  intros Hsel. split; [apply fallbackProvider_spec|].
  destruct (selectProvider_frame _ _ _ _ _ Hsel) as [i ->].
  split; intros err Herr.
  - unfold Complete. rewrite Hsel. unfold llm.Complete. rewrite Herr.
    rewrite fallbackProvider_frame.
    destruct (fallbackProvider r) as [fb|]; simpl; [|done].
    by rewrite <- app_assoc.
  - unfold Stream. rewrite Hsel. unfold llm.doStream. rewrite Herr.
    replace (fallbackProvider (setRRIndex r i)) with (fallbackProvider r) by done.
    destruct (fallbackProvider r) as [fb|]; simpl; [|done].
    by rewrite <- app_assoc.
Qed.

End Fallback.

(** *** Concrete runs of the retry *)

Definition oracle0 : router.Oracle :=
  {| router.rnd := 0; router.elapsed := 1000; router.visit := ["a"; "b"]%string |}.

(** One provider that fails its first call and is also the fallback. *)
Definition routerSelfFallback : router.Router :=
  router.Register (router.New [router.WithFallback "a"]) "a" (flaky 1 "a" [model "m" 1 1 []]).

(** A failing provider [a] with the registered fallback [b]. *)
Definition routerWithFallback : router.Router :=
  router.Register
    (router.Register (router.New [router.WithFallback "b"]) "a" (broken 1 "a" [model "m" 1 1 []]))
    "b" (steady 2 "b" [model "n" 1 1 []]).

(** The claim fails when the fallback is the provider that was chosen: the
    router calls it a second time and returns the second answer. *)
Lemma C5_counterexample : ~ retries_as_claimed routerSelfFallback oracle0 (ask "") [].
Proof.
  intros Hclaim.
  destruct (Hclaim (flaky 1 "a" [model "m" 1 1 []])
              (router.setRRIndex routerSelfFallback 1) "boom"%string) as [_ Hsame].
  - vm_compute. reflexivity.
  - reflexivity.
  - destruct Hsame as [Hresp _].
    + intros [_ Hdiff]. apply (Hdiff (flaky 1 "a" [model "m" 1 1 []])); [|reflexivity].
      vm_compute. reflexivity.
    + vm_compute in Hresp. discriminate.
Qed.

Lemma C5_witness :
  router.selectProvider routerWithFallback (router.rnd oracle0) (ask "")
    = Ok (Some (broken 1 "a" [model "m" 1 1 []]), router.setRRIndex routerWithFallback 1)
  /\ (router.Complete routerWithFallback oracle0 (ask "") []).1.1 = Ok (reply "b")
  /\ (router.Complete routerWithFallback oracle0 (ask "") []).2
     = [completeCall (broken 1 "a" [model "m" 1 1 []]) (ask "");
        completeCall (steady 2 "b" [model "n" 1 1 []]) (ask "")].
Proof.
  assert (router.selectProvider routerWithFallback (router.rnd oracle0) (ask "")
          = Ok (Some (broken 1 "a" [model "m" 1 1 []]), router.setRRIndex routerWithFallback 1))
    as Hsel by (vm_compute; reflexivity).
  split; [exact Hsel|].
  destruct (C5_fallback_retry _ _ oracle0 (ask "") [] _ Hsel) as (_ & Hcomplete & _).
  specialize (Hcomplete "boom"%string eq_refl).
  exact Hcomplete.
Defined.


(** ** The smart router: the cost axis *)

(** The input tokens that [estimateCost] counts, as the plain sum, and its
    output tokens. *)
Definition inputTokens (req : llm.CompletionRequest) : Z :=
  foldr (fun msg total => Z.of_nat (String.length (llm.msgContent msg)) / 4 + total)
    0 (llm.reqMessages req).

Definition outputTokens (req : llm.CompletionRequest) : Z :=
  if llm.reqMaxTokens req =? 0 then 500 else llm.reqMaxTokens req.

(** [x] raised to at least [floor]. *)
Definition atLeast (floor x : float64) : float64 :=
  if (x <? floor)%f64 then floor else x.
Arguments atLeast (floor x)%_f64.

(** The claim as stated: zero when the estimate exceeds
    [max_cost_per_request], else [1 - cost / 0.1] raised to at least 0.1. *)
Definition costScore_as_claimed (c : smart.candidate) (ctx : smart.RoutingContext)
  (req : llm.CompletionRequest) : Prop :=
  let cost := smart.estimateCost c req in
  let limit := smart.MaxCostPerRequest (smart.Constraints ctx) in
  ((cost >? limit)%f64 = true -> smart.calculateCostScore c (Some ctx) req = 0%f64)
  /\ ((cost >? limit)%f64 = false ->
      smart.calculateCostScore c (Some ctx) req = atLeast 0.1 (1 - cost / 0.1)%f64).

Section Cost_axis.
Import llm router smart.

Lemma inputTokens_fold (msgs : list Message) (acc : Z) :
  0 <= acc ->
  acc + foldr (fun msg total => Z.of_nat (String.length (msgContent msg)) / 4 + total) 0 msgs
    < 2 ^ 63 ->
  fold_left
    (fun inputTokens msg =>
       wrap64 (inputTokens + Z.quot (Z.of_nat (String.length (msgContent msg))) 4))
    msgs acc
  = acc + foldr (fun msg total => Z.of_nat (String.length (msgContent msg)) / 4 + total) 0 msgs.
Proof.
  revert acc. induction msgs as [|msg msgs IH]; intros acc Hacc Hsum; simpl in *; [lia|].
  assert (0 <= foldr (fun msg total => Z.of_nat (String.length (msgContent msg)) / 4 + total)
                 0 msgs) as Hrest.
  { clear. induction msgs as [|m ms IH]; simpl; [lia|].
    pose proof (Z.div_pos (Z.of_nat (String.length (msgContent m))) 4). lia. }
  pose proof (Z.div_pos (Z.of_nat (String.length (msgContent msg))) 4 ltac:(lia) ltac:(lia)).
  rewrite Z.quot_div_nonneg by lia.
  rewrite wrap64_small by lia.
  rewrite IH by lia. lia.
Qed.

(** [estimateCost] prices the input and the output tokens separately, each
    product divided by a million before the two are added. *)
Lemma estimateCost_formula (c : candidate) (req : CompletionRequest) :
  inputTokens req < 2 ^ 63 ->
  estimateCost c req
  = (f64.of_int (inputTokens req) * InputCost (modelInfo c) / 1000000
     + f64.of_int (outputTokens req) * OutputCost (modelInfo c) / 1000000)%f64.
Proof.
  intros Hfit. unfold estimateCost, inputTokens, outputTokens in *.
  rewrite inputTokens_fold by lia. by rewrite Z.add_0_l.
Qed.

(** The budget test of [calculateCostScore]. *)
Definition overBudget (c : candidate) (ctx : option RoutingContext)
  (req : CompletionRequest) : Prop :=
  exists ctx', ctx = Some ctx'
    /\ (MaxCostPerRequest (Constraints ctx') >? 0)%f64 = true
    /\ (estimateCost c req >? MaxCostPerRequest (Constraints ctx'))%f64 = true.


End Cost_axis.

(** *** Concrete runs of the cost axis *)

Definition candidateOf (name : string) (m : llm.ModelInfo) : smart.candidate :=
  {| smart.provider := steady 1 name [m]; smart.providerName := name;
     smart.modelID := llm.ID m; smart.modelInfo := m; smart.profile := None |}.

(** A context with the given [max_cost_per_request] and nothing else set. *)
Definition budget (limit : float64) : smart.RoutingContext :=
  {| smart.TaskType_ := "chat"; smart.Complexity := "simple";
     smart.RequiredCapabilities := [];
     smart.Constraints :=
       {| smart.MaxLatencyMs := 0; smart.MaxCostPerRequest := limit;
          smart.MaxInputTokens := 0;
          smart.PreferredProviders := []; smart.ExcludedProviders := [];
          smart.PreferredModels := []; smart.ExcludedModels := [];
          smart.RequireStreaming := false; smart.RequireVision := false;
          smart.RequireFunctionCalling := false; smart.RequireJSONMode := false |};
     smart.Priority := smart.PriorityBalanced |}.
Arguments budget limit%_f64.

(** A request with one message of 16 bytes (4 input tokens) and a limit of
    9999 output tokens. *)
Definition longAnswer : llm.CompletionRequest :=
  {| llm.reqModel := "";
     llm.reqMessages := [{| llm.msgRole := "user"; llm.msgContent := "0123456789abcdef" |}];
     llm.reqMaxTokens := 9999 |}.

(** 500 output tokens at 10 per million cost 0.005; at 190 per million,
    0.095. Four input tokens at 2.5 and 9999 output tokens at 10 per million
    cost 0.00001 + 0.09999, which float64 addition rounds to the number just
    below 0.1, so that the score is [1 - cost / 0.1], about 1.1e-16. *)
Example estimate_500_tokens :
  smart.estimateCost (candidateOf "p" (model "m" 0 10 [])) (ask "") = 0.005%f64
  /\ smart.estimateCost (candidateOf "p" (model "m" 0 190 [])) (ask "") = 0.095%f64
  /\ smart.estimateCost (candidateOf "p" (model "m" 2.5 10 [])) longAnswer
     = S754_finite false 7205759403792793 (-56)
  /\ (smart.estimateCost (candidateOf "p" (model "m" 2.5 10 [])) longAnswer <? 0.1)%f64 = true
  /\ smart.calculateCostScore (candidateOf "p" (model "m" 2.5 10 [])) None longAnswer
     = S754_finite false 4503599627370496 (-105).
Proof. repeat split; vm_compute; reflexivity. Qed.




(** ** The contract of [sort.Slice] *)

(** [less] is a strict weak ordering of the elements of [s], as [sort.Slice]
    requires of the function it is given. *)
Definition strict_weak_on {A : Type} (s : list A) (less : A -> A -> bool) : Prop :=
  (forall a, a ∈ s -> less a a = false)
  /\ (forall a b c, a ∈ s -> b ∈ s -> c ∈ s ->
        less a b = true -> less b c = true -> less a c = true)
  /\ (forall a b c, a ∈ s -> b ∈ s -> c ∈ s ->
        less a b = false -> less b c = false -> less a c = false).

(** [less] is a strict weak ordering of all values. *)
Definition strict_weak {A : Type} (less : A -> A -> bool) : Prop :=
  (forall a, less a a = false)
  /\ (forall a b c, less a b = true -> less b c = true -> less a c = true)
  /\ (forall a b c, less a b = false -> less b c = false -> less a c = false).

Lemma strict_weak_everywhere {A : Type} (less : A -> A -> bool) (s : list A) :
  strict_weak less -> strict_weak_on s less.
Proof.
  intros (Hirr & Htrans & Hneg). split; [|split].
  - intros a _. apply Hirr.
  - intros a b c _ _ _. apply Htrans.
  - intros a b c _ _ _. apply Hneg.
Qed.

(** What [sort.Slice] promises: the same elements, and no element [less]
    than one that stands before it. *)
Class GoStdLaws `{GoStd} : Prop := {
  sort_Slice_permutation :
    forall (A : Type) (less : A -> A -> bool) (s : list A),
      Permutation (sort_Slice less s) s;
  sort_Slice_sorted :
    forall (A : Type) (less : A -> A -> bool) (s : list A),
      strict_weak_on s less ->
      StronglySorted (fun a b => less b a = false) (sort_Slice less s)
}.

Section Insertion_sort.
Context {A : Type} (less : A -> A -> bool).

Lemma insertBack_permutation (x : A) (sorted : list A) :
  Permutation (insertBack less x sorted) (x :: sorted).
Proof.
  induction sorted as [|y ys IH]; simpl; [done|].
  destruct (less x y); [|done].
  rewrite IH. apply perm_swap.
Qed.

Lemma insertionSort_permutation (s : list A) : Permutation (insertionSort less s) s.
Proof.
  unfold insertionSort. rewrite <- Permutation_rev.
  assert (forall acc, Permutation (fold_left (fun sorted x => insertBack less x sorted) s acc)
                        (s ++ acc)) as Hfold.
  { induction s as [|x s IH]; intros acc; simpl; [done|].
    rewrite IH, insertBack_permutation. by rewrite Permutation_middle. }
  rewrite Hfold. by rewrite app_nil_r.
Qed.

Context (elements : list A).
Hypothesis Hless : strict_weak_on elements less.

Lemma less_asym (a b : A) :
  a ∈ elements -> b ∈ elements -> less a b = true -> less b a = false.
Proof.
  destruct Hless as (Hirr & Htrans & _). intros Ha Hb Hab.
  destruct (less b a) eqn:Hba; [|done].
  pose proof (Htrans a b a Ha Hb Ha Hab Hba) as Haa. by rewrite Hirr in Haa.
Qed.

(** The sorted prefix, last element first: no element is [less] than one
    that follows it in the list. *)
Lemma insertBack_sorted (x : A) (sorted : list A) :
  x ∈ elements -> sorted ⊆ elements ->
  StronglySorted (fun a b => less a b = false) sorted ->
  StronglySorted (fun a b => less a b = false) (insertBack less x sorted).
Proof.
  destruct Hless as (Hirr & Htrans & Hneg). intros Hx.
  induction sorted as [|y ys IH]; intros Hsub Hsorted; simpl.
  - repeat constructor.
  - apply StronglySorted_inv in Hsorted as [Hys Hy].
    assert (y ∈ elements) as Hyin by (apply Hsub; by left).
    assert (ys ⊆ elements) as Hyssub by (intros z Hz; apply Hsub; by right).
    destruct (less x y) eqn:Hxy.
    + constructor; [by apply IH|].
      rewrite (insertBack_permutation x ys). constructor; [by apply less_asym | done].
    + constructor; [by constructor|].
      constructor; [done|].
      rewrite Forall_forall in Hy |- *. intros z Hz.
      assert (z ∈ ys) as Hzin by (first [exact Hz | by apply list_elem_of_In]).
      apply (Hneg x y z Hx Hyin); [by apply Hyssub | done |].
      by apply Hy.
Qed.

Lemma StronglySorted_snoc (R : A -> A -> Prop) (l : list A) (a : A) :
  StronglySorted R l -> Forall (fun x => R x a) l -> StronglySorted R (l ++ [a]).
Proof.
  induction 1 as [|b l Hl IH Hb]; intros Ha; simpl.
  - repeat constructor.
  - apply Forall_cons in Ha as [Hba Hla].
    constructor; [by apply IH|].
    rewrite Forall_app. split; [done | by repeat constructor].
Qed.

Lemma StronglySorted_rev (R : A -> A -> Prop) (l : list A) :
  StronglySorted R l -> StronglySorted (fun a b => R b a) (rev l).
Proof.
  induction 1 as [|a l Hl IH Ha]; simpl; [constructor|].
  apply StronglySorted_snoc; [done|].
  by apply List.Forall_rev.
Qed.

Lemma insertionSort_sorted (s : list A) :
  s ⊆ elements ->
  StronglySorted (fun a b => less b a = false) (insertionSort less s).
Proof.
  intros Hs. unfold insertionSort.
  apply (StronglySorted_rev (fun a b => less a b = false)).
  assert (forall acc, acc ⊆ elements ->
            StronglySorted (fun a b => less a b = false) acc ->
            StronglySorted (fun a b => less a b = false)
              (fold_left (fun sorted x => insertBack less x sorted) s acc)) as Hfold.
  { revert Hs. induction s as [|x s IH]; intros Hs acc Hsub Hacc; simpl; [done|].
    assert (x ∈ elements) as Hx by (apply Hs; by left).
    apply IH.
    - intros z Hz. apply Hs. by right.
    - intros z Hz. apply list_elem_of_In in Hz.
      apply (Permutation_in _ (insertBack_permutation x acc)) in Hz.
      apply list_elem_of_In in Hz. apply elem_of_cons in Hz as [->|Hz]; [done | by apply Hsub].
    - by apply insertBack_sorted. }
  apply Hfold; [by intros z Hz%elem_of_nil | constructor].
Qed.

End Insertion_sort.

#[global] Instance goStd_laws : @GoStdLaws goStd.
Proof.
  split.
  - intros A less s. apply insertionSort_permutation.
  - intros A less s Hless. by apply (insertionSort_sorted less s Hless).
Qed.

(** ** The smart router: ranking *)

(** [visit] is an order in which a [range] over the router's [providers]
    can visit the names: each bound name once. *)
Definition enumerates (visit : list string) (r : router.Router) : Prop :=
  NoDup visit /\ forall name, name ∈ visit <-> is_Some (router.providers r !! name).

(** The claim as stated: whatever order the map is visited in, [Route]
    returns the same decision with the same alternatives. *)
Definition route_as_claimed `{GoStd} (r : smart.SmartRouter) (req : llm.CompletionRequest)
  (routingCtx : option smart.RoutingContext) : Prop :=
  forall visit1 visit2 now,
    enumerates visit1 (smart.base r) -> enumerates visit2 (smart.base r) ->
    smart.Route r visit1 now req routingCtx = smart.Route r visit2 now req routingCtx.

Section Ranking.
Import llm router smart.
Context `{GoStdLaws}.

(** [byTotal] is a strict weak ordering of candidates whose totals are
    numbers: a NaN compares false with everything, itself included. *)
Lemma byTotal_strict_weak (l : list scoredCandidate) :
  Forall (fun c => f64.is_nan (Total (score c)) = false) l -> strict_weak_on l byTotal.
Proof.
  rewrite Forall_forall. intros Hnum. unfold byTotal. split; [|split].
  - intros a _. apply ltb_irrefl.
  - intros a b c _ _ _ Hab Hbc. by apply (ltb_trans _ (Total (score b))).
  - intros a b c Ha Hb Hc Hab Hbc.
    apply (ltb_negative_trans _ (Total (score b))); try done; by apply Hnum.
Qed.

(** The candidates sorted by [Route]: the same candidates, and totals not
    increasing when all of them are numbers. *)
Lemma sorted_scores (l : list scoredCandidate) :
  Permutation (sort_Slice byTotal l) l
  /\ (Forall (fun c => f64.is_nan (Total (score c)) = false) l ->
      StronglySorted (fun a b => (Total (score a) >=? Total (score b))%f64 = true)
        (sort_Slice byTotal l)).
Proof.
  split; [apply sort_Slice_permutation|]. intros Hnum.
  pose proof (sort_Slice_sorted _ byTotal l (byTotal_strict_weak l Hnum)) as Hsorted.
  assert (Forall (fun c => f64.is_nan (Total (score c)) = false) (sort_Slice byTotal l))
    as Hnum' by by rewrite sort_Slice_permutation.
  induction Hsorted as [|a s Hs IH Ha]; constructor.
  - apply IH. by apply Forall_cons in Hnum' as [_ ?].
  - apply Forall_cons in Hnum' as [Hna Hns].
    rewrite Forall_forall in Ha, Hns |- *. intros b Hb.
    rewrite leb_ltb by (try done; by apply Hns). unfold byTotal in Ha.
    by rewrite (Ha b Hb).
Qed.


(** Every candidate passed the capability filter. *)
Lemma getCandidates_meets (r : SmartRouter) (visit : list string)
  (ctx : option RoutingContext) (c : candidate) :
  c ∈ getCandidates r visit ctx -> meetsCapabilityRequirements (modelInfo c) ctx = true.
Proof.
  unfold getCandidates. rewrite list_elem_of_In, in_flat_map.
  intros (name & _ & Hin). destruct (providers (base r) !! name) as [p|]; [|done].
  unfold candidatesOf in Hin.
  destruct (isProviderExcluded name ctx); [done|].
  destruct (healthCheck (base r) && negb (isHealthy (base r) name)); [done|].
  apply list_elem_of_In, list_elem_of_omap in Hin as (model & _ & Hsome).
  destruct (isModelExcluded (ID model) ctx); [done|].
  destruct (meetsCapabilityRequirements model ctx) eqn:Hmeets; [|done].
  injection Hsome as <-. done.
Qed.

(** X15. With a routing context given, the model that [StreamWithRouting]
    decides on advertises streaming. *)
Lemma StreamWithRouting_streams (r : SmartRouter) (visit : list string) (now : Z)
  (req : CompletionRequest) (ctx : RoutingContext) (log : list Call) (d : RoutingDecision) :
  (StreamWithRouting r visit now req (Some ctx) log).1.1.2 = Some d ->
  HasFeature (dModelInfo d) FeatureStreaming = true.
Proof.
  unfold StreamWithRouting. cbn [fmap option_fmap option_map].
  pose proof (Hscored := sorted_scores
    (scoreAll r visit req (effectiveContext r req (Some (requireStreaming ctx))))).
  unfold Route.
  destruct (len (getCandidates r visit _) =? 0); [done|].
  destruct Hscored as [Hperm _].
  destruct (sort_Slice byTotal _) as [|best rest]; [done|].
  assert (best ∈ scoreAll r visit req (Some (requireStreaming ctx))) as Hin.
  { apply list_elem_of_In. eapply Permutation_in; [exact Hperm | by left]. }
  unfold scoreAll in Hin. apply list_elem_of_fmap in Hin as (c & -> & Hc).
  apply getCandidates_meets in Hc.
  intros Hd.
  assert (d = buildDecision r now req (Some (requireStreaming ctx))
                {| scCandidate := c;
                   score := calculateScore r c (Some (requireStreaming ctx)) req |} rest) as ->.
  { destruct (doStream _ _ log) as [[stream|err|] log']; simpl in Hd; congruence. }
  cbn [dModelInfo buildDecision scCandidate].
  unfold meetsCapabilityRequirements in Hc. cbn [requireStreaming Constraints RequireStreaming] in Hc.
  destruct (negb (forallb _ _)); [done|].
  destruct (RequireVision _ && _); [done|].
  destruct (RequireFunctionCalling _ && _); [done|].
  cbn [andb] in Hc.
  destruct (HasFeature (modelInfo c) FeatureStreaming); [done|]. done.
Qed.

End Ranking.

(** *** Concrete runs of the smart router *)

(** A registry whose names were registered once each is visited in any
    order of [providerList]. *)
Lemma enumerates_registered (visit : list string) (r : router.Router) :
  registry_ok r -> NoDup visit -> Permutation visit (router.providerList r) ->
  enumerates visit r.
Proof.
  intros Hok Hnodup Hperm. split; [done|]. intros name.
  rewrite (Hok name). by rewrite Hperm.
Qed.

(** Two providers registered as [a] then [b], each with one model of the
    same price and features; no profiles, no classifier. *)
Definition twins : smart.SmartRouter :=
  {| smart.base :=
       router.Register
         (router.Register (router.New []) "a" (steady 1 "a" [model "ma" 1 1 ["streaming"%string]]))
         "b" (steady 2 "b" [model "mb" 1 1 ["streaming"%string]]);
     smart.classifier := None;
     smart.modelProfiles := ∅;
     smart.maxHistorySize := 1000;
     smart.autoClassify := false |}.

Lemma twins_enumerated (visit : list string) :
  NoDup visit -> Permutation visit ["a"; "b"]%string -> enumerates visit (smart.base twins).
Proof.
  intros Hnodup Hperm. apply enumerates_registered; [|done|done].
  do 2 apply registry_ok_Register. apply registry_ok_New.
Qed.

(** The provider that a routing outcome selects. *)
Definition selected (o : outcome smart.RoutingDecision) : option string :=
  match o with
  | Ok d => Some (smart.dProviderName d)
  | _ => None
  end.

(** The two candidates have the same total score, and the decision follows
    the order in which the map is visited: [a] first gives [a], [b] first
    gives [b], although [a] was registered first. *)
Example twins_follow_visit_order :
  router.providerList (smart.base twins) = ["a"; "b"]%string
  /\ map (fun c => smart.Total (smart.score c)) (smart.scoreAll twins ["a"; "b"]%string (ask "") None)
     = map (fun c => smart.Total (smart.score c)) (smart.scoreAll twins ["b"; "a"]%string (ask "") None)
  /\ selected (smart.Route twins ["a"; "b"]%string 0 (ask "") None) = Some "a"%string
  /\ selected (smart.Route twins ["b"; "a"]%string 0 (ask "") None) = Some "b"%string.
Proof. repeat split; vm_compute; reflexivity. Qed.


(** Provider [a] offers a model at 2.5 and 10 per million, provider [b]
    one at 0 and 9.5. For a request of 4 input tokens and 9999 output tokens
    the estimate of [a] is the float64 just below 0.1, so that its cost
    score is about 1.1e-16 and not the 0.1 of an estimate of 0.1: [Route]
    decides for [b] in either order of the visit. *)
Definition duo : smart.SmartRouter :=
  {| smart.base :=
       router.Register
         (router.Register (router.New []) "a" (steady 1 "a" [model "ma" 2.5 10 []]))
         "b" (steady 2 "b" [model "mb" 0 9.5 []]);
     smart.classifier := None;
     smart.modelProfiles := ∅;
     smart.maxHistorySize := 1000;
     smart.autoClassify := false |}.

Example duo_decides_by_rounded_cost :
  selected (smart.Route duo ["a"; "b"]%string 0 longAnswer None) = Some "b"%string
  /\ selected (smart.Route duo ["b"; "a"]%string 0 longAnswer None) = Some "b"%string
  /\ map (fun c => (smart.Total (smart.score c) <? 0.48)%f64)
       (smart.scoreAll duo ["a"; "b"]%string longAnswer None)
     = [true; false].
Proof. repeat split; vm_compute; reflexivity. Qed.


(** ** The smart router: streaming without a routing context *)

(** One provider whose only model does not advertise streaming; the
    classifier answers (chat, simple). *)
Definition streamless : smart.SmartRouter :=
  {| smart.base := router.Register (router.New []) "a" (steady 1 "a" [model "plain" 1 1 []]);
     smart.classifier := Some (fun _ => ("chat"%string, "simple"%string));
     smart.modelProfiles := ∅;
     smart.maxHistorySize := 1000;
     smart.autoClassify := true |}.

(** C6 (the code at the failing input). Without a routing context,
    [StreamWithRouting] decides on the model [plain], which does not
    advertise streaming, and sends it the stream request; with a context
    given, the same request finds no candidate. *)
Lemma C6_stream_without_context_skips_requirement :
  let run := smart.StreamWithRouting streamless ["a"%string] 0 (ask "") None [] in
  smart.dModelID <$> run.1.1.2 = Some "plain"%string
  /\ (fun d => llm.HasFeature (smart.dModelInfo d) llm.FeatureStreaming) <$> run.1.1.2
     = Some false
  /\ map (fun c => llm.reqModel (llm.request c)) run.2 = ["plain"%string]
  /\ (smart.StreamWithRouting streamless ["a"%string] 0 (ask "") (Some (budget 0)) []).1.1.2
     = None.
Proof. repeat split; vm_compute; reflexivity. Qed.


(** ** Multi-layer search *)

(** What a caller sees of a found entry: its fields, and the content of its
    metadata map without the [_layer] tag. *)
Definition view (h : memory.Heap) (e : memory.Entry) : memory.Entry * gmap string any :=
  (memory.setMetadata e None, delete "_layer"%string (memory.deref h (memory.Metadata e))).

(** The entries that [SearchLayer] returns for a layer, as the caller sees
    them; nothing when the layer is absent or its search fails. *)
Definition layerViews `{GoStd} (m : MultiLayer.MultiLayerMemory) (h : memory.Heap)
  (keys : memory.Entry -> list string) (layer : MultiLayer.MemoryLayer)
  (query : memory.SearchQuery) (ord : list string)
  : list (memory.Entry * gmap string any) :=
  match MultiLayer.SearchLayer m h keys layer query ord with
  | Ok (found, h') => map (view h') found
  | _ => []
  end.

(** The query has text or an embedding. *)
Definition hasTextOrVector (query : memory.SearchQuery) : bool :=
  negb (String.eqb (memory.qQuery query) "") || (0 <? len (memory.qEmbedding query)).

(** The per-layer results, one after the other. *)
Definition perLayer `{GoStd} (m : MultiLayer.MultiLayerMemory) (h : memory.Heap)
  (keys : memory.Entry -> list string) (query : memory.SearchQuery) (ord : list string)
  : list (memory.Entry * gmap string any) :=
  layerViews m h keys MultiLayer.LayerWorking query ord
  ++ layerViews m h keys MultiLayer.LayerShortTerm query ord
  ++ (if hasTextOrVector query
      then layerViews m h keys MultiLayer.LayerLongTerm query ord
      else []).

(** The claim as stated: the aggregated result is the concatenation of the
    per-layer results, the [_layer] tag apart. *)
Definition search_as_claimed `{GoStd} (m : MultiLayer.MultiLayerMemory) (h : memory.Heap)
  (keys : memory.Entry -> list string) (query : memory.SearchQuery) (ord : list string)
  : Prop :=
  exists found h',
    MultiLayer.Search m h keys query ord = Ok (found, h')
    /\ map (view h') found = perLayer m h keys query ord.

(** The cut that [Search] applies to the total when [Limit] is positive. *)
Definition cut {A : Type} (query : memory.SearchQuery) (l : list A) : list A :=
  if (0 <? memory.qLimit query) && (memory.qLimit query <? len l)
  then take (Z.to_nat (memory.qLimit query)) l
  else l.

(** The addresses of the metadata maps of a list of entries, of each tier,
    and of the query. *)
Definition locsOf (es : list memory.Entry) : gset memory.loc :=
  list_to_set (omap memory.Metadata es).

Definition workingLocs (m : MultiLayer.MultiLayerMemory) : gset memory.loc :=
  locsOf (Buffer.entries (MultiLayer.working m)).

Definition shortLocs (m : MultiLayer.MultiLayerMemory) : gset memory.loc :=
  match MultiLayer.shortTerm m with
  | Some st => locsOf (Buffer.entries (Summary.buffer st))
  | None => ∅
  end.

Definition vectorLocs (lt : Vector.VectorMemory) : gset memory.loc :=
  locsOf (map snd (map_to_list (Vector.entries lt))).

Definition longLocs (m : MultiLayer.MultiLayerMemory) : gset memory.loc :=
  match MultiLayer.longTerm m with
  | Some lt => vectorLocs lt
  | None => ∅
  end.

Definition queryLocs (query : memory.SearchQuery) : gset memory.loc :=
  match memory.qMetadata query with
  | Some l => {[ l ]}
  | None => ∅
  end.

(** Each tier owns the metadata maps of its entries: no map is shared
    between two tiers or with the query, and every map is in the heap. *)
Definition separated (m : MultiLayer.MultiLayerMemory) (h : memory.Heap)
  (query : memory.SearchQuery) : Prop :=
  (workingLocs m ## shortLocs m)
  /\ (workingLocs m ## longLocs m)
  /\ (shortLocs m ## longLocs m)
  /\ (queryLocs query ## (workingLocs m ∪ shortLocs m ∪ longLocs m))
  /\ (workingLocs m ∪ shortLocs m ∪ longLocs m ∪ queryLocs query ⊆ dom h).

(** Two heaps hold the same maps, the [_layer] tag apart. *)
Definition layer_equiv (h h' : memory.Heap) : Prop :=
  forall l, delete "_layer"%string (memory.deref h' (Some l))
            = delete "_layer"%string (memory.deref h (Some l)).

Section Heap_facts.
Import memory.

Lemma deref_store_key (h : Heap) (l : loc) (key : string) (v : any) :
  deref (Vector.store_key h l key v) (Some l) = <[key := v]> (deref h (Some l)).
Proof. unfold Vector.store_key, deref. by rewrite lookup_insert_eq. Qed.

Lemma deref_store_key_ne (h : Heap) (l l' : loc) (key : string) (v : any) :
  l <> l' -> deref (Vector.store_key h l key v) (Some l') = deref h (Some l').
Proof. intros Hne. unfold Vector.store_key, deref. by rewrite lookup_insert_ne. Qed.

Lemma lookup_store_key_ne (h : Heap) (l l' : loc) (key : string) (v : any) :
  l <> l' -> Vector.store_key h l key v !! l' = h !! l'.
Proof. intros Hne. unfold Vector.store_key. by rewrite lookup_insert_ne. Qed.

Lemma dom_store_key (h : Heap) (l : loc) (key : string) (v : any) :
  dom (Vector.store_key h l key v) = {[ l ]} ∪ dom h.
Proof. unfold Vector.store_key. by rewrite dom_insert_L. Qed.

Lemma alloc_spec (h : Heap) (m : gmap string any) :
  (fst (Vector.alloc h m) ∉ dom h)
  /\ (Vector.alloc h m).2 = <[(Vector.alloc h m).1 := m]> h.
Proof. unfold Vector.alloc. simpl. split; [apply is_fresh | done]. Qed.

Lemma view_layer_equiv (h h' : Heap) (e : Entry) :
  layer_equiv h h' -> view h' e = view h e.
Proof.
  intros Heq. unfold view. f_equal. destruct (Metadata e) as [l|]; [apply Heq | done].
Qed.

Lemma layer_equiv_refl (h : Heap) : layer_equiv h h.
Proof. done. Qed.

Lemma layer_equiv_trans (h1 h2 h3 : Heap) :
  layer_equiv h1 h2 -> layer_equiv h2 h3 -> layer_equiv h1 h3.
Proof. intros H12 H23 l. by rewrite H23, H12. Qed.

Lemma elem_of_locsOf (es : list Entry) (l : loc) :
  l ∈ locsOf es <-> exists e, e ∈ es /\ Metadata e = Some l.
Proof. unfold locsOf. by rewrite elem_of_list_to_set, list_elem_of_omap. Qed.

(** [matchQuery] returns no error: it answers or it panics. *)
Lemma matchMetadata_no_error (entryMetadata queryMetadata : gmap string any)
  (keys : list string) (err : error) :
  matchMetadata entryMetadata queryMetadata keys <> Err err.
Proof.
  induction keys as [|k keys IH]; cbn [matchMetadata]; [done|].
  destruct (queryMetadata !! k) as [v|]; [|done].
  destruct (entryMetadata !! k) as [mv|]; [|done].
  by destruct (any_equal mv v) as [[]|].
Qed.

Lemma matchQuery_no_error (h : Heap) (keys : list string) (e : Entry)
  (query : SearchQuery) (err : error) :
  matchQuery h keys e query <> Err err.
Proof.
  unfold matchQuery.
  repeat (match goal with |- context [if ?c then _ else _] => destruct c end; [done|]).
  destruct (0 <? _); [|done]. destruct (Metadata e); [|done].
  apply matchMetadata_no_error.
Qed.

(** The loop over the entries: what it keeps when no match panics, and when
    it panics. *)
Lemma matching_spec (h : Heap) (keys : Entry -> list string) (query : SearchQuery)
  (es : list Entry) :
  match matching h keys query es with
  | Ok results =>
      results = filter (fun e => matchQuery h (keys e) e query = Ok true) es
      /\ Forall (fun e => matchQuery h (keys e) e query <> Panic) es
  | Err _ => False
  | Panic => Exists (fun e => matchQuery h (keys e) e query = Panic) es
  end.
Proof.
  induction es as [|e es IH]; cbn [matching]; [by split|].
  destruct (matchQuery h (keys e) e query) as [keep|err|] eqn:He;
    [|by apply matchQuery_no_error in He|by left].
  destruct (matching h keys query es) as [results|err|]; [|done|by right].
  destruct IH as [-> Hes]. split; [|constructor; [by rewrite He | done]].
  destruct keep.
  - by rewrite filter_cons_True.
  - by rewrite filter_cons_False by (rewrite He; discriminate).
Qed.

Lemma matching_subset (h : Heap) (keys : Entry -> list string) (query : SearchQuery)
  (es results : list Entry) :
  matching h keys query es = Ok results -> results ⊆ es.
Proof.
  intros Hrun. pose proof (matching_spec h keys query es) as Hspec.
  rewrite Hrun in Hspec. destruct Hspec as [-> _].
  intros e He. by apply list_elem_of_filter in He as [_ ?].
Qed.

(** [matchQuery] reads the heap at the entry's map and at the query's map only. *)
Lemma matchQuery_agree (h h' : Heap) (keys : list string) (e : Entry)
  (query : SearchQuery) :
  (forall l, Metadata e = Some l -> h !! l = h' !! l) ->
  (forall l, qMetadata query = Some l -> h !! l = h' !! l) ->
  matchQuery h keys e query = matchQuery h' keys e query.
Proof.
  intros He Hq. unfold matchQuery.
  assert (deref h (qMetadata query) = deref h' (qMetadata query)) as ->.
  { unfold deref. destruct (qMetadata query) as [l|]; [by rewrite (Hq l) | done]. }
  destruct (Metadata e) as [l|]; [|done].
  assert (deref h (Some l) = deref h' (Some l)) as ->; [|done].
  unfold deref. by rewrite (He l).
Qed.

Lemma matching_agree (h h' : Heap) (keys : Entry -> list string) (es : list Entry)
  (query : SearchQuery) :
  (forall l, l ∈ locsOf es -> h !! l = h' !! l) ->
  (forall l, qMetadata query = Some l -> h !! l = h' !! l) ->
  matching h keys query es = matching h' keys query es.
Proof.
  intros Hes Hq. induction es as [|e es IH]; [done|].
  cbn [matching].
  rewrite (matchQuery_agree h h' (keys e) e query); [|intros l Hl; apply Hes, elem_of_locsOf;
    exists e; split; [left | done] | done].
  rewrite IH; [done|]. intros l Hl. apply Hes. apply elem_of_locsOf in Hl as (e' & ? & ?).
  apply elem_of_locsOf. exists e'. split; [by right | done].
Qed.

Lemma Buffer_Search_agree (b : Buffer.BufferMemory) (h h' : Heap)
  (keys : Entry -> list string) (query : SearchQuery) :
  (forall l, l ∈ locsOf (Buffer.entries b) -> h !! l = h' !! l) ->
  (forall l, qMetadata query = Some l -> h !! l = h' !! l) ->
  Buffer.Search b h keys query = Buffer.Search b h' keys query.
Proof.
  intros Hes Hq. unfold Buffer.Search. by rewrite (matching_agree h h').
Qed.

End Heap_facts.

Section Tagging.
Import memory.

(** One call of [addLayerMeta]: the entry's map (a new one when it had
    none) receives the tag; every other map is left alone. *)
Lemma addLayerMeta_spec (h : Heap) (metadata : option loc) (layer : string) :
  exists l h',
    MultiLayer.addLayerMeta h metadata layer = (Some l, h')
    /\ l ∈ dom h'
    /\ dom h ⊆ dom h'
    /\ match metadata with Some l0 => l = l0 | None => l ∉ dom h end
    /\ deref h' (Some l) = <["_layer"%string := AString layer]> (deref h metadata)
    /\ (forall l', l' <> l -> h' !! l' = h !! l')
    /\ layer_equiv h h'.
Proof.
  destruct metadata as [l0|]; unfold MultiLayer.addLayerMeta.
  - exists l0, (Vector.store_key h l0 "_layer" (AString layer)).
    split; [done|]. rewrite dom_store_key.
    split; [set_solver|]. split; [set_solver|]. split; [done|].
    split; [apply deref_store_key|].
    split; [intros l' Hne; by apply lookup_store_key_ne|].
    intros l'. destruct (decide (l0 = l')) as [<-|Hne].
    + by rewrite deref_store_key, delete_insert_eq.
    + by rewrite deref_store_key_ne.
  - destruct (alloc_spec h {[ "_layer"%string := AString layer ]}) as [Hfresh Hh'].
    destruct (Vector.alloc h _) as [l h'] eqn:Halloc. cbn [fst snd] in *. subst h'.
    exists l, (<[l := {[ "_layer"%string := AString layer ]}]> h).
    split; [done|]. rewrite dom_insert_L.
    split; [set_solver|]. split; [set_solver|]. split; [done|].
    split; [unfold deref; by rewrite lookup_insert_eq, insert_empty|].
    split; [intros l' Hne; by rewrite lookup_insert_ne|].
    intros l'. unfold deref. destruct (decide (l = l')) as [<-|Hne].
    + rewrite lookup_insert_eq. apply not_elem_of_dom in Hfresh. rewrite Hfresh. simpl.
      by rewrite delete_singleton_eq, delete_empty.
    + by rewrite lookup_insert_ne.
Qed.

(** What a tagged entry is: the same fields, its map now in the heap. *)
Definition tagged (h h' : Heap) (e e' : Entry) : Prop :=
  setMetadata e' None = setMetadata e None
  /\ exists l, Metadata e' = Some l
       /\ l ∈ dom h'
       /\ match Metadata e with Some l0 => l = l0 | None => l ∉ dom h end.

Lemma tagAll_fold (layer : string) (found : list Entry) : forall (h : Heap) (acc : list Entry),
  exists h' found',
    fold_left (MultiLayer.tagLayer layer) found (h, acc) = (h', acc ++ found')
    /\ dom h ⊆ dom h'
    /\ (forall l, l ∈ dom h -> l ∉ locsOf found -> h' !! l = h !! l)
    /\ layer_equiv h h'
    /\ map (view h') found' = map (view h) found
    /\ Forall2 (tagged h h') found found'.
Proof.
  induction found as [|e found IH]; intros h acc.
  - exists h, []. rewrite app_nil_r. repeat split; first [done | constructor].
  - cbn [fold_left]. unfold MultiLayer.tagLayer at 2.
    destruct (addLayerMeta_spec h (Metadata e) layer)
      as (l & h1 & -> & Hl & Hdom & Hwhere & Hderef & Hframe & Hequiv).
    destruct (IH h1 (acc ++ [setMetadata e (Some l)]))
      as (h' & found' & -> & Hdom' & Hframe' & Hequiv' & Hviews & Htagged).
    exists h', (setMetadata e (Some l) :: found').
    split; [by rewrite <- app_assoc|].
    split; [set_solver|].
    split.
    { intros l' Hin Hnot. rewrite Hframe'.
      - apply Hframe. intros ->. destruct (Metadata e) as [l0|] eqn:He.
        + subst l0. apply Hnot, elem_of_locsOf. exists e. split; [left | done].
        + done.
      - set_solver.
      - intros Hl'. apply Hnot. apply elem_of_locsOf in Hl' as (e' & ? & ?).
        apply elem_of_locsOf. exists e'. split; [by right | done]. }
    split; [by eapply layer_equiv_trans|].
    split.
    { cbn [map]. f_equal.
      - rewrite (view_layer_equiv h1 h') by done. unfold view. cbn [Metadata setMetadata].
        f_equal. by rewrite Hderef, delete_insert_eq.
      - rewrite Hviews. apply map_ext. intros e'. by apply view_layer_equiv. }
    constructor.
    + split; [done|]. exists l. cbn [Metadata setMetadata]. split; [done|].
      split; [set_solver | done].
    + eapply Forall2_impl; [exact Htagged|].
      intros e1 e1' (Hfields & l1 & Hm & Hin & Hwhere1). split; [done|].
      exists l1. split; [done|]. split; [done|].
      destruct (Metadata e1); [done|]. set_solver.
Qed.

Lemma tagAll_spec (h : Heap) (found : list Entry) (layer : string) :
  exists h' found',
    MultiLayer.tagAll h found layer = (h', found')
    /\ dom h ⊆ dom h'
    /\ (forall l, l ∈ dom h -> l ∉ locsOf found -> h' !! l = h !! l)
    /\ layer_equiv h h'
    /\ map (view h') found' = map (view h) found
    /\ Forall2 (tagged h h') found found'.
Proof. apply (tagAll_fold layer found h []). Qed.

End Tagging.

Section Vector_search.
Import memory.
Context `{GoStdLaws}.
Variables (lt : Vector.VectorMemory) (keys : Entry -> list string) (query : SearchQuery).

(** The maps that the vector search may read: those of its entries and the query's. *)
Let own : gset loc := vectorLocs lt ∪ queryLocs query.

Lemma vector_entry_loc (id : string) (e : Entry) (l : loc) :
  Vector.entries lt !! id = Some e -> Metadata e = Some l -> l ∈ vectorLocs lt.
Proof.
  intros He Hl. unfold vectorLocs. apply elem_of_locsOf. exists e. split; [|done].
  apply list_elem_of_fmap. exists (id, e). split; [done|]. by apply elem_of_map_to_list.
Qed.

Lemma rangeEntries_locs (ord : list string) :
  locsOf (Vector.rangeEntries lt ord) ⊆ vectorLocs lt.
Proof.
  intros l (e & He & Hl)%elem_of_locsOf.
  unfold Vector.rangeEntries in He. apply list_elem_of_omap in He as (id & _ & Hid).
  by eapply vector_entry_loc.
Qed.

Lemma matchQuery_own (hA hB : Heap) (id : string) (e : Entry) :
  (forall l, l ∈ own -> hA !! l = hB !! l) ->
  Vector.entries lt !! id = Some e ->
  matchQuery hA (keys e) e query = matchQuery hB (keys e) e query.
Proof.
  intros Hagree He. apply matchQuery_agree.
  - intros l Hl. apply Hagree. apply elem_of_union_l. by eapply vector_entry_loc.
  - intros l Hl. apply Hagree. apply elem_of_union_r. unfold queryLocs. rewrite Hl. set_solver.
Qed.

(** Two found entries, one of each run, that show the same to the caller
    and will keep doing so: they share a map of the memory, or each has a
    map of its own outside the memory, with the same content. *)
Definition twin (hA hB : Heap) (a b : Entry) : Prop :=
  setMetadata a None = setMetadata b None
  /\ ((exists l, Metadata a = Some l /\ Metadata b = Some l /\ l ∈ vectorLocs lt)
      \/ (exists la lb,
            Metadata a = Some la /\ Metadata b = Some lb
            /\ la ∈ dom hA /\ la ∉ own /\ lb ∈ dom hB /\ lb ∉ own
            /\ hA !! la = hB !! lb)).

(** The invariant of the two runs of the loop over the store's results. *)
Definition paired (h0 : Heap) (stA stB : Heap * list Entry) : Prop :=
  (forall l, l ∈ own -> stA.1 !! l = stB.1 !! l)
  /\ own ⊆ dom stA.1 /\ own ⊆ dom stB.1
  /\ dom h0 ⊆ dom stA.1
  /\ (forall l, l ∈ dom h0 -> l ∉ vectorLocs lt -> stA.1 !! l = h0 !! l)
  /\ Forall2 (twin stA.1 stB.1) stA.2 stB.2.

Lemma twin_weaken (hA hB hA' hB' : Heap) (a b : Entry) :
  dom hA ⊆ dom hA' -> dom hB ⊆ dom hB' ->
  (forall l, l ∈ dom hA -> l ∉ own -> hA' !! l = hA !! l) ->
  (forall l, l ∈ dom hB -> l ∉ own -> hB' !! l = hB !! l) ->
  twin hA hB a b -> twin hA' hB' a b.
Proof.
  intros HdA HdB HfA HfB [Hfields [Hshared|Hfresh]]; (split; [done|]).
  - by left.
  - right. destruct Hfresh as (la & lb & Ha & Hb & HlaD & HlaO & HlbD & HlbO & Heq).
    exists la, lb. repeat split; try done; [set_solver | set_solver |].
    by rewrite HfA, HfB.
Qed.

(** Two runs end alike: both go on, paired, or both stop the same way. *)
Definition pairedRuns (h0 : Heap) (runA runB : outcome (Heap * list Entry)) : Prop :=
  match runA, runB with
  | Ok stA, Ok stB => paired h0 stA stB
  | Err errA, Err errB => errA = errB
  | Panic, Panic => True
  | _, _ => False
  end.

Lemma scoreStep_paired (h0 : Heap) (stA stB : Heap * list Entry) (result : Vector.VectorResult) :
  paired h0 stA stB ->
  pairedRuns h0 (Vector.scoreStep lt keys query stA result)
    (Vector.scoreStep lt keys query stB result).
Proof.
  destruct stA as [hA accA], stB as [hB accB].
  intros (Hagree & HownA & HownB & Hdom & Hframe & Hacc). cbn [fst snd] in *.
  unfold Vector.scoreStep.
  destruct (f32.ltb _ _); [done|].
  destruct (Vector.entries lt !! Vector.vrID result) as [entry|] eqn:Hentry; [|done].
  rewrite (matchQuery_own hA hB _ entry Hagree Hentry).
  destruct (matchQuery hB (keys entry) entry query) as [[]|err|]; [|done|done|done].
  set (scoreV := AFloat32 (Vector.vrScore result)).
  destruct (Metadata entry) as [l|] eqn:Hmeta.
  - assert (l ∈ vectorLocs lt) as Hl by by eapply vector_entry_loc.
    assert (l ∈ own) as Hlown by by apply elem_of_union_l.
    unfold pairedRuns, paired. cbn [fst snd]. rewrite !dom_store_key.
    split.
    { intros l' Hl'. unfold Vector.store_key, deref.
      destruct (decide (l = l')) as [<-|Hne].
      - rewrite !lookup_insert_eq. by rewrite (Hagree l Hlown).
      - rewrite !lookup_insert_ne by done. by apply Hagree. }
    split; [set_solver|]. split; [set_solver|]. split; [set_solver|].
    split.
    { intros l' Hin Hnot. rewrite lookup_store_key_ne; [by apply Hframe|].
      intros ->. done. }
    apply Forall2_app.
    + eapply Forall2_impl; [exact Hacc|]. intros a b Htwin.
      eapply twin_weaken; [| | | |exact Htwin].
      * rewrite dom_store_key. set_solver.
      * rewrite dom_store_key. set_solver.
      * intros l' _ Hnot. apply lookup_store_key_ne. intros ->. done.
      * intros l' _ Hnot. apply lookup_store_key_ne. intros ->. done.
    + constructor; [|constructor]. split; [done|]. left. by exists l.
  - destruct (alloc_spec hA {[ "_score"%string := scoreV ]}) as [HfreshA HhA].
    destruct (alloc_spec hB {[ "_score"%string := scoreV ]}) as [HfreshB HhB].
    destruct (Vector.alloc hA _) as [la hA'] eqn:HallocA.
    destruct (Vector.alloc hB _) as [lb hB'] eqn:HallocB.
    cbn [fst snd] in *. subst hA' hB'.
    assert (la ∉ own) as HlaO by set_solver.
    assert (lb ∉ own) as HlbO by set_solver.
    unfold pairedRuns, paired. cbn [fst snd]. rewrite !dom_insert_L.
    split.
    { intros l' Hl'. rewrite !lookup_insert_ne; [by apply Hagree | |];
        intros ->; done. }
    split; [set_solver|]. split; [set_solver|]. split; [set_solver|].
    split.
    { intros l' Hin Hnot. rewrite lookup_insert_ne; [by apply Hframe|].
      intros ->. apply HfreshA. set_solver. }
    apply Forall2_app.
    + eapply Forall2_impl; [exact Hacc|]. intros a b Htwin.
      eapply twin_weaken; [| | | |exact Htwin].
      * rewrite dom_insert_L. set_solver.
      * rewrite dom_insert_L. set_solver.
      * intros l' Hin _. apply lookup_insert_ne. intros ->. done.
      * intros l' Hin _. apply lookup_insert_ne. intros ->. done.
    + constructor; [|constructor]. split; [done|]. right.
      exists la, lb. cbn [Metadata setMetadata]. rewrite !dom_insert_L.
      repeat split; try done; [set_solver | set_solver |].
      by rewrite !lookup_insert_eq.
Qed.

Lemma scoreLoop_paired (h0 : Heap) (results : list Vector.VectorResult) :
  forall stA stB,
    paired h0 stA stB ->
    pairedRuns h0 (Vector.scoreLoop lt keys query results stA)
      (Vector.scoreLoop lt keys query results stB).
Proof.
  induction results as [|result results IH]; intros stA stB Hp; [done|].
  cbn [Vector.scoreLoop]. pose proof (scoreStep_paired h0 stA stB result Hp) as Hstep.
  destruct (Vector.scoreStep lt keys query stA result) as [stA'|errA|],
           (Vector.scoreStep lt keys query stB result) as [stB'|errB|]; try done.
  by apply IH.
Qed.

Lemma twin_view (hA hB : Heap) (a b : Entry) :
  (forall l, l ∈ own -> hA !! l = hB !! l) ->
  twin hA hB a b -> view hA a = view hB b.
Proof.
  intros Hagree [Hfields [(l & Ha & Hb & Hl)|(la & lb & Ha & Hb & _ & _ & _ & _ & Heq)]];
    unfold view; rewrite Hfields, Ha, Hb; f_equal; unfold deref.
  - rewrite (Hagree l); [done|]. by apply elem_of_union_l.
  - by rewrite Heq.
Qed.

(** The vector search run from two heaps that agree on the maps it may
    read: the same outcome, the same entries as the caller sees them, and
    no change to a map that is not the memory's. *)
Lemma Vector_Search_agree (hA hB : Heap) (ord : list string) :
  (forall l, l ∈ own -> hA !! l = hB !! l) ->
  own ⊆ dom hA -> own ⊆ dom hB ->
  match Vector.Search lt hA keys query ord, Vector.Search lt hB keys query ord with
  | Ok (foundA, hA'), Ok (foundB, hB') =>
      map (view hA') foundA = map (view hB') foundB
      /\ dom hA ⊆ dom hA'
      /\ (forall l, l ∈ dom hA -> l ∉ vectorLocs lt -> hA' !! l = hA !! l)
  | Err errA, Err errB => errA = errB
  | Panic, Panic => True
  | _, _ => False
  end.
Proof.
  intros Hagree HownA HownB. unfold Vector.Search.
  set (embedded := if 0 <? len (qEmbedding query) then _ else _).
  destruct embedded as [embedding|err|]; [|done|done].
  destruct (0 <? len embedding).
  - destruct (Vector.vsSearch (Vector.store lt) embedding _) as [results|err|]; [|done|done].
    pose proof (scoreLoop_paired hA results (hA, []) (hB, [])) as Hp.
    destruct (Vector.scoreLoop lt keys query results (hA, [])) as [[hA' foundA]|errA|],
             (Vector.scoreLoop lt keys query results (hB, [])) as [[hB' foundB]|errB|];
      try (apply Hp; unfold paired; cbn [fst snd]; repeat split; first [done | constructor]).
    destruct Hp as (Hagree' & _ & _ & Hdom & Hframe & Hacc).
    { unfold paired. cbn [fst snd]. repeat split; first [done | constructor]. }
    cbn [fst snd] in *. split; [|done].
    clear -Hagree' Hacc. induction Hacc as [|a b foundA foundB Hab _ IH]; [done|].
    cbn [map]. f_equal; [by apply twin_view | done].
  - rewrite (matching_agree hA hB).
    2:{ intros l Hl. apply Hagree, elem_of_union_l. by eapply rangeEntries_locs. }
    2:{ intros l Hl. apply Hagree, elem_of_union_r. unfold queryLocs. rewrite Hl. set_solver. }
    destruct (matching hB keys query (Vector.rangeEntries lt ord)) as [matched|err|] eqn:Hrun;
      [|done|done].
    apply matching_subset in Hrun.
    set (sorted := sort_Slice _ matched).
    assert (forall e, e ∈ sorted -> view hA e = view hB e) as Hsame.
    { intros e He. unfold view. f_equal.
      destruct (Metadata e) as [l|] eqn:Hl; [|done].
      unfold deref. rewrite (Hagree l); [done|]. apply elem_of_union_l.
      apply (rangeEntries_locs ord), elem_of_locsOf. exists e. split; [|done].
      assert (e ∈ matched) as Hin.
      { apply list_elem_of_In. eapply Permutation_in; [apply sort_Slice_permutation|].
        apply list_elem_of_In, He. }
      by apply Hrun. }
    destruct (len sorted <? qOffset query).
    { repeat split; done. }
    destruct (slice sorted _ _) as [page|] eqn:Hslice; [|done].
    split; [|done].
    apply map_ext_in. intros e He. apply Hsame.
    unfold slice in Hslice. destruct (_ && _); [|done]. injection Hslice as <-.
    apply list_elem_of_In in He.
    by apply subseteq_take, subseteq_drop in He.
Qed.

End Vector_search.

Section Search_tiers.
Import memory.

Lemma Buffer_Search_subset (b : Buffer.BufferMemory) (h : Heap)
  (keys : Entry -> list string) (query : SearchQuery) (found : list Entry) :
  Buffer.Search b h keys query = Ok found -> locsOf found ⊆ locsOf (Buffer.entries b).
Proof.
  unfold Buffer.Search.
  destruct (matching h keys query (Buffer.entries b)) as [matched|err|] eqn:Hrun;
    [|done|done].
  apply matching_subset in Hrun.
  set (results := if qOrderDesc query then reverse matched else matched).
  assert (results ⊆ Buffer.entries b) as Hsub.
  { intros e He. assert (e ∈ matched) as Hm.
    { revert He. subst results.
      destruct (qOrderDesc query); [by rewrite elem_of_reverse | done]. }
    by apply Hrun. }
  intros Hfound l (e & He & Hl)%elem_of_locsOf. apply elem_of_locsOf. exists e.
  split; [|done]. apply Hsub.
  destruct (len results <=? _).
  - injection Hfound as <-. by apply elem_of_nil in He.
  - destruct (slice results _ _) as [page|] eqn:Hslice; [|done].
    injection Hfound as <-.
    unfold slice in Hslice. destruct (_ && _); [|done]. injection Hslice as <-.
    by apply subseteq_take, subseteq_drop in He.
Qed.

(** A found entry after tagging: its map is in the heap, and it is a map of
    the tier or one made for the result. *)
Definition settled (tier : gset loc) (h0 h : Heap) (e : Entry) : Prop :=
  exists l, Metadata e = Some l /\ l ∈ dom h /\ (l ∈ tier \/ l ∉ dom h0).

(** One buffer tier of [Search]: run on the current heap [hc], it finds what
    it finds on the initial heap [h], tags it, and touches no other tier. *)
Lemma buffer_tier (b : Buffer.BufferMemory) (h hc : Heap) (keys : Entry -> list string)
  (query : SearchQuery) (layer : string) (allEntries found : list Entry) :
  (forall l, l ∈ locsOf (Buffer.entries b) ∪ queryLocs query -> hc !! l = h !! l) ->
  layer_equiv h hc ->
  Buffer.Search b h keys query = Ok found ->
  exists hc' found',
    MultiLayer.collect layer allEntries
      (MultiLayer.untouched hc (Buffer.Search b hc keys query)) hc
    = Ok (allEntries ++ found', hc')
    /\ map (view hc') found' = map (view h) found
    /\ dom hc ⊆ dom hc'
    /\ layer_equiv hc hc'
    /\ (forall l, l ∈ dom hc -> l ∉ locsOf (Buffer.entries b) -> hc' !! l = hc !! l)
    /\ Forall (settled (locsOf (Buffer.entries b)) hc hc') found'.
Proof.
  intros Hagree Hequiv Hfound.
  rewrite (Buffer_Search_agree b hc h keys query).
  2:{ intros l Hl. apply Hagree. by apply elem_of_union_l. }
  2:{ intros l Hl. apply Hagree, elem_of_union_r. unfold queryLocs. rewrite Hl. set_solver. }
  rewrite Hfound. cbn [MultiLayer.untouched MultiLayer.collect].
  destruct (tagAll_spec hc found layer)
    as (hc' & found' & -> & Hdom & Hframe & Hequiv' & Hviews & Htagged).
  exists hc', found'. split; [done|].
  split.
  { rewrite Hviews. apply map_ext. intros e. by apply view_layer_equiv. }
  split; [done|]. split; [done|].
  split.
  { intros l Hin Hnot. apply Hframe; [done|].
    intros Hl. apply Hnot. by eapply Buffer_Search_subset. }
  pose proof (Buffer_Search_subset b h keys query found Hfound) as Hsub.
  clear -Htagged Hsub.
  induction Htagged as [|e e' found found' (_ & l & Hm & Hin & Hwhere) _ IH]; constructor.
  - exists l. split; [done|]. split; [done|].
    destruct (Metadata e) as [l0|] eqn:He; [|by right].
    subst l0. left. apply Hsub, elem_of_locsOf. exists e. split; [left | done].
  - apply IH. intros l0 (e0 & He0 & Hl0)%elem_of_locsOf. apply Hsub, elem_of_locsOf.
    exists e0. split; [by right | done].
Qed.

Lemma settled_view (tier avoid : gset loc) (h0 h h' : Heap) (e : Entry) :
  settled tier h0 h e ->
  tier ## avoid -> avoid ⊆ dom h0 ->
  (forall l, l ∈ dom h -> l ∉ avoid -> h' !! l = h !! l) ->
  view h' e = view h e.
Proof.
  intros (l & Hm & Hin & Hwhere) Hdisj Hdom Hframe. unfold view, deref. rewrite Hm.
  rewrite Hframe; [done|done|]. destruct Hwhere; set_solver.
Qed.

Lemma cut_map {A B : Type} (f : A -> B) (query : SearchQuery) (l : list A) :
  map f (cut query l) = cut query (map f l).
Proof.
  unfold cut, len. rewrite length_map.
  destruct (_ && _); [|done]. apply (fmap_take f).
Qed.

End Search_tiers.

Section Search_stages.
Import memory.
Context `{GoStdLaws}.
Variables (m : MultiLayer.MultiLayerMemory) (h : Heap) (keys : Entry -> list string)
  (query : SearchQuery) (ord : list string).

Lemma SearchLayer_working :
  MultiLayer.SearchLayer m h keys MultiLayer.LayerWorking query ord
  = MultiLayer.untouched h (Buffer.Search (MultiLayer.working m) h keys query).
Proof. reflexivity. Qed.

Lemma SearchLayer_shortTerm :
  MultiLayer.SearchLayer m h keys MultiLayer.LayerShortTerm query ord
  = match MultiLayer.shortTerm m with
    | Some st => MultiLayer.untouched h (Summary.Search st h keys query)
    | None => Err (fmt_Sprintf "layer %s not available" [ArgS MultiLayer.LayerShortTerm])
    end.
Proof. reflexivity. Qed.

Lemma SearchLayer_longTerm :
  MultiLayer.SearchLayer m h keys MultiLayer.LayerLongTerm query ord
  = match MultiLayer.longTerm m with
    | Some lt => Vector.Search lt h keys query ord
    | None => Err (fmt_Sprintf "layer %s not available" [ArgS MultiLayer.LayerLongTerm])
    end.
Proof. reflexivity. Qed.

Lemma Buffer_Search_no_error (b : Buffer.BufferMemory) (err : error) :
  Buffer.Search b h keys query <> Err err.
Proof.
  unfold Buffer.Search. pose proof (matching_spec h keys query (Buffer.entries b)) as Hspec.
  destruct (matching h keys query (Buffer.entries b)) as [matched|err'|]; [|done|done].
  destruct (_ <=? _); [done|]. by destruct (slice _ _ _).
Qed.

(** What a later stage must leave alone for the entries found so far. *)
Definition preserves (avoid : gset loc) (hc hc' : Heap) : Prop :=
  forall l, l ∈ dom hc -> l ∉ avoid -> hc' !! l = hc !! l.

Lemma working_stage :
  MultiLayer.SearchLayer m h keys MultiLayer.LayerWorking query ord <> Panic ->
  exists h1 found,
    MultiLayer.collect MultiLayer.LayerWorking []
      (MultiLayer.untouched h (Buffer.Search (MultiLayer.working m) h keys query)) h
    = Ok (found, h1)
    /\ map (view h1) found = layerViews m h keys MultiLayer.LayerWorking query ord
    /\ dom h ⊆ dom h1
    /\ layer_equiv h h1
    /\ preserves (workingLocs m) h h1
    /\ Forall (settled (workingLocs m) h h1) found.
Proof.
  unfold layerViews. rewrite SearchLayer_working. intros Hlive.
  destruct (Buffer.Search (MultiLayer.working m) h keys query) as [found|err|] eqn:Hfound;
    [|by apply Buffer_Search_no_error in Hfound|done].
  destruct (buffer_tier (MultiLayer.working m) h h keys query MultiLayer.LayerWorking []
              found)
    as (h1 & found' & Hrun & Hviews & Hdom & Hequiv & Hframe & Hsettled);
    [done | apply layer_equiv_refl | done |].
  rewrite Hfound in Hrun. exists h1, found'. by rewrite Hrun.
Qed.

Lemma shortTerm_stage (hc : Heap) (allEntries : list Entry) :
  (forall l, l ∈ shortLocs m ∪ queryLocs query -> hc !! l = h !! l) ->
  layer_equiv h hc ->
  MultiLayer.SearchLayer m h keys MultiLayer.LayerShortTerm query ord <> Panic ->
  exists h2 found,
    match MultiLayer.shortTerm m with
    | Some st =>
        MultiLayer.collect MultiLayer.LayerShortTerm allEntries
          (MultiLayer.untouched hc (Summary.Search st hc keys query)) hc
    | None => Ok (allEntries, hc)
    end = Ok (allEntries ++ found, h2)
    /\ map (view h2) found = layerViews m h keys MultiLayer.LayerShortTerm query ord
    /\ dom hc ⊆ dom h2
    /\ layer_equiv hc h2
    /\ preserves (shortLocs m) hc h2
    /\ Forall (settled (shortLocs m) hc h2) found.
Proof.
  unfold layerViews, shortLocs. rewrite SearchLayer_shortTerm.
  intros Hagree Hequiv Hlive.
  destruct (MultiLayer.shortTerm m) as [st|].
  - unfold Summary.Search in *.
    destruct (Buffer.Search (Summary.buffer st) h keys query) as [found|err|] eqn:Hfound;
      [|by apply Buffer_Search_no_error in Hfound|done].
    destruct (buffer_tier (Summary.buffer st) h hc keys query MultiLayer.LayerShortTerm
                allEntries found)
      as (h2 & found' & Hrun & Hviews & Hdom & Hequiv' & Hframe & Hsettled);
      [done | done | done |].
    by exists h2, found'.
  - exists hc, []. rewrite app_nil_r. repeat split; done.
Qed.

Lemma longTerm_stage (hc : Heap) (allEntries : list Entry) :
  (forall l, l ∈ longLocs m ∪ queryLocs query -> hc !! l = h !! l) ->
  longLocs m ∪ queryLocs query ⊆ dom h ->
  longLocs m ∪ queryLocs query ⊆ dom hc ->
  (hasTextOrVector query = true ->
   MultiLayer.SearchLayer m h keys MultiLayer.LayerLongTerm query ord <> Panic) ->
  exists h3 found,
    match MultiLayer.longTerm m with
    | Some lt =>
        if negb (String.eqb (qQuery query) "") || (0 <? len (qEmbedding query))
        then MultiLayer.collect MultiLayer.LayerLongTerm allEntries
               (Vector.Search lt hc keys query ord) hc
        else Ok (allEntries, hc)
    | None => Ok (allEntries, hc)
    end = Ok (allEntries ++ found, h3)
    /\ map (view h3) found
       = (if hasTextOrVector query
          then layerViews m h keys MultiLayer.LayerLongTerm query ord
          else [])
    /\ (forall e l, Metadata e = Some l -> l ∈ dom hc -> l ∉ longLocs m ->
        view h3 e = view hc e).
Proof.
  unfold layerViews, longLocs, hasTextOrVector. rewrite SearchLayer_longTerm.
  intros Hagree HdomB HdomA Hlive.
  destruct (MultiLayer.longTerm m) as [lt|].
  2:{ exists hc, []. rewrite app_nil_r. destruct (_ || _); done. }
  destruct (_ || _).
  2:{ exists hc, []. rewrite app_nil_r. done. }
  specialize (Hlive eq_refl).
  pose proof (Vector_Search_agree lt keys query hc h ord Hagree HdomA HdomB) as Hsame.
  destruct (Vector.Search lt hc keys query ord) as [[foundA hA]|errA|],
           (Vector.Search lt h keys query ord) as [[foundB hB]|errB|]; try done.
  - destruct Hsame as (Hviews & Hdom & Hframe).
    cbn [MultiLayer.collect].
    destruct (tagAll_spec hA foundA MultiLayer.LayerLongTerm)
      as (h3 & found & -> & Hdom' & _ & Hequiv & Hviews' & _).
    exists h3, found. split; [done|]. split; [by rewrite Hviews', Hviews|].
    intros e l Hm Hin Hnot. rewrite (view_layer_equiv hA h3) by done.
    unfold view, deref. rewrite Hm. by rewrite Hframe.
  - exists hc, []. rewrite app_nil_r. done.
Qed.

End Search_stages.

Section Search_claim.
Import memory.
Context `{GoStdLaws}.


End Search_claim.

(** Three tiers with one entry each: ["a"] with a metadata map, ["b"] with
    none, ["c"] found by similarity. *)
Definition entryAt (id : string) (metadata : option memory.loc) : memory.Entry :=
  memory.setMetadata (userEntry id "hello") metadata.

Definition vectorTier : Vector.VectorMemory :=
  {| Vector.entries := {[ "c"%string := entryAt "c" (Some 2%positive) ]};
     Vector.embedder := fun _ => Ok [[1%f64]];
     Vector.store :=
       {| Vector.vsSearch := fun _ _ =>
            Ok [ {| Vector.vrID := "c"; Vector.vrScore := 1%f64;
                    Vector.vrMetadata := None |} ] |};
     Vector.config :=
       {| Vector.Dimension := 1; Vector.Capacity := 10; Vector.MinScore := 0%f64;
          Vector.DefaultTopK := 5 |} |}.

Definition threeTiers : MultiLayer.MultiLayerMemory :=
  {| MultiLayer.working :=
       Buffer.setEntries (Buffer.NewBuffer 3 []) [entryAt "a" (Some 1%positive)];
     MultiLayer.shortTerm :=
       Some (Summary.setBuffer (Summary.NewSummaryMemory answering [])
               (Buffer.setEntries (Buffer.NewBuffer 3 []) [entryAt "b" None]));
     MultiLayer.longTerm := Some vectorTier |}.

Definition threeMaps : memory.Heap :=
  {[ 1%positive := {[ "topic"%string := AString "greeting" ]}; 2%positive := ∅ ]}.

Definition firstTwo : memory.SearchQuery :=
  {| memory.qQuery := "hello"; memory.qEmbedding := []; memory.qLimit := 2;
     memory.qOffset := 0; memory.qRoles := []; memory.qSince := None;
     memory.qUntil := None; memory.qMetadata := None; memory.qOrderBy := "";
     memory.qOrderDesc := false |}.

(** An order for the [range] over the metadata of a query that has none. *)
Definition noKeys : memory.Entry -> list string := fun _ => [].




(** ** The base router: what every selection guarantees *)

Section Selection.
Import llm router.

Lemma index_elem_of {A : Type} (s : list A) (i : Z) (x : A) :
  index s i = Some x -> x ∈ s.
Proof.
  unfold index. destruct (i <? 0); [done|]. apply list_elem_of_lookup_2.
Qed.

Lemma index_0_head {A : Type} (s : list A) : index s 0 = head s.
Proof. by destruct s. Qed.

(** The names among which a strategy chooses: registered, and marked
    healthy when health checks are on. *)
Definition eligible (r : Router) (name : string) : Prop :=
  name ∈ providerList r /\ (healthCheck r = true -> isHealthy r name = true).

Lemma getHealthyProviders_eligible (r : Router) (name : string) :
  name ∈ getHealthyProviders r -> eligible r name.
Proof.
  unfold getHealthyProviders, eligible. destruct (healthCheck r); cbn [negb].
  - intros [? ?]%list_elem_of_filter. done.
  - intros ?. done.
Qed.

(** A strategy's answer is the provider bound to one of the names it was given. *)
Definition picks (r : Router) (available : list string) (o : outcome (option Provider))
  : Prop :=
  forall op, o = Ok op -> exists name, name ∈ available /\ op = providers r !! name.

Lemma roundRobinSelect_picks (r r1 : Router) (available : list string)
  (op : option Provider) :
  roundRobinSelect r available = Ok (op, r1) ->
  exists name, name ∈ available /\ op = providers r !! name.
Proof.
  unfold roundRobinSelect. destruct (len available =? 0); [done|].
  destruct (index available _) as [name|] eqn:Hname; [|done].
  intros [= <- _]. exists name. split; [by eapply index_elem_of | done].
Qed.

Lemma randomSelect_picks (r : Router) (rnd : Z) (available : list string) :
  picks r available (randomSelect r rnd available).
Proof.
  intros op. unfold randomSelect.
  destruct (rand_Intn rnd (len available)) as [i|]; cbn [mbind option_bind]; [|done].
  destruct (index available i) as [name|] eqn:Hname; [|done].
  intros [= <-]. exists name. split; [by eapply index_elem_of | done].
Qed.

Lemma first_picks (r : Router) (available : list string) :
  picks r available
    (match index available 0 with
     | None => Panic
     | Some first => Ok (providers r !! first)
     end).
Proof.
  intros op. destruct (index available 0) as [first|] eqn:Hfirst; [|done].
  intros [= <-]. exists first. split; [by eapply index_elem_of | done].
Qed.

Lemma leastLatencySelect_picks (r : Router) (available : list string) :
  picks r available (leastLatencySelect r available).
Proof.
  unfold leastLatencySelect.
  set (step := fun '(minLatency, selected) name => _).
  assert (forall names st,
            (st.2 = ""%string \/ st.2 ∈ available) -> names ⊆ available ->
            (fold_left step names st).2 = ""%string
            \/ (fold_left step names st).2 ∈ available) as Hfold.
  { induction names as [|name names IH]; intros [minLatency selected] Hst Hsub; [done|].
    cbn [fold_left]. apply IH; [|set_solver].
    unfold step. destruct (latencyOf r name =? 0); [done|].
    destruct (_ || _); [|done]. right. cbn. set_solver. }
  specialize (Hfold available (0, ""%string)).
  destruct (fold_left step available (0, ""%string)) as [minLatency selected].
  destruct (String.eqb_spec selected "") as [->|Hne]; [apply first_picks|].
  intros op [= <-]. exists selected. split; [|done].
  destruct Hfold as [?|?]; [by left | done | done | done].
Qed.

Lemma costLoop_selected (r : Router) (model : string) (available names : list string) :
  forall (i : nat) (st st' : float64 * string),
    names ⊆ available ->
    (st.2 = ""%string \/ st.2 ∈ available) ->
    costLoop r model i names st = Some st' ->
    st'.2 = ""%string \/ st'.2 ∈ available.
Proof.
  induction names as [|name names IH]; intros i st st' Hsub Hst; cbn [costLoop].
  - by intros [= <-].
  - destruct (providers r !! name) as [provider|]; [|done].
    apply IH; [set_solver|].
    assert (name ∈ available) as Hname by set_solver.
    clear -Hst Hname. revert st Hst.
    induction (Models provider) as [|m ms IHm]; intros st Hst; [done|].
    cbn [fold_left]. apply IHm. destruct st as [minCost selected]. unfold costScan.
    destruct (_ && _); [done|]. destruct (_ || _); [by right | done].
Qed.

Lemma leastCostSelect_picks (r : Router) (available : list string) (model : string) :
  picks r available (leastCostSelect r available model).
Proof.
  unfold leastCostSelect.
  destruct (costLoop r model 0 available (0%f64, ""%string)) as [[minCost selected]|] eqn:Hloop;
    [|done].
  apply (costLoop_selected r model available) in Hloop; [|done|by left].
  destruct (String.eqb_spec selected "") as [->|Hne]; [apply first_picks|].
  intros op [= <-]. exists selected. split; [|done]. by destruct Hloop.
Qed.

Lemma weightedPick_elem_of (r : Router) (names : list string) :
  forall (target current : Z) (name : string),
    weightedPick r target current names = Some name -> name ∈ names.
Proof.
  induction names as [|n names IH]; intros target current name; cbn [weightedPick]; [done|].
  destruct (target <? _).
  - intros [= <-]. by left.
  - intros Hpick. right. by eapply IH.
Qed.

Lemma weightedSelect_picks (r : Router) (rnd : Z) (available : list string) :
  picks r available (weightedSelect r rnd available).
Proof.
  unfold weightedSelect. destruct (_ =? 0); [apply first_picks|].
  destruct (rand_Intn rnd _) as [target|]; [|done].
  destruct (weightedPick r target 0 available) as [name|] eqn:Hpick; [|apply first_picks].
  intros op [= <-]. exists name. split; [by eapply weightedPick_elem_of | done].
Qed.

(** What a successful selection returns, on any router: the provider that
    [providers] binds to some name (nil when the name is unbound), the name
    being listed or bound, and marked healthy when health checks are on. *)
Lemma selectProvider_chooses (r r1 : Router) (rnd : Z) (req : CompletionRequest)
  (op : option Provider) :
  selectProvider r rnd req = Ok (op, r1) ->
  exists name,
    op = providers r !! name
    /\ (name ∈ providerList r \/ is_Some (providers r !! name))
    /\ (healthCheck r = true -> isHealthy r name = true).
Proof.
  assert (forall name, eligible r name -> op = providers r !! name ->
            exists name, op = providers r !! name
              /\ (name ∈ providerList r \/ is_Some (providers r !! name))
              /\ (healthCheck r = true -> isHealthy r name = true)) as Hfound.
  { intros name [Hin Hhealthy] ->. exists name. split; [done|]. split; [by left | done]. }
  assert (forall o : outcome (option Provider),
            picks r (getHealthyProviders r) o ->
            match o with Ok p => Ok (p, r) | Err err => Err err | Panic => Panic end
            = Ok (op, r1) ->
            exists name, op = providers r !! name
              /\ (name ∈ providerList r \/ is_Some (providers r !! name))
              /\ (healthCheck r = true -> isHealthy r name = true)) as Hkeep.
  { intros [op'|err|] Hpicks Heq; try done. injection Heq as -> _.
    destruct (Hpicks op eq_refl) as (name & Hin & ->).
    eapply Hfound; [by apply getHealthyProviders_eligible | done]. }
  assert (roundRobinSelect r (getHealthyProviders r) = Ok (op, r1) ->
            exists name, op = providers r !! name
              /\ (name ∈ providerList r \/ is_Some (providers r !! name))
              /\ (healthCheck r = true -> isHealthy r name = true)) as Hrr.
  { intros (name & Hin & ->)%roundRobinSelect_picks.
    eapply Hfound; [by apply getHealthyProviders_eligible | done]. }
  unfold selectProvider.
  set (byStrategy := if len (getHealthyProviders r) =? 0 then _ else _).
  assert (byStrategy = Ok (op, r1) ->
            exists name, op = providers r !! name
              /\ (name ∈ providerList r \/ is_Some (providers r !! name))
              /\ (healthCheck r = true -> isHealthy r name = true)) as Hby.
  { subst byStrategy. destruct (len (getHealthyProviders r) =? 0); [done|].
    destruct (String.eqb _ StrategyRoundRobin); [done|].
    destruct (String.eqb _ StrategyRandom); [apply Hkeep, randomSelect_picks|].
    destruct (String.eqb _ StrategyLeastLatency); [apply Hkeep, leastLatencySelect_picks|].
    destruct (String.eqb _ StrategyLeastCost); [apply Hkeep, leastCostSelect_picks|].
    destruct (String.eqb _ StrategyWeighted); [apply Hkeep, weightedSelect_picks|].
    destruct (String.eqb _ StrategyFallback); [|done].
    unfold fallbackSelect.
    destruct (find _ (providerList r)) as [name|] eqn:Hfind; [|done].
    intros [= <- _]. apply find_some in Hfind as [Hin Hhealthy].
    apply (Hfound name); [|done]. split; [by apply list_elem_of_In | done]. }
  destruct (len (providerList r) =? 0); [done|].
  destruct (negb (String.eqb (reqModel req) "")); [|done].
  destruct (modelMap r !! reqModel req) as [provName|]; [|done].
  destruct (providers r !! provName) as [provider|] eqn:Hprov; [|done].
  destruct (healthCheck r) eqn:Hcheck; cbn [negb orb].
  - destruct (isHealthy r provName) eqn:Hhealthy; [|done].
    intros [= <- _]. exists provName. rewrite Hprov. split; [done|]. split; [by right | done].
  - intros [= <- _]. exists provName. rewrite Hprov. split; [done|]. split; [by right | done].
Qed.

(** X1. On a registry as [New], [Register] and [Unregister] keep it, a
    selection that succeeds returns a provider, never nil: one bound to a
    registered name, and when health checks are on to a name that is marked
    healthy. This holds for the model match and for every strategy. *)
Theorem selectProvider_registered_healthy (r r1 : Router) (rnd : Z)
  (req : CompletionRequest) (op : option Provider) :
  registry_ok r ->
  selectProvider r rnd req = Ok (op, r1) ->
  exists name p,
    op = Some p
    /\ providers r !! name = Some p
    /\ name ∈ providerList r
    /\ (healthCheck r = true -> isHealthy r name = true).
Proof.
  intros Hok (name & -> & Hwhere & Hhealthy)%selectProvider_chooses.
  assert (name ∈ providerList r) as Hin.
  { destruct Hwhere as [?|?]; [done | by apply Hok]. }
  destruct (proj2 (Hok name) Hin) as [p Hp]. by exists name, p.
Qed.

End Selection.

(** *** Round robin *)

(** [k] selections one after the other, each on the router the one before left. *)
Fixpoint selectMany (k : nat) (r : router.Router) (rnd : Z) (req : llm.CompletionRequest)
  : outcome (list (option llm.Provider) * router.Router) :=
  match k with
  | O => Ok ([], r)
  | S k =>
      match router.selectProvider r rnd req with
      | Ok (p, r) =>
          match selectMany k r rnd req with
          | Ok (ps, r) => Ok (p :: ps, r)
          | Err err => Err err
          | Panic => Panic
          end
      | Err err => Err err
      | Panic => Panic
      end
  end.

(** The provider whose turn it is [j] selections from now: the one
    registered at position [(rrIndex + j) mod n]. *)
Definition turn (r : router.Router) (j : Z) : option llm.Provider :=
  router.index (router.providerList r)
    ((router.rrIndex r + j) mod len (router.providerList r))
  ≫= (fun name => router.providers r !! name).

Section Round_robin.
Import llm router.

Lemma index_is_Some {A : Type} (s : list A) (i : Z) :
  0 <= i < len s -> exists x, index s i = Some x.
Proof.
  intros Hi. unfold index. destruct (Z.ltb_spec i 0); [lia|].
  apply lookup_lt_is_Some. unfold len in Hi. lia.
Qed.

Lemma len_pos {A : Type} (s : list A) : s <> [] -> 0 < len s.
Proof. destruct s; [done|]. intros _. unfold len. cbn [length]. lia. Qed.

Lemma setRRIndex_same (r : Router) : setRRIndex r (rrIndex r) = r.
Proof. by destruct r. Qed.

Lemma roundRobin_step (r : Router) (rnd : Z) (req : CompletionRequest) :
  strategy r = StrategyRoundRobin -> healthCheck r = false -> reqModel req = ""%string ->
  providerList r <> [] -> 0 <= rrIndex r < 2 ^ 63 - 1 ->
  selectProvider r rnd req = Ok (turn r 0, setRRIndex r (rrIndex r + 1)).
Proof.
  intros Hstrategy Hcheck Hmodel Hne Hcursor.
  pose proof (len_pos _ Hne) as Hlen.
  unfold selectProvider, getHealthyProviders, turn. rewrite Hstrategy, Hcheck, Hmodel.
  cbn [negb String.eqb]. destruct (Z.eqb_spec (len (providerList r)) 0) as [?|_]; [lia|].
  change (String.eqb StrategyRoundRobin StrategyRoundRobin) with true. cbv iota.
  unfold roundRobinSelect.
  destruct (Z.eqb_spec (len (providerList r)) 0) as [?|_]; [lia|].
  rewrite Z.rem_mod_nonneg by lia. rewrite Z.add_0_r.
  destruct (index_is_Some (providerList r) (rrIndex r mod len (providerList r)))
    as [name Hname].
  { apply Z.mod_pos_bound. lia. }
  rewrite Hname. cbn [mbind option_bind].
  rewrite wrap64_small by lia.
  destruct (Z.ltb_spec (rrIndex r + 1) 0); [lia | done].
Qed.

(** X2. Under [round_robin], with health checks off and no model requested,
    [k] selections in a row return the providers registered at the
    positions [(i + j) mod n] for [j = 0 .. k-1], [i] being the cursor and
    [n] the number of registrations, and move the cursor to [i + k]; the
    cursor is supposed non-negative and below [2^63 - k]. *)
Theorem roundRobin_rotation (k : nat) (r : Router) (rnd : Z) (req : CompletionRequest) :
  strategy r = StrategyRoundRobin -> healthCheck r = false -> reqModel req = ""%string ->
  providerList r <> [] -> 0 <= rrIndex r -> rrIndex r + Z.of_nat k < 2 ^ 63 ->
  selectMany k r rnd req
  = Ok (map (fun j => turn r (Z.of_nat j)) (seq 0 k),
        setRRIndex r (rrIndex r + Z.of_nat k)).
Proof.
  revert r. induction k as [|k IH]; intros r Hstrategy Hcheck Hmodel Hne Hlow Hhigh.
  - cbn [selectMany seq map]. by rewrite Z.add_0_r, setRRIndex_same.
  - cbn [selectMany]. rewrite roundRobin_step by (done || lia).
    rewrite IH; cbn [strategy healthCheck providerList rrIndex setRRIndex];
      [|done|done|done|done|lia|lia].
    cbn [seq map]. f_equal. f_equal.
    + f_equal. rewrite <- seq_shift, map_map. apply map_ext. intros j.
      unfold turn. cbn [providerList providers rrIndex setRRIndex].
      replace (rrIndex r + 1 + Z.of_nat j) with (rrIndex r + Z.of_nat (S j)) by lia. done.
    + unfold setRRIndex. cbn [providers providerList weights modelMap strategy fallback
        healthCheck healthy latencies rrIndex]. f_equal. lia.
Qed.

End Round_robin.

(** *** The fallback strategy *)

Section Fallback_strategy.
Import llm router.

Lemma find_first {A : Type} (f : A -> bool) (pre post : list A) (x : A) :
  Forall (fun y => f y = false) pre -> f x = true -> find f (pre ++ x :: post) = Some x.
Proof.
  induction 1 as [|y pre Hy _ IH]; intros Hx; cbn [app find].
  - by rewrite Hx.
  - rewrite Hy. by apply IH.
Qed.

Lemma find_none_Forall {A : Type} (f : A -> bool) (l : list A) :
  Forall (fun y => f y = false) l -> find f l = None.
Proof. induction 1 as [|y l Hy _ IH]; cbn [find]; [done|]. by rewrite Hy. Qed.

(** X3. Under the [fallback] strategy, with no model requested, selection
    returns the first provider in registration order that is marked healthy,
    whether health checks are on or off. When checks are off and no
    registered provider is marked healthy it fails with
    [no healthy providers]. *)
Theorem fallbackStrategy_first_marked_healthy (r : Router) (rnd : Z)
  (req : CompletionRequest) :
  strategy r = StrategyFallback -> reqModel req = ""%string ->
  (forall pre name post,
     providerList r = pre ++ name :: post ->
     Forall (fun n => isHealthy r n = false) pre -> isHealthy r name = true ->
     selectProvider r rnd req = Ok (providers r !! name, r))
  /\ (providerList r <> [] -> healthCheck r = false ->
      Forall (fun n => isHealthy r n = false) (providerList r) ->
      selectProvider r rnd req = Err "no healthy providers"%string).
Proof.
  intros Hstrategy Hmodel.
  assert (forall available, available <> [] -> providerList r <> [] ->
            getHealthyProviders r = available ->
            selectProvider r rnd req
            = match find (fun name => isHealthy r name) (providerList r) with
              | Some name => Ok (providers r !! name, r)
              | None => Err "no healthy providers"%string
              end) as Hrun.
  { intros available Hav Hne Heq. unfold selectProvider. rewrite Hmodel, Heq, Hstrategy.
    cbn [negb String.eqb].
    pose proof (len_pos _ Hav). pose proof (len_pos _ Hne).
    destruct (Z.eqb_spec (len (providerList r)) 0) as [?|_]; [lia|].
    destruct (Z.eqb_spec (len available) 0) as [?|_]; [lia|].
    change (String.eqb StrategyFallback StrategyRoundRobin) with false.
    change (String.eqb StrategyFallback StrategyRandom) with false.
    change (String.eqb StrategyFallback StrategyLeastLatency) with false.
    change (String.eqb StrategyFallback StrategyLeastCost) with false.
    change (String.eqb StrategyFallback StrategyWeighted) with false.
    change (String.eqb StrategyFallback StrategyFallback) with true.
    cbv iota. unfold fallbackSelect. by destruct (find _ _). }
  split.
  - intros pre name post Hlist Hpre Hname.
    rewrite (Hrun (getHealthyProviders r)); [|  | |done].
    + rewrite Hlist. by rewrite (find_first _ pre post name).
    + unfold getHealthyProviders. rewrite Hlist.
      destruct (healthCheck r); cbn [negb]; [|by destruct pre].
      intros Hnil. assert (name ∈ filter (fun n => isHealthy r n = true)
                                    (pre ++ name :: post)) as Hin.
      { apply list_elem_of_filter. split; [done|]. set_solver. }
      rewrite Hnil in Hin. by apply elem_of_nil in Hin.
    + rewrite Hlist. by destruct pre.
  - intros Hne Hcheck Hall.
    rewrite (Hrun (providerList r)); [|done|done|].
    + by rewrite find_none_Forall.
    + unfold getHealthyProviders. by rewrite Hcheck.
Qed.

End Fallback_strategy.

(** *** Least latency *)

Section Least_latency.
Import llm router.

(** The state of the loop of [leastLatencySelect] after the names [seen]. *)
Definition latencyInv (r : Router) (seen : list string) (st : Duration * string) : Prop :=
  (st.2 = ""%string /\ Forall (fun n => latencyOf r n = 0) seen)
  \/ (st.2 ∈ seen /\ latencyOf r st.2 = st.1 /\ st.1 <> 0
      /\ Forall (fun n => latencyOf r n <> 0 -> st.1 <= latencyOf r n) seen).

Lemma latencyInv_step (r : Router) (seen : list string) (st : Duration * string)
  (name : string) :
  name <> ""%string -> ""%string ∉ seen ->
  latencyInv r seen st ->
  latencyInv r (seen ++ [name])
    (let '(minLatency, selected) := st in
     let latency := latencyOf r name in
     if latency =? 0 then (minLatency, selected)
     else if String.eqb selected "" || (latency <? minLatency)
     then (latency, name)
     else (minLatency, selected)).
Proof.
  intros Hname Hseen. destruct st as [minLatency selected]. unfold latencyInv. cbn [fst snd].
  destruct (Z.eqb_spec (latencyOf r name) 0) as [Hzero|Hrec].
  - intros [[-> Hall]|(Hin & Hmin & Hne & Hall)]; cbn [fst snd].
    + left. split; [done|]. apply Forall_app. split; [done|]. by constructor.
    + right. split; [set_solver|]. split; [done|]. split; [done|].
      apply Forall_app. split; [done|]. constructor; [|done]. intros ?. done.
  - intros [[-> Hall]|(Hin & Hmin & Hne & Hall)].
    + cbn [String.eqb orb fst snd]. right. split; [set_solver|]. split; [done|].
      split; [done|]. apply Forall_app. split.
      * eapply Forall_impl; [exact Hall|]. intros n Hn ?. done.
      * constructor; [|done]. intros _. lia.
    + destruct (String.eqb_spec selected "") as [->|_]; cbn [orb]; [done|].
      destruct (Z.ltb_spec (latencyOf r name) minLatency) as [Hless|Hge]; cbn [fst snd].
      * right. split; [set_solver|]. split; [done|]. split; [done|].
        apply Forall_app. split.
        -- eapply Forall_impl; [exact Hall|]. intros n Hn ?. specialize (Hn ltac:(done)). lia.
        -- constructor; [|done]. intros _. lia.
      * right. split; [set_solver|]. split; [done|]. split; [done|].
        apply Forall_app. split; [done|]. constructor; [|done]. intros _. lia.
Qed.

(** X4. [leastLatencySelect], given names none of which is the empty string,
    answers with the provider of one of them: the first name when no name
    has a recorded latency, otherwise a name whose recorded latency is the
    least among the recorded (non-zero) ones. *)
Theorem leastLatencySelect_least (r : Router) (available : list string) :
  available <> [] -> ""%string ∉ available ->
  exists name,
    name ∈ available
    /\ leastLatencySelect r available = Ok (providers r !! name)
    /\ (Forall (fun n => latencyOf r n = 0) available -> head available = Some name)
    /\ (forall n, n ∈ available -> latencyOf r n <> 0 ->
        latencyOf r name <> 0 /\ latencyOf r name <= latencyOf r n).
Proof.
  intros Hne Hnames. unfold leastLatencySelect.
  set (step := fun '(minLatency, selected) name => _).
  assert (forall names seen st,
            seen ++ names = available -> latencyInv r seen st ->
            latencyInv r available (fold_left step names st)) as Hfold.
  { induction names as [|name names IH]; intros seen st Heq Hinv.
    - rewrite app_nil_r in Heq. by subst seen.
    - cbn [fold_left]. apply (IH (seen ++ [name])).
      + by rewrite <- app_assoc.
      + assert (name <> ""%string) as Hname.
        { intros ->. apply Hnames. rewrite <- Heq. set_solver. }
        assert (""%string ∉ seen) as Hseen.
        { intros Hin. apply Hnames. rewrite <- Heq. set_solver. }
        pose proof (latencyInv_step r seen st name Hname Hseen Hinv) as Hstep.
        by destruct st. }
  specialize (Hfold available [] (0, ""%string) eq_refl).
  destruct (fold_left step available (0, ""%string)) as [minLatency selected].
  destruct Hfold as [[Hsel Hall]|(Hin & Hmin & Hnz & Hall)]; cbn [fst snd] in *.
  { left. split; [done|constructor]. }
  - subst selected. cbn [String.eqb].
    destruct available as [|first rest]; [done|]. cbn [index Z.ltb Z.compare Z.to_nat].
    exists first. split; [by left|]. split; [done|]. split; [done|].
    intros n Hn Hrec. exfalso. apply Hrec.
    by apply (proj1 (Forall_forall _ _) Hall).
  - destruct (String.eqb_spec selected "") as [->|_]; [done|].
    exists selected. split; [done|]. split; [done|]. split.
    + intros Hzero. exfalso. apply Hnz. rewrite <- Hmin.
      by apply (proj1 (Forall_forall _ _) Hzero).
    + intros n Hn Hrec. rewrite Hmin. split; [done|].
      by apply (proj1 (Forall_forall _ _) Hall).
Qed.

End Least_latency.

(** *** Weighted selection *)

(** The sum of the weights of a list of names. *)
Definition sumWeights (r : router.Router) (names : list string) : Z :=
  foldr (fun name total => router.weightOf r name + total) 0 names.

Section Weighted.
Import llm router.

Lemma sumWeights_nonneg (r : Router) (names : list string) :
  Forall (fun n => 0 <= weightOf r n) names -> 0 <= sumWeights r names.
Proof.
  induction 1 as [|n names Hn _ IH]; cbn [sumWeights foldr]; [lia|].
  fold (sumWeights r names). lia.
Qed.

Lemma totalWeight_sum (r : Router) (names : list string) :
  Forall (fun n => 0 <= weightOf r n) names ->
  forall total, 0 <= total -> total + sumWeights r names < 2 ^ 63 ->
    fold_left (fun total name => wrap64 (total + weightOf r name)) names total
    = total + sumWeights r names.
Proof.
  induction 1 as [|n names Hn Hall IH]; intros total Hlow Hhigh;
    cbn [fold_left sumWeights foldr] in *; [lia|].
  fold (sumWeights r names) in *.
  pose proof (sumWeights_nonneg r names Hall).
  rewrite wrap64_small by lia. rewrite IH by lia. lia.
Qed.

Lemma weightedPick_interval (r : Router) (names : list string) :
  Forall (fun n => 0 <= weightOf r n) names ->
  forall target current,
    0 <= current -> current + sumWeights r names < 2 ^ 63 ->
    current <= target < current + sumWeights r names ->
    exists pre name post,
      names = pre ++ name :: post
      /\ weightedPick r target current names = Some name
      /\ current + sumWeights r pre <= target
         < current + sumWeights r pre + weightOf r name.
Proof.
  induction 1 as [|n names Hn Hall IH]; intros target current Hlow Hhigh Htarget;
    cbn [weightedPick sumWeights foldr] in *; [lia|].
  fold (sumWeights r names) in *.
  pose proof (sumWeights_nonneg r names Hall).
  rewrite wrap64_small by lia.
  destruct (Z.ltb_spec target (current + weightOf r n)) as [Hhit|Hmiss].
  - exists [], n, names. cbn [app sumWeights foldr]. split; [done|]. split; [done|]. lia.
  - destruct (IH target (current + weightOf r n)) as (pre & name & post & -> & Hpick & Hint);
      [lia|lia|lia|].
    exists (n :: pre), name, post. split; [done|]. split; [done|].
    cbn [sumWeights foldr]. fold (sumWeights r pre). lia.
Qed.

(** X5. [weightedSelect], when no weight is negative and the weights of the
    available names add up to a positive total below [2^63], answers with
    the provider of the name whose interval of the running sum holds the
    draw [rnd mod total]: the weights before it add up to at most the draw,
    and with its own weight to more. A name of weight 0 is never chosen. *)
Theorem weightedSelect_by_interval (r : Router) (rnd : Z) (available : list string) :
  Forall (fun n => 0 <= weightOf r n) available ->
  0 < sumWeights r available < 2 ^ 63 ->
  exists pre name post,
    available = pre ++ name :: post
    /\ weightedSelect r rnd available = Ok (providers r !! name)
    /\ sumWeights r pre <= rnd mod sumWeights r available
       < sumWeights r pre + weightOf r name
    /\ 0 < weightOf r name.
Proof.
  intros Hall Htotal. unfold weightedSelect.
  rewrite (totalWeight_sum r available Hall 0) by lia. rewrite Z.add_0_l.
  destruct (Z.eqb_spec (sumWeights r available) 0) as [?|_]; [lia|].
  unfold rand_Intn. destruct (Z.ltb_spec 0 (sumWeights r available)) as [_|?]; [|lia].
  pose proof (Z.mod_pos_bound rnd (sumWeights r available) ltac:(lia)) as Hdraw.
  destruct (weightedPick_interval r available Hall (rnd mod sumWeights r available) 0)
    as (pre & name & post & Heq & Hpick & Hint); [lia|lia|lia|].
  rewrite Hpick. exists pre, name, post. split; [done|]. split; [done|]. lia.
Qed.

End Weighted.

(** *** The registry: [Register] and [Unregister] *)

Section Registering.
Import llm router.

(** X6. [Register] never changes the provider that a model id is mapped to:
    an id that was mapped keeps its owner, an unmapped id that the new
    provider offers is mapped to the new name, and every other id stays
    unmapped. *)
Theorem Register_first_owner_keeps_model (r : Router) (name : string) (p : Provider)
  (id : string) :
  modelMap (Register r name p) !! id
  = match modelMap r !! id with
    | Some owner => Some owner
    | None => if bool_decide (id ∈ map ID (Models p)) then Some name else None
    end.
Proof.
  unfold Register. cbn [modelMap]. generalize (modelMap r).
  induction (Models p) as [|model models IH]; intros mm; cbn [fold_left map].
  - destruct (mm !! id); [done|]. rewrite bool_decide_eq_false_2; [done|]. apply not_elem_of_nil.
  - rewrite IH. destruct (mm !! ID model) as [owner|] eqn:Hmodel.
    + destruct (mm !! id) as [owner'|] eqn:Hid; [done|].
      assert (id <> ID model) as Hne by congruence.
      assert (bool_decide (id ∈ ID model :: map ID models)
              = bool_decide (id ∈ map ID models)) as ->; [|done].
      apply bool_decide_ext. set_solver.
    + destruct (decide (id = ID model)) as [->|Hne].
      * rewrite lookup_insert_eq, Hmodel. rewrite bool_decide_eq_true_2; [done|]. set_solver.
      * rewrite lookup_insert_ne by done. destruct (mm !! id); [done|].
        assert (bool_decide (id ∈ ID model :: map ID models)
                = bool_decide (id ∈ map ID models)) as ->; [|done].
        apply bool_decide_ext. set_solver.
Qed.

(** The model mapping after [Register], the new name's own entries left out. *)
Lemma autoMap_others (name : string) (models : list ModelInfo) :
  forall mm : gmap string string,
    filter (fun kv => kv.2 <> name)
      (fold_left
         (fun mm model =>
            match mm !! ID model with
            | Some _ => mm
            | None => <[ID model := name]> mm
            end)
         models mm)
    = filter (fun kv => kv.2 <> name) mm.
Proof.
  induction models as [|model models IH]; intros mm; cbn [fold_left]; [done|].
  rewrite IH. destruct (mm !! ID model) as [owner|] eqn:Hmodel; [done|].
  apply map_filter_insert_not'.
  - cbn. intros Hne. by apply Hne.
  - intros y Hy. congruence.
Qed.

(** A name that the router has never seen: in no map, not in the list, and
    the owner of no model. *)
Definition unknown (r : Router) (name : string) : Prop :=
  providers r !! name = None
  /\ name ∉ providerList r
  /\ weights r !! name = None
  /\ healthy r !! name = None
  /\ latencies r !! name = None
  /\ (forall id, modelMap r !! id <> Some name).

(** X7. Registering a provider under a name that the router has never seen
    and unregistering that name gives the router back as it was: maps,
    list and model mapping. [Unregister] on a router with an empty list
    panics. *)
Theorem Unregister_undoes_Register (r : Router) (name : string) (p : Provider) :
  (providerList r = [] -> tryUnregister r name = Panic)
  /\ (unknown r name -> tryUnregister (Register r name p) name = Ok r).
Proof.
  split.
  { intros Hnil. unfold tryUnregister. by rewrite Hnil. }
  intros (Hprov & Hlist & Hweight & Hhealthy & Hlat & Hmap).
  unfold tryUnregister.
  assert (len (providerList (Register r name p)) =? 0 = false) as ->.
  { cbn [Register providerList]. unfold len. rewrite length_app. cbn [length].
    apply Z.eqb_neq. lia. }
  f_equal. destruct r as [ps pl ws mm st fb hc hs ls rr].
  unfold Unregister, Register. cbn [providers providerList weights modelMap strategy fallback
    healthCheck healthy latencies rrIndex] in *.
  f_equal.
  - by apply delete_insert_id.
  - rewrite filter_app. rewrite filter_cons_False by (intros Hne; by apply Hne).
    rewrite filter_nil, app_nil_r.
    clear -Hlist. induction pl as [|n pl IH]; [done|].
    rewrite filter_cons_True by set_solver. f_equal. apply IH. set_solver.
  - rewrite Hweight. by apply delete_insert_id.
  - rewrite autoMap_others. apply map_filter_id. intros id owner Hid. cbn.
    intros ->. by apply (Hmap id).
  - by apply delete_insert_id.
  - by apply delete_id.
Qed.

End Registering.

(** *** The router's own list of models *)

Section Router_models.
Import llm router.

(** The state of the loops of [Models]: the ids seen are the ids of the
    models collected, each once. *)
Definition collected (st : list ModelInfo * gset string) : Prop :=
  NoDup (map ID st.1) /\ forall id, id ∈ st.2 <-> id ∈ map ID st.1.

Lemma collectModel_spec (models : list ModelInfo) :
  forall st, collected st ->
    let st' := fold_left RouterProvider.collectModel models st in
    collected st'
    /\ (forall m, m ∈ st'.1 -> m ∈ st.1 \/ m ∈ models)
    /\ (forall m, m ∈ st.1 -> m ∈ st'.1)
    /\ (forall m, m ∈ models -> ID m ∈ st'.2).
Proof.
  induction models as [|model models IH]; intros st Hst; cbn [fold_left].
  - split; [done|]. split; [by left|]. split; [done|]. intros m Hm. by apply elem_of_nil in Hm.
  - set (st1 := RouterProvider.collectModel st model).
    assert (collected st1 /\ (forall m, m ∈ st1.1 -> m ∈ st.1 \/ m = model)
            /\ (forall m, m ∈ st.1 -> m ∈ st1.1) /\ ID model ∈ st1.2) as (H1 & Hfrom & Hkeep & Hseen).
    { subst st1. destruct st as [ms seen]. destruct Hst as [Hnodup Hids].
      unfold RouterProvider.collectModel. cbn [fst snd] in *.
      destruct (bool_decide_reflect (ID model ∈ seen)) as [Hin|Hnot];
        unfold collected; cbn [fst snd].
      - split; [done|]. split; [by left|]. done.
      - split; [split|].
        + rewrite map_app. cbn [map]. apply NoDup_app. split; [done|].
          split; [|apply NoDup_singleton].
          intros id Hid ->%list_elem_of_singleton. apply Hnot. by apply Hids.
        + intros id. rewrite map_app. cbn [map]. rewrite elem_of_union, elem_of_app, Hids.
          rewrite list_elem_of_singleton, elem_of_singleton. tauto.
        + split; [|split]; [| |set_solver].
          * intros m [?|Hm]%elem_of_app; [by left|].
            apply list_elem_of_singleton in Hm. by right.
          * intros m Hm. apply elem_of_app. by left. }
    destruct (IH st1 H1) as (H2 & Hfrom' & Hkeep' & Hseen').
    split; [done|]. split; [|split].
    + intros m Hm. destruct (Hfrom' m Hm) as [Hm1|Hm1]; [|right; by right].
      destruct (Hfrom m Hm1) as [?| ->]; [by left | right; by left].
    + intros m Hm. by apply Hkeep', Hkeep.
    + intros m [->|Hm]%elem_of_cons; [|by apply Hseen'].
      destruct H2 as [_ Hids2]. apply Hids2. destruct H1 as [_ Hids1].
      apply Hids1 in Hseen. apply list_elem_of_fmap in Hseen as (m0 & -> & Hm0).
      apply list_elem_of_fmap. exists m0. split; [done|]. by apply Hkeep'.
Qed.

(** X8. [Models] lists every model id that a visited provider offers exactly
    once: no id occurs twice, each listed model is a model of a registered
    provider, and the id of each model of each registered provider that the
    visit meets is listed. *)
Theorem Models_each_id_once (r : Router) (visit : list string) :
  NoDup (map ID (RouterProvider.Models r visit))
  /\ (forall m, m ∈ RouterProvider.Models r visit ->
      exists name p, name ∈ visit /\ providers r !! name = Some p /\ m ∈ Models p)
  /\ (forall name p m,
        name ∈ visit -> providers r !! name = Some p -> m ∈ Models p ->
        ID m ∈ map ID (RouterProvider.Models r visit)).
Proof.
  unfold RouterProvider.Models.
  set (step := fun st name => _).
  assert (forall names st, collected st ->
            let st' := fold_left step names st in
            collected st'
            /\ (forall m, m ∈ st'.1 -> m ∈ st.1
                \/ exists name p, name ∈ names /\ providers r !! name = Some p /\ m ∈ Models p)
            /\ (forall m, m ∈ st.1 -> m ∈ st'.1)
            /\ (forall name p m, name ∈ names -> providers r !! name = Some p ->
                  m ∈ Models p -> ID m ∈ st'.2)) as Hfold.
  { induction names as [|name names IH]; intros st Hst; cbn [fold_left].
    - split; [done|]. split; [by left|]. split; [done|].
      intros name p m Hin. by apply elem_of_nil in Hin.
    - set (st1 := step st name).
      assert (collected st1
              /\ (forall m, m ∈ st1.1 -> m ∈ st.1
                  \/ exists p, providers r !! name = Some p /\ m ∈ Models p)
              /\ (forall m, m ∈ st.1 -> m ∈ st1.1)
              /\ (forall p m, providers r !! name = Some p -> m ∈ Models p -> ID m ∈ st1.2))
        as (H1 & Hfrom & Hkeep & Hseen).
      { subst st1. unfold step. destruct (providers r !! name) as [p|].
        2:{ split; [done|]. split; [by left|]. split; [done|]. intros p m Hp. done. }
        destruct (collectModel_spec (Models p) st Hst) as (H1 & Hfrom & Hkeep & Hseen).
        split; [done|]. split; [|split]; [|done|].
        - intros m Hm. destruct (Hfrom m Hm) as [?|?]; [by left|]. right. by exists p.
        - intros p' m [= <-]. apply Hseen. }
      destruct (IH st1 H1) as (H2 & Hfrom' & Hkeep' & Hseen').
      split; [done|]. split; [|split].
      + intros m Hm. destruct (Hfrom' m Hm) as [Hm1|(n & p & Hn & Hp & Hmp)].
        * destruct (Hfrom m Hm1) as [?|(p & Hp & Hmp)]; [by left|].
          right. exists name, p. split; [by left | done].
        * right. exists n, p. split; [by right | done].
      + intros m Hm. by apply Hkeep', Hkeep.
      + intros n p m [->|Hn]%elem_of_cons Hp Hmp; [|by eapply Hseen'].
        destruct H2 as [_ Hids2]. apply Hids2. destruct H1 as [_ Hids1].
        specialize (Hseen p m Hp Hmp). apply Hids1 in Hseen.
        apply list_elem_of_fmap in Hseen as (m0 & -> & Hm0).
        apply list_elem_of_fmap. exists m0. split; [done|]. by apply Hkeep'. }
  destruct (Hfold visit ([], ∅)) as ([Hnodup Hids] & Hfrom & _ & Hseen).
  { split; [constructor|]. intros id. cbn. set_solver. }
  split; [done|]. split.
  - intros m Hm. destruct (Hfrom m Hm) as [Hnil|?]; [|done]. by apply elem_of_nil in Hnil.
  - intros name p m Hname Hp Hm. apply Hids. by eapply Hseen.
Qed.

(** X9. [RouteByCapability] returns a provider that is bound to a visited
    name marked healthy and that has a model with the capability; it
    returns nil only when no visited name marked healthy is bound to a
    provider with such a model. *)
Theorem RouteByCapability_finds (r : Router) (visit : list string) (capability : string) :
  match RouteByCapability r visit capability with
  | Some p =>
      exists name m,
        name ∈ visit /\ providers r !! name = Some p /\ isHealthy r name = true
        /\ m ∈ Models p /\ HasFeature m capability = true
  | None =>
      forall name p m,
        name ∈ visit -> providers r !! name = Some p -> isHealthy r name = true ->
        m ∈ Models p -> HasFeature m capability = false
  end.
Proof.
  induction visit as [|name visit IH]; cbn [RouteByCapability].
  { intros name p m Hin. by apply elem_of_nil in Hin. }
  assert (forall skip : forall p m, providers r !! name = Some p -> isHealthy r name = true ->
                          m ∈ Models p -> HasFeature m capability = false,
            match RouteByCapability r visit capability with
            | Some p =>
                exists name0 m,
                  name0 ∈ name :: visit /\ providers r !! name0 = Some p
                  /\ isHealthy r name0 = true /\ m ∈ Models p /\ HasFeature m capability = true
            | None =>
                forall name0 p m,
                  name0 ∈ name :: visit -> providers r !! name0 = Some p ->
                  isHealthy r name0 = true -> m ∈ Models p -> HasFeature m capability = false
            end) as Hnext.
  { intros Hskip. destruct (RouteByCapability r visit capability) as [p|].
    - destruct IH as (name0 & m & Hin & ?). exists name0, m. split; [by right | done].
    - intros name0 p m [->|Hin]%elem_of_cons; [apply Hskip | by apply IH]. }
  destruct (providers r !! name) as [provider|] eqn:Hprov; [|by apply Hnext].
  destruct (isHealthy r name) eqn:Hhealthy; cbn [negb].
  2:{ apply Hnext. intros p m _ Hh. done. }
  destruct (existsb _ (Models provider)) eqn:Hhas.
  - apply existsb_exists in Hhas as (m & Hm & Hfeature).
    exists name, m. split; [by left|]. split; [done|]. split; [done|].
    split; [by apply list_elem_of_In | done].
  - apply Hnext. intros p m [= <-] _ Hm.
    destruct (HasFeature m capability) eqn:Hfeature; [|done].
    assert (existsb (fun model => HasFeature model capability) (Models provider) = true)
      as Hyes; [|congruence].
    apply existsb_exists. exists m. split; [by apply list_elem_of_In | done].
Qed.

End Router_models.

(** *** The calls that [Complete] and [Stream] make *)

(** The call that the router forwards to a provider: the given method, the
    caller's request as it was. *)
Definition forwarded (kind : llm.CallKind) (req : llm.CompletionRequest) (p : llm.Provider)
  : llm.Call :=
  {| llm.callee := llm.self p; llm.method := kind; llm.request := req |}.

Section Calls.
Import llm router.

Lemma selected_is_bound (r r1 : Router) (rnd : Z) (req : CompletionRequest) (p : Provider) :
  selectProvider r rnd req = Ok (Some p, r1) -> exists name, providers r !! name = Some p.
Proof. intros (name & Hp & _)%selectProvider_chooses. by exists name. Qed.

Lemma fallback_is_bound (r : Router) (fb : Provider) :
  fallbackProvider r = Some fb -> exists name, providers r !! name = Some fb.
Proof. intros [_ Hfb]%fallbackProvider_spec. by eexists. Qed.

(** X10. [Complete] and [Stream] only add calls to the log. When the
    selection fails they add none. Otherwise they call the selected
    provider, which is bound in the registry, with the caller's request
    unchanged; and when that call returns an error and a fallback is set and
    registered, they call the fallback once with the same request. They
    make no other call. *)
Theorem Complete_Stream_forward_at_most_twice (r : Router) (o : Oracle)
  (req : CompletionRequest) (log : list Call) :
  match selectProvider r (rnd o) req with
  | Ok (Some p, _) =>
      (exists name, providers r !! name = Some p)
      /\ (forall fb, fallbackProvider r = Some fb ->
            fallback r <> ""%string /\ providers r !! fallback r = Some fb)
      /\ (Complete r o req log).2
         = log ++ forwarded CallComplete req p
                  :: match pComplete p log req, fallbackProvider r with
                     | Err _, Some fb => [forwarded CallComplete req fb]
                     | _, _ => []
                     end
      /\ (Stream r o req log).2
         = log ++ forwarded CallStream req p
                  :: match pStream p log req, fallbackProvider r with
                     | Err _, Some fb => [forwarded CallStream req fb]
                     | _, _ => []
                     end
  | _ => (Complete r o req log).2 = log /\ (Stream r o req log).2 = log
  end.
Proof.
  unfold Complete, Stream.
  destruct (selectProvider r (rnd o) req) as [[[p|] r1]|err|] eqn:Hsel; try done.
  destruct (selectProvider_frame _ _ _ _ _ Hsel) as [i ->].
  split; [by eapply selected_is_bound|].
  split; [intros fb Hfb; by apply fallbackProvider_spec|].
  unfold llm.Complete, llm.doStream, forwarded. rewrite fallbackProvider_frame.
  replace (fallbackProvider (setRRIndex r i)) with (fallbackProvider r) by done.
  split.
  - destruct (pComplete p log req) as [resp|err|]; cbn [snd]; try done.
    destruct (fallbackProvider r) as [fb|]; cbn [snd]; [|done].
    by rewrite <- app_assoc.
  - destruct (pStream p log req) as [stream|err|]; cbn [snd]; try done.
    destruct (fallbackProvider r) as [fb|]; cbn [snd]; [|done].
    by rewrite <- app_assoc.
Qed.

(** The log after [Complete]: the log before, and at most two calls more. *)
Lemma Complete_log_grows (r : Router) (o : Oracle) (req : CompletionRequest)
  (log : list Call) :
  exists calls, (Complete r o req log).2 = log ++ calls /\ (length calls <= 2)%nat.
Proof.
  unfold Complete.
  destruct (selectProvider r (rnd o) req) as [[[p|] r1]|err|];
    try (exists []; rewrite app_nil_r; split; [done | cbn; lia]).
  unfold llm.Complete.
  destruct (pComplete p log req) as [resp|err|]; cbn [snd];
    try (eexists [_]; split; [done | cbn; lia]).
  destruct (fallbackProvider _) as [fb|]; cbn [snd].
  - eexists [_; _]. split; [by rewrite <- app_assoc | cbn; lia].
  - eexists [_]. split; [done | cbn; lia].
Qed.

Section Retry.
Context `{GoStd}.

Lemma retryLoop_bounded (os : Z -> Oracle) (req : CompletionRequest) (n : nat) :
  forall (i : Z) (r : Router) (log : list Call) (errors : gmap string error),
    let res := retryLoop n i r os req log errors in
    (exists calls, res.2 = log ++ calls /\ (length calls <= 2 * n)%nat)
    /\ (forall errors', res.1.1 = AllFailed errors' -> (size errors' <= size errors + n)%nat).
Proof.
  induction n as [|n IH]; intros i r log errors; cbn [retryLoop].
  - split.
    + exists []. rewrite app_nil_r. split; [done | cbn; lia].
    + intros errors' [= <-]. lia.
  - destruct (Complete_log_grows r (os i) req log) as (calls & Hlog & Hlen).
    destruct (Complete r (os i) req log) as [[[resp|err|] r1] log1]; cbn [fst snd] in *.
    + split; [|done]. exists calls. split; [done | lia].
    + specialize (IH (i + 1) r1 log1
                    (<[fmt_Sprintf "attempt_%d" [ArgD (i + 1)] := err]> errors)).
      cbn zeta in IH. destruct IH as [(calls' & Hlog' & Hlen') Herrors].
      split.
      * exists (calls ++ calls'). rewrite Hlog', Hlog, <- app_assoc. split; [done|].
        rewrite length_app. lia.
      * intros errors' Hres. specialize (Herrors errors' Hres).
        pose proof (map_size_insert (fmt_Sprintf "attempt_%d" [ArgD (i + 1)]) err errors)
          as Hsize.
        destruct (errors !! _); cbn in Hsize; lia.
    + split; [|done]. exists calls. split; [done | lia].
Qed.

(** X11. [ExecuteWithRetry] with [maxRetries <= 0] fails at once, with no
    error recorded and no call made. In general it makes at most
    [maxRetries] attempts: it adds at most two calls per attempt to the
    log, and when every attempt fails it reports at most [maxRetries]
    errors. *)
Theorem ExecuteWithRetry_bounded (r : Router) (os : Z -> Oracle) (req : CompletionRequest)
  (maxRetries : Z) (log : list Call) :
  (maxRetries <= 0 -> ExecuteWithRetry r os req maxRetries log = (AllFailed ∅, r, log))
  /\ (exists calls,
        (ExecuteWithRetry r os req maxRetries log).2 = log ++ calls
        /\ (length calls <= 2 * Z.to_nat maxRetries)%nat)
  /\ (forall errors,
        (ExecuteWithRetry r os req maxRetries log).1.1 = AllFailed errors ->
        (size errors <= Z.to_nat maxRetries)%nat).
Proof.
  unfold ExecuteWithRetry. split.
  { intros Hzero. replace (Z.to_nat maxRetries) with O by lia. done. }
  destruct (retryLoop_bounded os req (Z.to_nat maxRetries) 0 r log ∅) as [Hcalls Herrors].
  split; [done|]. intros errors Hres. specialize (Herrors errors Hres).
  rewrite map_size_empty in Herrors. lia.
Qed.

End Retry.

End Calls.

(** *** Concrete routers *)

(** [a] then [b], round robin, no health checks. *)
Definition routerRR : router.Router :=
  router.Register (router.Register (router.New []) "a" providerA) "b" providerB.

(** As [routerAB], under the fallback strategy, with [a] marked unhealthy. *)
Definition routerFallback : router.Router :=
  router.SetHealthy
    (router.Register
       (router.Register (router.New [router.WithStrategy router.StrategyFallback])
          "a" providerA)
       "b" providerB)
    "a" false.

(** [a] answered in 300 ns and [b] in 200 ns. *)
Definition routerTimed : router.Router :=
  router.recordLatency (router.recordLatency routerRR "a" 300) "b" 200.

(** [a] with weight 3 and [b] with weight 1. *)
Definition routerWeighted : router.Router :=
  router.Register
    (router.Register
       (router.New [router.WithStrategy router.StrategyWeighted;
                    router.WithWeights {[ "a"%string := 3; "b"%string := 1 ]}])
       "a" providerA)
    "b" providerB.

Lemma selectProvider_registered_healthy_witness :
  exists name p,
    Some providerB = Some p
    /\ router.providers routerAB !! name = Some p
    /\ name ∈ router.providerList routerAB
    /\ (router.healthCheck routerAB = true -> router.isHealthy routerAB name = true).
Proof.
  apply (selectProvider_registered_healthy routerAB routerAB 0 (ask "")).
  - do 2 apply registry_ok_Register. apply registry_ok_New.
  - vm_compute. reflexivity.
Defined.

Lemma roundRobin_rotation_witness :
  selectMany 3 routerRR 0 (ask "")
  = Ok (map (fun j => turn routerRR (Z.of_nat j)) (seq 0 3),
        router.setRRIndex routerRR (router.rrIndex routerRR + Z.of_nat 3)).
Proof.
  apply (roundRobin_rotation 3 routerRR 0 (ask "")).
  - reflexivity.
  - reflexivity.
  - reflexivity.
  - discriminate.
  - vm_compute. discriminate.
  - vm_compute. reflexivity.
Defined.

Lemma fallbackStrategy_first_marked_healthy_witness :
  router.selectProvider routerFallback 0 (ask "")
  = Ok (router.providers routerFallback !! "b"%string, routerFallback).
Proof.
  apply (proj1 (fallbackStrategy_first_marked_healthy routerFallback 0 (ask "")
                  eq_refl eq_refl) ["a"%string] "b"%string []).
  - reflexivity.
  - repeat constructor.
  - reflexivity.
Defined.

Lemma leastLatencySelect_least_witness :
  exists name,
    name ∈ ["a"; "b"]%string
    /\ router.leastLatencySelect routerTimed ["a"; "b"]%string
       = Ok (router.providers routerTimed !! name)
    /\ (Forall (fun n => router.latencyOf routerTimed n = 0) ["a"; "b"]%string ->
        head ["a"; "b"]%string = Some name)
    /\ (forall n, n ∈ ["a"; "b"]%string -> router.latencyOf routerTimed n <> 0 ->
        router.latencyOf routerTimed name <> 0
        /\ router.latencyOf routerTimed name <= router.latencyOf routerTimed n).
Proof.
  apply (leastLatencySelect_least routerTimed ["a"; "b"]%string).
  - discriminate.
  - apply (bool_decide_unpack _). vm_compute. exact I.
Defined.

Lemma weightedSelect_by_interval_witness :
  exists pre name post,
    ["a"; "b"]%string = pre ++ name :: post
    /\ router.weightedSelect routerWeighted 3 ["a"; "b"]%string
       = Ok (router.providers routerWeighted !! name)
    /\ sumWeights routerWeighted pre <= 3 mod sumWeights routerWeighted ["a"; "b"]%string
       < sumWeights routerWeighted pre + router.weightOf routerWeighted name
    /\ 0 < router.weightOf routerWeighted name.
Proof.
  apply (weightedSelect_by_interval routerWeighted 3 ["a"; "b"]%string).
  - repeat constructor; vm_compute; discriminate.
  - split; vm_compute; reflexivity.
Defined.

Lemma Unregister_undoes_Register_witness :
  router.tryUnregister (router.New []) "a" = Panic
  /\ router.tryUnregister (router.Register (router.New []) "a" providerA) "a"
     = Ok (router.New []).
Proof.
  split.
  - apply (proj1 (Unregister_undoes_Register (router.New []) "a" providerA)). reflexivity.
  - apply (proj2 (Unregister_undoes_Register (router.New []) "a" providerA)).
    unfold unknown. split_and!; try done. apply not_elem_of_nil.
Defined.

Lemma ExecuteWithRetry_bounded_witness :
  router.ExecuteWithRetry routerWithFallback (fun _ => oracle0) (ask "") 0 []
  = (router.AllFailed ∅, routerWithFallback, []).
Proof.
  apply (proj1 (ExecuteWithRetry_bounded routerWithFallback (fun _ => oracle0) (ask "") 0 [])).
  lia.
Defined.


(** ** The smart router: what a decision guarantees *)

Section Candidates.
Import llm router smart.

Lemma existsb_eqb_false (name : string) (names : list string) :
  existsb (fun excluded => String.eqb excluded name) names = false -> name ∉ names.
Proof.
  intros Hnone Hin. apply list_elem_of_In in Hin.
  assert (existsb (fun excluded => String.eqb excluded name) names = true) as Hyes; [|congruence].
  apply existsb_exists. exists name. split; [done | apply String.eqb_refl].
Qed.

Lemma isProviderExcluded_false (name : string) (ctx : RoutingContext) :
  isProviderExcluded name (Some ctx) = false -> name ∉ ExcludedProviders (Constraints ctx).
Proof.
  unfold isProviderExcluded.
  destruct (ExcludedProviders (Constraints ctx)) as [|e es] eqn:Hes.
  - intros _. apply not_elem_of_nil.
  - destruct (Z.eqb_spec (len (e :: es)) 0) as [Hzero|_]; [|apply existsb_eqb_false].
    unfold len in Hzero. cbn [length] in Hzero. lia.
Qed.

Lemma isModelExcluded_false (modelID : string) (ctx : RoutingContext) :
  isModelExcluded modelID (Some ctx) = false -> modelID ∉ ExcludedModels (Constraints ctx).
Proof.
  unfold isModelExcluded.
  destruct (ExcludedModels (Constraints ctx)) as [|e es] eqn:Hes.
  - intros _. apply not_elem_of_nil.
  - destruct (Z.eqb_spec (len (e :: es)) 0) as [Hzero|_]; [|apply existsb_eqb_false].
    unfold len in Hzero. cbn [length] in Hzero. lia.
Qed.

(** What [meetsCapabilityRequirements] demands of a model. *)
Definition capable (model : ModelInfo) (ctx : RoutingContext) : Prop :=
  Forall (fun cap => HasFeature model cap = true) (RequiredCapabilities ctx)
  /\ (RequireVision (Constraints ctx) = true -> HasFeature model FeatureVision = true)
  /\ (RequireFunctionCalling (Constraints ctx) = true ->
      HasFeature model FeatureFunctions = true)
  /\ (RequireStreaming (Constraints ctx) = true -> HasFeature model FeatureStreaming = true)
  /\ (RequireJSONMode (Constraints ctx) = true -> HasFeature model FeatureJSON = true).

Lemma meetsCapabilityRequirements_capable (model : ModelInfo) (ctx : RoutingContext) :
  meetsCapabilityRequirements model (Some ctx) = true -> capable model ctx.
Proof.
  unfold meetsCapabilityRequirements, capable.
  destruct (forallb _ (RequiredCapabilities ctx)) eqn:Hall; cbn [negb]; [|done].
  destruct (RequireVision _); destruct (HasFeature model FeatureVision); cbn [andb negb];
    try done;
  destruct (RequireFunctionCalling _); destruct (HasFeature model FeatureFunctions);
    cbn [andb negb]; try done;
  destruct (RequireStreaming _); destruct (HasFeature model FeatureStreaming);
    cbn [andb negb]; try done;
  destruct (RequireJSONMode _); destruct (HasFeature model FeatureJSON);
    cbn [andb negb]; try done;
  intros _; (split; [|done]);
  apply Forall_forall; intros cap Hcap; apply list_elem_of_In in Hcap;
  exact (proj1 (forallb_forall _ _) Hall cap Hcap).
Qed.

(** A candidate as [getCandidates] admits it. *)
Definition admitted (r : SmartRouter) (visit : list string) (ctx : option RoutingContext)
  (c : candidate) : Prop :=
  providerName c ∈ visit
  /\ providers (base r) !! providerName c = Some (provider c)
  /\ modelInfo c ∈ Models (provider c)
  /\ modelID c = ID (modelInfo c)
  /\ profile c = modelProfiles r !! modelID c
  /\ (healthCheck (base r) = true -> isHealthy (base r) (providerName c) = true)
  /\ isProviderExcluded (providerName c) ctx = false
  /\ isModelExcluded (modelID c) ctx = false
  /\ meetsCapabilityRequirements (modelInfo c) ctx = true.

Lemma getCandidates_admitted (r : SmartRouter) (visit : list string)
  (ctx : option RoutingContext) (c : candidate) :
  c ∈ getCandidates r visit ctx -> admitted r visit ctx c.
Proof.
  unfold getCandidates. rewrite list_elem_of_In, in_flat_map.
  intros (name & Hname & Hin). apply list_elem_of_In in Hname.
  destruct (providers (base r) !! name) as [p|] eqn:Hp; [|done].
  unfold candidatesOf in Hin.
  destruct (isProviderExcluded name ctx) eqn:Hexcluded; [done|].
  destruct (healthCheck (base r) && negb (isHealthy (base r) name)) eqn:Hhealth; [done|].
  apply list_elem_of_In, list_elem_of_omap in Hin as (model & Hmodel & Hsome).
  destruct (isModelExcluded (ID model) ctx) eqn:Hmx; [done|].
  destruct (meetsCapabilityRequirements model ctx) eqn:Hmeets; [|done].
  injection Hsome as <-. unfold admitted.
  cbn [providerName provider modelInfo modelID profile].
  split_and!; try done.
  intros Hcheck. rewrite Hcheck in Hhealth. cbn [andb] in Hhealth.
  by destruct (isHealthy (base r) name).
Qed.

End Candidates.

Section Decision.
Import llm router smart.
Context `{GoStdLaws}.

(** The decision of [Route] is built from one of the candidates. *)
Lemma Route_from_candidate (r : SmartRouter) (visit : list string) (now : Z)
  (req : CompletionRequest) (routingCtx : option RoutingContext) (d : RoutingDecision) :
  Route r visit now req routingCtx = Ok d ->
  exists c rest,
    c ∈ getCandidates r visit (effectiveContext r req routingCtx)
    /\ d = buildDecision r now req (effectiveContext r req routingCtx)
             {| scCandidate := c;
                score := calculateScore r c (effectiveContext r req routingCtx) req |} rest.
Proof.
  unfold Route. set (ctx := effectiveContext r req routingCtx).
  destruct (len (getCandidates r visit ctx) =? 0); [done|].
  destruct (sorted_scores (scoreAll r visit req ctx)) as [Hperm _].
  destruct (sort_Slice byTotal _) as [|best rest]; [done|].
  intros [= <-].
  assert (best ∈ scoreAll r visit req ctx) as Hin.
  { apply list_elem_of_In. eapply Permutation_in; [exact Hperm | by left]. }
  unfold scoreAll in Hin. apply list_elem_of_fmap in Hin as (c & -> & Hc).
  by exists c, rest.
Qed.

(** X12. A decision of [Route] names a provider that the visit met and that
    the registry binds to that name, marked healthy when health checks are
    on, and one of that provider's models. With a routing context (the
    caller's, or the classifier's when the caller gave none) neither the
    provider nor the model is excluded, and the model has every required
    capability and every feature that a [Require...] constraint asks for. *)
Theorem Route_decision_admissible (r : SmartRouter) (visit : list string) (now : Z)
  (req : CompletionRequest) (routingCtx : option RoutingContext) (d : RoutingDecision) :
  Route r visit now req routingCtx = Ok d ->
  (dProviderName d ∈ visit
   /\ providers (base r) !! dProviderName d = Some (dProvider d)
   /\ dModelInfo d ∈ Models (dProvider d)
   /\ dModelID d = ID (dModelInfo d)
   /\ (healthCheck (base r) = true -> isHealthy (base r) (dProviderName d) = true))
  /\ (forall ctx, effectiveContext r req routingCtx = Some ctx ->
        dProviderName d ∉ ExcludedProviders (Constraints ctx)
        /\ dModelID d ∉ ExcludedModels (Constraints ctx)
        /\ capable (dModelInfo d) ctx).
Proof.
  intros (c & rest & Hc & ->)%Route_from_candidate.
  apply getCandidates_admitted in Hc
    as (Hvisit & Hbound & Hmodel & Hid & _ & Hhealthy & Hpx & Hmx & Hmeets).
  cbn [buildDecision dProviderName dProvider dModelInfo dModelID scCandidate].
  split; [done|]. intros ctx Hctx. rewrite Hctx in Hpx, Hmx, Hmeets.
  split; [by apply isProviderExcluded_false|].
  split; [by apply isModelExcluded_false|].
  by apply meetsCapabilityRequirements_capable.
Qed.

End Decision.

Section Capability_axis.
Import llm router smart.

(** X13. Every candidate that [getCandidates] admits has the capability
    score 1: it has all the required capabilities (whose number is an
    [int]), and a positive integer divided by itself is 1 in float64 too.
    So the capability axis is the same for all the candidates that are
    ranked. *)
Theorem capabilityScore_of_candidate (r : SmartRouter) (visit : list string)
  (ctx : option RoutingContext) (c : candidate) :
  match ctx with
  | Some ctx' => len (RequiredCapabilities ctx') < 2 ^ 63
  | None => True
  end ->
  c ∈ getCandidates r visit ctx -> calculateCapabilityScore c ctx = 1%f64.
Proof.
  intros Hint Hc.
  apply getCandidates_admitted in Hc as (_ & _ & _ & _ & _ & _ & _ & _ & Hmeets).
  unfold calculateCapabilityScore. destruct ctx as [ctx|]; [|reflexivity].
  destruct (Z.eqb_spec (len (RequiredCapabilities ctx)) 0) as [_|Hne]; [reflexivity|].
  apply meetsCapabilityRequirements_capable in Hmeets as [Hall _].
  assert (filter (fun cap => HasFeature (modelInfo c) cap = true) (RequiredCapabilities ctx)
          = RequiredCapabilities ctx) as ->.
  { clear Hne Hint. induction Hall as [|cap caps Hcap _ IH]; [done|].
    rewrite filter_cons_True by done. by rewrite IH. }
  pose proof (len_nonneg (RequiredCapabilities ctx)).
  rewrite of_int_div_self by lia. reflexivity.
Qed.

End Capability_axis.

(** ** The smart router: the routing history *)

Section History.
Import llm router smart.

(** The record that [recordRouting] writes is about this decision. *)
Definition recordOf (d : RoutingDecision) (ctx : option RoutingContext) (success : bool)
  (elapsed : Duration) (now : Z) (record : RoutingRecord) : Prop :=
  recDecision record = d /\ recContext record = ctx /\ recSuccess record = success
  /\ recActualLatency record = elapsed /\ recTimestamp record = now.

(** [recordRouting] with a non-negative [maxHistorySize] appends the record
    of the decision and keeps the last [maxHistorySize] records; with a
    negative [maxHistorySize] it panics. *)
Lemma recordRouting_spec (r : SmartRouter) (history : list RoutingRecord)
  (d : RoutingDecision) (ctx : option RoutingContext) (success : bool)
  (elapsed : Duration) (resp : option CompletionResponse) (now : Z) :
  (maxHistorySize r < 0 ->
   recordRouting r history d ctx success elapsed resp now = Panic)
  /\ (0 <= maxHistorySize r ->
      exists record,
        recordOf d ctx success elapsed now record
        /\ recordRouting r history d ctx success elapsed resp now
           = Ok (lastN (Z.to_nat (maxHistorySize r)) (history ++ [record]))).
Proof.
  unfold recordRouting.
  set (record := {| recDecision := d; recContext := ctx; recSuccess := success;
                    recActualLatency := elapsed; recActualCost := _;
                    recTimestamp := now |}).
  assert (len (history ++ [record]) = len history + 1) as Hlen.
  { unfold len. rewrite length_app. cbn [length]. lia. }
  pose proof (len_nonneg history) as Hpos.
  split.
  - intros Hneg. destruct (Z.ltb_spec (maxHistorySize r) (len (history ++ [record]))); [|lia].
    rewrite slice_None; [done|]. lia.
  - intros Hcap. exists record. split; [done|].
    destruct (Z.ltb_spec (maxHistorySize r) (len (history ++ [record]))) as [Hover|Hfits].
    + rewrite slice_Some by lia. f_equal. unfold lastN.
      replace (Z.to_nat (len (history ++ [record]) - (len (history ++ [record])
                 - maxHistorySize r))) with (Z.to_nat (maxHistorySize r)) by lia.
      rewrite take_ge.
      * f_equal. unfold len. lia.
      * rewrite length_drop. unfold len. lia.
    + rewrite lastN_all; [done|]. unfold len in Hfits. lia.
Qed.

End History.

Section Complete_with_routing.
Import llm router smart.
Context `{GoStd}.

(** X14. [CompleteWithRouting] makes no call and writes no record when
    [Route] fails. When [Route] decides, it makes exactly one call: to the
    decision's provider, with the request's model set to the decision's
    model; it returns the decision whether the provider answers or fails.
    With a non-negative [maxHistorySize] it then appends one record, which
    holds the decision, the caller's routing context (nil when the context
    came from the classifier) and whether the provider answered, and keeps
    the last [maxHistorySize] records of the history. With a negative
    [maxHistorySize] it panics once the provider has returned. *)
Theorem CompleteWithRouting_one_call_one_record (r : SmartRouter) (visit : list string)
  (now : Z) (elapsed : Duration) (stamp : Z) (req : CompletionRequest)
  (routingCtx : option RoutingContext) (log : list Call) (history : list RoutingRecord) :
  let res := CompleteWithRouting r visit now elapsed stamp req routingCtx log history in
  match Route r visit now req routingCtx with
  | Panic => res = (Panic, None, log, history)
  | Err err => res.1.1.2 = None /\ res.1.2 = log /\ res.2 = history
  | Ok d =>
      let sent := withModel req (dModelID d) in
      res.1.1.2 = Some d
      /\ res.1.2 = log ++ [{| callee := self (dProvider d); method := CallComplete;
                              request := sent |}]
      /\ match pComplete (dProvider d) log sent with
         | Panic => res.1.1.1 = Panic
         | Err _ =>
             (maxHistorySize r < 0 -> res.1.1.1 = Panic)
             /\ (0 <= maxHistorySize r ->
                 exists record,
                   recordOf d routingCtx false elapsed stamp record
                   /\ res.2 = lastN (Z.to_nat (maxHistorySize r)) (history ++ [record]))
         | Ok resp =>
             (maxHistorySize r < 0 -> res.1.1.1 = Panic)
             /\ (0 <= maxHistorySize r ->
                 res.1.1.1 = Ok resp
                 /\ exists record,
                      recordOf d routingCtx true elapsed stamp record
                      /\ res.2 = lastN (Z.to_nat (maxHistorySize r)) (history ++ [record]))
         end
  end.
Proof.
  intros res. subst res. unfold CompleteWithRouting.
  destruct (Route r visit now req routingCtx) as [d|err|]; [|done|done].
  cbn zeta. unfold llm.Complete.
  destruct (pComplete (dProvider d) log (withModel req (dModelID d))) as [resp|err|].
  - destruct (recordRouting_spec r history d routingCtx true elapsed (Some resp) stamp)
      as [Hneg Hcap].
    destruct (recordRouting r history d routingCtx true elapsed (Some resp) stamp)
      as [history'|err|] eqn:Hrec; cbn [fst snd];
      (split; [done|]; split; [done|]); (split; [intros Hlt; by specialize (Hneg Hlt)|]);
      intros Hle; destruct (Hcap Hle) as (record & Hrecord & Heq); [|done|done].
    injection Heq as ->. split; [done|]. by exists record.
  - destruct (recordRouting_spec r history d routingCtx false elapsed None stamp)
      as [Hneg Hcap].
    destruct (recordRouting r history d routingCtx false elapsed None stamp)
      as [history'|err'|] eqn:Hrec; cbn [fst snd];
      (split; [done|]; split; [done|]); (split; [intros Hlt; by specialize (Hneg Hlt)|]);
      intros Hle; destruct (Hcap Hle) as (record & Hrecord & Heq); [|done|done].
    injection Heq as ->. by exists record.
  - cbn [fst snd]. done.
Qed.

End Complete_with_routing.

(** *** Concrete decisions *)

(** A context that asks for streaming. *)
Definition streamingContext : smart.RoutingContext :=
  smart.requireStreaming (smart.NewRoutingContext "chat" "simple").

Definition candidateA : smart.candidate :=
  {| smart.provider := steady 1 "a" [model "ma" 1 1 ["streaming"%string]];
     smart.providerName := "a";
     smart.modelID := "ma";
     smart.modelInfo := model "ma" 1 1 ["streaming"%string];
     smart.profile := None |}.

Lemma Route_decision_admissible_witness :
  exists d,
    smart.Route twins ["a"; "b"]%string 0 (ask "") (Some streamingContext) = Ok d
    /\ (smart.dProviderName d ∈ ["a"; "b"]%string
        /\ router.providers (smart.base twins) !! smart.dProviderName d
           = Some (smart.dProvider d)
        /\ smart.dModelInfo d ∈ llm.Models (smart.dProvider d)
        /\ smart.dModelID d = llm.ID (smart.dModelInfo d)
        /\ (router.healthCheck (smart.base twins) = true ->
            router.isHealthy (smart.base twins) (smart.dProviderName d) = true))
    /\ (forall ctx,
          smart.effectiveContext twins (ask "") (Some streamingContext) = Some ctx ->
          smart.dProviderName d ∉ smart.ExcludedProviders (smart.Constraints ctx)
          /\ smart.dModelID d ∉ smart.ExcludedModels (smart.Constraints ctx)
          /\ capable (smart.dModelInfo d) ctx).
Proof.
  destruct (smart.Route twins ["a"; "b"]%string 0 (ask "") (Some streamingContext))
    as [d|err|] eqn:Hd.
  - exists d. split; [done|].
    exact (Route_decision_admissible twins ["a"; "b"]%string 0 (ask "")
             (Some streamingContext) d Hd).
  - exfalso. vm_compute in Hd. discriminate.
  - exfalso. vm_compute in Hd. discriminate.
Defined.

Lemma capabilityScore_of_candidate_witness :
  smart.calculateCapabilityScore candidateA (Some streamingContext) = 1%f64.
Proof.
  apply (capabilityScore_of_candidate twins ["a"; "b"]%string (Some streamingContext)).
  - vm_compute. reflexivity.
  - apply list_elem_of_In. vm_compute. left. reflexivity.
Defined.

Lemma StreamWithRouting_streams_witness :
  exists d,
    (smart.StreamWithRouting twins ["a"; "b"]%string 0 (ask "")
       (Some (smart.NewRoutingContext "chat" "simple")) []).1.1.2 = Some d
    /\ llm.HasFeature (smart.dModelInfo d) llm.FeatureStreaming = true.
Proof.
  destruct ((smart.StreamWithRouting twins ["a"; "b"]%string 0 (ask "")
               (Some (smart.NewRoutingContext "chat" "simple")) []).1.1.2)
    as [d|] eqn:Hd.
  - exists d. split; [done|].
    exact (StreamWithRouting_streams twins ["a"; "b"]%string 0 (ask "")
             (smart.NewRoutingContext "chat" "simple") [] d Hd).
  - exfalso. vm_compute in Hd. discriminate.
Defined.


(** ** The buffer memory: search, deletion and look-up *)

(** The entries that a query accepts, in the order the query asks for. *)
Definition ordered (m : Buffer.BufferMemory) (h : memory.Heap)
  (keys : memory.Entry -> list string) (query : memory.SearchQuery) : list memory.Entry :=
  let accepted :=
    filter (fun e => memory.matchQuery h (keys e) e query = Ok true) (Buffer.entries m) in
  if memory.qOrderDesc query then reverse accepted else accepted.

(** The page of a list that starts at [offset] and has at most [limit]
    elements; all the rest when [limit] is not positive. *)
Definition page {A : Type} (offset limit : Z) (l : list A) : list A :=
  let rest := drop (Z.to_nat offset) l in
  if 0 <? limit then take (Z.to_nat limit) rest else rest.

(** A value whose dynamic type is comparable: not a slice, not a map. *)
Definition comparable (v : any) : Prop :=
  match v with
  | ASlice _ | AMap _ => False
  | _ => True
  end.

Section Comparable_metadata.
Import memory.

Lemma any_equal_comparable (mv v : any) : comparable v -> any_equal mv v <> None.
Proof. by destruct mv, v. Qed.

Lemma matchMetadata_comparable (entryMetadata queryMetadata : gmap string any)
  (keys : list string) :
  map_Forall (fun _ v => comparable v) queryMetadata ->
  matchMetadata entryMetadata queryMetadata keys <> Panic.
Proof.
  intros Hcomparable. induction keys as [|k keys IH]; cbn [matchMetadata]; [done|].
  destruct (queryMetadata !! k) as [v|] eqn:Hv; [|done].
  destruct (entryMetadata !! k) as [mv|]; [|done].
  pose proof (any_equal_comparable mv v (Hcomparable k v Hv)) as Hcmp.
  by destruct (any_equal mv v) as [[]|].
Qed.

(** A query whose metadata holds values of comparable types only never
    makes [matchQuery] panic. *)
Lemma matchQuery_comparable (h : Heap) (keys : list string) (e : Entry)
  (query : SearchQuery) :
  map_Forall (fun _ v => comparable v) (deref h (qMetadata query)) ->
  matchQuery h keys e query <> Panic.
Proof.
  intros Hcomparable. unfold matchQuery.
  repeat (match goal with |- context [if ?c then _ else _] => destruct c end; [done|]).
  destruct (0 <? _); [|done]. destruct (Metadata e); [|done].
  by apply matchMetadata_comparable.
Qed.

End Comparable_metadata.

Section Buffer_search.
Import memory Buffer.

Lemma len_filter_le {A : Type} (P : A -> Prop) `{!forall x, Decision (P x)} (l : list A) :
  len (filter P l) <= len l.
Proof. unfold len. pose proof (length_filter P l). lia. Qed.

Lemma len_ordered (m : BufferMemory) (h : Heap) (keys : Entry -> list string)
  (query : SearchQuery) :
  len (ordered m h keys query) <= len (entries m).
Proof.
  unfold ordered. destruct (qOrderDesc query).
  - unfold len. rewrite length_reverse. apply len_filter_le.
  - apply len_filter_le.
Qed.

(** The page that the two [Search]es cut out of the entries found. *)
Lemma paged_slice {A : Type} (found : list A) (offset limit : Z) :
  0 <= offset <= len found -> offset + limit < 2 ^ 63 ->
  slice found offset
    (if (0 <? limit) && (wrap64 (offset + limit) <? len found)
     then wrap64 (offset + limit)
     else len found)
  = Some (page offset limit found).
Proof.
  intros Hoff Hlimit. unfold page.
  destruct (Z.ltb_spec 0 limit) as [Hlim|Hnolim]; cbn [andb].
  - rewrite wrap64_small by lia.
    destruct (Z.ltb_spec (offset + limit) (len found)) as [Hcut|Hall].
    + rewrite slice_Some by lia. do 3 f_equal. lia.
    + rewrite slice_Some by lia. f_equal.
      rewrite !take_ge; [done| |]; rewrite length_drop; unfold len in *; lia.
  - rewrite slice_Some by lia. f_equal.
    rewrite take_ge; [done|]. rewrite length_drop. unfold len in *. lia.
Qed.


End Buffer_search.

Section Buffer_last.
Import memory Buffer.

(** X17. [Last n] returns the last [n] entries, all of them when the buffer
    holds [n] or fewer; with a negative [n] it panics. *)
Theorem Buffer_Last_tail (m : BufferMemory) (n : Z) :
  (n < 0 -> Last m n = Panic)
  /\ (0 <= n -> Last m n = Ok (lastN (Z.to_nat n) (entries m))).
Proof.
  unfold Last. pose proof (len_nonneg (entries m)) as Hpos. split.
  - intros Hneg. destruct (Z.leb_spec (len (entries m)) n); [lia|].
    destruct (Z.ltb_spec n 0); [done | lia].
  - intros Hn. destruct (Z.leb_spec (len (entries m)) n) as [Hall|Hsome].
    + rewrite lastN_all; [done|]. unfold len in Hall. lia.
    + destruct (Z.ltb_spec n 0); [lia|].
      rewrite slice_Some by lia. f_equal. unfold lastN.
      rewrite take_ge.
      * f_equal. unfold len. lia.
      * rewrite length_drop. unfold len. lia.
Qed.

End Buffer_last.

Section Buffer_delete.
Import memory Buffer.

Lemma removeFirst_absent (id : string) (es : list Entry) :
  Forall (fun e => ID e <> id) es -> removeFirst id es = es.
Proof.
  induction 1 as [|e es He _ IH]; cbn [removeFirst]; [done|].
  destruct (String.eqb_spec (ID e) id); [done|]. by rewrite IH.
Qed.

Lemma removeFirst_first (id : string) (pre post : list Entry) (e : Entry) :
  Forall (fun e => ID e <> id) pre -> ID e = id ->
  removeFirst id (pre ++ e :: post) = pre ++ post.
Proof.
  induction 1 as [|e0 pre He0 _ IH]; intros He; cbn [app removeFirst].
  - by rewrite He, String.eqb_refl.
  - destruct (String.eqb_spec (ID e0) id); [done|]. by rewrite IH.
Qed.

Lemma find_skip (id : string) (pre rest : list Entry) :
  Forall (fun e => ID e <> id) pre ->
  find (fun e => String.eqb (ID e) id) (pre ++ rest)
  = find (fun e => String.eqb (ID e) id) rest.
Proof.
  induction 1 as [|e0 pre He0 _ IH]; cbn [app find]; [done|].
  destruct (String.eqb_spec (ID e0) id); [done|]. apply IH.
Qed.

(** X18. [Delete] returns a nil error and removes the first entry that has
    the id, and no other: the buffer is unchanged when no entry has the id,
    and after the removal [Get] finds the next entry with that id, if there
    is one. *)
Theorem Buffer_Delete_first_match (m : BufferMemory) (id : string) :
  (Delete m id).1 = None
  /\ capacity (Delete m id).2 = capacity m
  /\ (Forall (fun e => ID e <> id) (entries m) -> entries (Delete m id).2 = entries m)
  /\ (forall pre e post,
        entries m = pre ++ e :: post -> Forall (fun e => ID e <> id) pre -> ID e = id ->
        entries (Delete m id).2 = pre ++ post
        /\ (Get (Delete m id).2 id).1 = find (fun e => String.eqb (ID e) id) post).
Proof.
  unfold Delete, Get. cbn [fst snd entries capacity setEntries].
  split; [done|]. split; [done|]. split.
  - apply removeFirst_absent.
  - intros pre e post -> Hpre He. rewrite removeFirst_first by done.
    split; [done|]. by apply find_skip.
Qed.


End Buffer_delete.


(** ** The vector memory: the scan and the search by similarity *)

(** The order that the scan of [Search] hands to [sort.Slice]. *)
Definition byCreation (desc : bool) (a b : memory.Entry) : bool :=
  if desc then memory.After (memory.CreatedAt a) (memory.CreatedAt b)
  else memory.Before (memory.CreatedAt a) (memory.CreatedAt b).

(** The entries that the scan accepts, sorted. *)
Definition scanned `{GoStd} (m : Vector.VectorMemory) (h : memory.Heap)
  (keys : memory.Entry -> list string) (query : memory.SearchQuery) (ord : list string)
  : list memory.Entry :=
  sort_Slice (byCreation (memory.qOrderDesc query))
    (filter (fun e => memory.matchQuery h (keys e) e query = Ok true)
       (Vector.rangeEntries m ord)).

Section Vector_scan.
Import memory.
Context `{GoStdLaws}.

Lemma byCreation_strict_weak (desc : bool) : strict_weak (byCreation desc).
Proof.
  unfold byCreation, After, Before. destruct desc; (split; [|split]).
  - intros a. lia.
  - intros a b c Hab%Z.ltb_lt Hbc%Z.ltb_lt. apply Z.ltb_lt. lia.
  - intros a b c Hab%Z.ltb_ge Hbc%Z.ltb_ge. apply Z.ltb_ge. lia.
  - intros a. lia.
  - intros a b c Hab%Z.ltb_lt Hbc%Z.ltb_lt. apply Z.ltb_lt. lia.
  - intros a b c Hab%Z.ltb_ge Hbc%Z.ltb_ge. apply Z.ltb_ge. lia.
Qed.

Lemma len_scanned (m : Vector.VectorMemory) (h : Heap) (keys : Entry -> list string)
  (query : SearchQuery) (ord : list string) :
  len (scanned m h keys query ord) <= len (Vector.rangeEntries m ord).
Proof.
  unfold scanned, len. rewrite (Permutation_length (sort_Slice_permutation _ _ _)).
  pose proof (length_filter (fun e => matchQuery h (keys e) e query = Ok true)
                (Vector.rangeEntries m ord)).
  lia.
Qed.


Lemma StronglySorted_take {A : Type} (R : A -> A -> Prop) (n : nat) (l : list A) :
  StronglySorted R l -> StronglySorted R (take n l).
Proof.
  intros Hsorted. revert n. induction Hsorted as [|a l Hl IH Ha]; intros [|n]; cbn [take];
    try constructor.
  - apply IH.
  - apply Forall_forall. intros b Hb. apply subseteq_take in Hb.
    by apply (proj1 (Forall_forall _ _) Ha).
Qed.

Lemma filter_all {A : Type} (P : A -> Prop) `{!forall x, Decision (P x)} (l : list A) :
  (forall x, P x) -> filter P l = l.
Proof.
  intros HP. induction l as [|x l IH]; [done|]. rewrite filter_cons_True by done. by rewrite IH.
Qed.

(** X21. [SemanticSearch] with the empty string as its query does not go by
    similarity: it returns the [topK] oldest entries (all of them when
    [topK <= 0]) in the order of their creation times, and leaves the
    metadata maps alone. *)
Theorem SemanticSearch_empty_query_lists_oldest (m : Vector.VectorMemory) (h : Heap)
  (keys : Entry -> list string) (topK : Z) (ord : list string) :
  topK < 2 ^ 62 -> len (Vector.rangeEntries m ord) < 2 ^ 62 ->
  exists found,
    Vector.SemanticSearch m h keys "" topK ord = Ok (found, h)
    /\ found = page 0 topK (sort_Slice (byCreation false) (Vector.rangeEntries m ord))
    /\ StronglySorted (fun a b => CreatedAt a <= CreatedAt b) found.
Proof.
  intros Htop Hlen. unfold Vector.SemanticSearch.
  set (query := {| qQuery := ""; qEmbedding := []; qLimit := topK; qOffset := 0;
                   qRoles := []; qSince := None; qUntil := None; qMetadata := None;
                   qOrderBy := ""; qOrderDesc := false |}).
  assert (forall e, matchQuery h (keys e) e query = Ok true) as Haccept by done.
  assert (scanned m h keys query ord
          = sort_Slice (byCreation false) (Vector.rangeEntries m ord)) as Hall.
  { unfold scanned. cbn [qOrderDesc query]. f_equal. by apply filter_all. }
  pose proof (len_scanned m h keys query ord) as Hle.
  pose proof (len_nonneg (scanned m h keys query ord)) as Hpos.
  unfold Vector.Search.
  cbn [qEmbedding qQuery query len length Z.of_nat Z.ltb Z.compare String.eqb negb].
  pose proof (matching_spec h keys query (Vector.rangeEntries m ord)) as Hspec.
  destruct (matching h keys query (Vector.rangeEntries m ord)) as [matched|err|]; [|done|].
  2:{ exfalso. apply Exists_exists in Hspec as (e & _ & Hpanic).
      by rewrite Haccept in Hpanic. }
  destruct Hspec as [-> _].
  change (sort_Slice _ (filter _ (Vector.rangeEntries m ord)))
    with (scanned m h keys query ord).
  destruct (Z.ltb_spec (len (scanned m h keys query ord)) (qOffset query)) as [Hpast|_];
    [cbn [qOffset query] in Hpast; lia|].
  rewrite paged_slice by (cbn [qOffset qLimit query]; lia).
  rewrite Hall. clear Hall Hle Hpos.
  eexists. split; [reflexivity|]. split; [done|].
  unfold page. cbn [Z.to_nat drop].
  assert (StronglySorted (fun a b => CreatedAt a <= CreatedAt b)
            (sort_Slice (byCreation false) (Vector.rangeEntries m ord))) as Hsorted.
  { pose proof (sort_Slice_sorted _ (byCreation false) (Vector.rangeEntries m ord)
                  (strict_weak_everywhere _ _ (byCreation_strict_weak false))) as Hs.
    induction Hs as [|a s Hs IH Ha]; constructor; [done|].
    eapply Forall_impl; [exact Ha|]. intros b Hb. unfold byCreation, Before in Hb.
    apply Z.ltb_ge in Hb. done. }
  subst query. cbn [qLimit qOffset Z.to_nat drop].
  destruct (0 <? topK); [by apply StronglySorted_take | done].
Qed.

End Vector_scan.

(** *** The search by similarity *)

(** The query makes [Search] go by similarity: it carries an embedding, or
    it carries a text for which the embedder returns a non-empty vector. *)
Definition bySimilarity (m : Vector.VectorMemory) (query : memory.SearchQuery) : Prop :=
  memory.qEmbedding query <> []
  \/ (memory.qQuery query <> ""%string
      /\ exists v rest, Vector.embedder m [memory.qQuery query] = Ok (v :: rest) /\ v <> []).

(** A found entry as the search by similarity returns it, [h0] being the
    heap before the search and [h] the heap after it: a copy of a stored
    entry; it holds the stored entry's own metadata map when there is one
    and a new map otherwise; and the map has a [_score] that passed the
    threshold. *)
Definition scored (m : Vector.VectorMemory) (h0 h : memory.Heap) (e : memory.Entry) : Prop :=
  exists l s id stored,
    memory.Metadata e = Some l
    /\ memory.deref h (Some l) !! "_score"%string = Some (AFloat32 s)
    /\ f32.ltb s (Vector.MinScore (Vector.config m)) = false
    /\ Vector.entries m !! id = Some stored
    /\ memory.setMetadata stored None = memory.setMetadata e None
    /\ match memory.Metadata stored with
       | Some l0 => l = l0
       | None => l ∉ dom h0
       end.

Section Vector_similarity.
Import memory.
Context `{GoStd}.

Lemma scoreStep_scored (m : Vector.VectorMemory) (keys : Entry -> list string)
  (query : SearchQuery) (h0 : Heap) (st st' : Heap * list Entry)
  (result : Vector.VectorResult) :
  dom h0 ⊆ dom st.1 -> Forall (scored m h0 st.1) st.2 ->
  Vector.scoreStep m keys query st result = Ok st' ->
  dom h0 ⊆ dom st'.1 /\ Forall (scored m h0 st'.1) st'.2.
Proof.
  destruct st as [h acc]. cbn [fst snd]. intros Hdom Hacc. unfold Vector.scoreStep.
  destruct (f32.ltb _ _) eqn:Hscore; [by intros [= <-]|].
  destruct (Vector.entries m !! Vector.vrID result) as [entry|] eqn:Hentry;
    [|by intros [= <-]].
  destruct (matchQuery h (keys entry) entry query) as [[]|err|];
    [|by intros [= <-]|done|done].
  destruct (Metadata entry) as [l0|] eqn:Hmeta.
  - intros [= <-]. cbn [fst snd]. split; [rewrite dom_store_key; set_solver|].
    apply Forall_app. split.
    + eapply Forall_impl; [exact Hacc|].
      intros e (l & s & id & stored & Hl & Hs & Hmin & Hstored & Hcopy & Hmap).
      destruct (decide (l0 = l)) as [->|Hne].
      * exists l, (Vector.vrScore result), id, stored.
        rewrite deref_store_key, lookup_insert_eq. done.
      * exists l, s, id, stored. by rewrite deref_store_key_ne.
    + constructor; [|done].
      exists l0, (Vector.vrScore result), (Vector.vrID result), entry.
      rewrite deref_store_key, lookup_insert_eq, Hmeta. done.
  - destruct (alloc_spec h {[ "_score"%string := AFloat32 (Vector.vrScore result) ]})
      as [Hfresh Hheap].
    destruct (Vector.alloc h _) as [l h'] eqn:Halloc. cbn [fst snd] in *. subst h'.
    intros [= <-]. cbn [fst snd].
    split; [rewrite dom_insert_L; set_solver|].
    apply Forall_app. split.
    + eapply Forall_impl; [exact Hacc|].
      intros e (l1 & s & id & stored & Hl & Hs & Hmin & Hstored & Hcopy & Hmap).
      exists l1, s, id, stored. split; [done|]. split; [|done].
      assert (l1 <> l) as Hne.
      { intros ->. apply not_elem_of_dom in Hfresh. unfold deref in Hs.
        rewrite Hfresh in Hs. cbn in Hs. by rewrite lookup_empty in Hs. }
      unfold deref in *. by rewrite lookup_insert_ne.
    + constructor; [|done].
      exists l, (Vector.vrScore result), (Vector.vrID result), entry.
      cbn [Metadata setMetadata]. split; [done|]. split.
      { unfold deref. rewrite lookup_insert_eq. cbn. by rewrite lookup_singleton_eq. }
      split; [done|]. split; [done|]. split; [done|]. rewrite Hmeta. set_solver.
Qed.

Lemma scoreLoop_scored (m : Vector.VectorMemory) (keys : Entry -> list string)
  (query : SearchQuery) (h0 : Heap) (results : list Vector.VectorResult) :
  forall st st', dom h0 ⊆ dom st.1 -> Forall (scored m h0 st.1) st.2 ->
    Vector.scoreLoop m keys query results st = Ok st' ->
    Forall (scored m h0 st'.1) st'.2.
Proof.
  induction results as [|result results IH]; intros st st' Hdom Hacc;
    cbn [Vector.scoreLoop]; [by intros [= <-]|].
  destruct (Vector.scoreStep m keys query st result) as [st1|err|] eqn:Hstep; [|done|done].
  destruct (scoreStep_scored m keys query h0 st st1 result Hdom Hacc Hstep) as [Hdom' Hacc'].
  by apply IH.
Qed.

(** X22. What the search by similarity returns, the query carrying an
    embedding or a text that the embedder turns into a non-empty vector:
    every returned entry is a copy of a stored entry and carries a
    [_score], not below [MinScore], in its metadata. The score is written
    into the stored entry's own metadata map when it has one — the copy
    shares the map, so the search changes what is stored — and into a new
    map otherwise. *)
Theorem Vector_Search_writes_score (m : Vector.VectorMemory) (h h' : Heap)
  (keys : Entry -> list string) (query : SearchQuery) (ord : list string)
  (found : list Entry) :
  bySimilarity m query ->
  Vector.Search m h keys query ord = Ok (found, h') ->
  Forall (scored m h h') found.
Proof.
  intros Hby. unfold Vector.Search.
  set (embedded := if 0 <? len (qEmbedding query) then _ else _).
  assert (exists embedding, embedded = Ok embedding /\ 0 < len embedding)
    as (embedding & -> & Hlen).
  { subst embedded. destruct Hby as [Hvec|(Htext & v & rest & Hembed & Hv)].
    - destruct (qEmbedding query) as [|x xs] eqn:Hq; [done|].
      exists (x :: xs). split; [done|]. unfold len. cbn [length]. lia.
    - destruct (Z.ltb_spec 0 (len (qEmbedding query))) as [Hpos|_].
      + exists (qEmbedding query). done.
      + destruct (String.eqb_spec (qQuery query) "") as [?|_]; [done|]. cbn [negb].
        rewrite Hembed. exists v. split; [done|].
        destruct v; [done|]. unfold len. cbn [length]. lia. }
  destruct (Z.ltb_spec 0 (len embedding)) as [_|?]; [|lia].
  destruct (Vector.vsSearch (Vector.store m) embedding _) as [results|err|]; [|done|done].
  destruct (Vector.scoreLoop m keys query results (h, [])) as [[h1 found1]|err|] eqn:Hloop;
    [|done|done].
  pose proof (scoreLoop_scored m keys query h results (h, []) (h1, found1)
                ltac:(done) ltac:(constructor) Hloop) as Hfold.
  cbn [fst snd] in Hfold. by intros [= <- <-].
Qed.

End Vector_similarity.


(** ** The multi-layer memory: the layer tag of a search result *)

Definition layerNames : list MultiLayer.MemoryLayer :=
  [MultiLayer.LayerWorking; MultiLayer.LayerShortTerm; MultiLayer.LayerLongTerm].

(** The map at [l] carries a [_layer] tag that names a layer. *)
Definition taggedAt (h : memory.Heap) (l : memory.loc) : Prop :=
  exists layer,
    memory.deref h (Some l) !! "_layer"%string = Some (AString layer) /\ layer ∈ layerNames.

(** The entry has a metadata map, and the map carries a layer tag. *)
Definition layered (h : memory.Heap) (e : memory.Entry) : Prop :=
  exists l, memory.Metadata e = Some l /\ taggedAt h l.

(** Every map that carries a layer tag still carries one. *)
Definition keepsTags (h h' : memory.Heap) : Prop :=
  forall l, taggedAt h l -> taggedAt h' l.

Section Layer_tags.
Import memory.

Lemma keepsTags_refl (h : Heap) : keepsTags h h.
Proof. by intros l. Qed.

Lemma keepsTags_trans (h1 h2 h3 : Heap) :
  keepsTags h1 h2 -> keepsTags h2 h3 -> keepsTags h1 h3.
Proof. intros H12 H23 l Hl. by apply H23, H12. Qed.

Lemma layered_keeps (h h' : Heap) (es : list Entry) :
  keepsTags h h' -> Forall (layered h) es -> Forall (layered h') es.
Proof.
  intros Hkeep Hes. eapply Forall_impl; [exact Hes|].
  intros e (l & Hl & Htag). exists l. split; [done|]. by apply Hkeep.
Qed.

Lemma taggedAt_dom (h : Heap) (l : loc) : taggedAt h l -> l ∈ dom h.
Proof.
  intros (layer & Hlayer & _). unfold deref in Hlayer. apply elem_of_dom.
  destruct (h !! l); [done|]. cbn in Hlayer. by rewrite lookup_empty in Hlayer.
Qed.

Lemma tagLayer_layered (layer : string) (h : Heap) (acc : list Entry) (e : Entry) :
  layer ∈ layerNames -> Forall (layered h) acc ->
  keepsTags h (MultiLayer.tagLayer layer (h, acc) e).1
  /\ Forall (layered (MultiLayer.tagLayer layer (h, acc) e).1)
       (MultiLayer.tagLayer layer (h, acc) e).2.
Proof.
  intros Hlayer Hacc. unfold MultiLayer.tagLayer.
  destruct (addLayerMeta_spec h (Metadata e) layer)
    as (l & h' & -> & Hin & Hdom & Hwhere & Hderef & Hframe & _).
  cbn [fst snd].
  assert (keepsTags h h') as Hkeep.
  { intros l' Htag. destruct (decide (l' = l)) as [->|Hne].
    - exists layer. rewrite Hderef, lookup_insert_eq. done.
    - destruct Htag as (layer' & Hl' & Hnames). exists layer'. split; [|done].
      unfold deref in *. by rewrite Hframe. }
  split; [done|]. apply Forall_app. split; [by eapply layered_keeps|].
  constructor; [|done]. exists l. cbn [Metadata setMetadata]. split; [done|].
  exists layer. rewrite Hderef, lookup_insert_eq. done.
Qed.

Lemma tagAll_layered (layer : string) (found : list Entry) :
  layer ∈ layerNames ->
  forall (h : Heap) (acc : list Entry),
    Forall (layered h) acc ->
    keepsTags h (fold_left (MultiLayer.tagLayer layer) found (h, acc)).1
    /\ Forall (layered (fold_left (MultiLayer.tagLayer layer) found (h, acc)).1)
         (fold_left (MultiLayer.tagLayer layer) found (h, acc)).2.
Proof.
  intros Hlayer. induction found as [|e found IH]; intros h acc Hacc; cbn [fold_left].
  - split; [apply keepsTags_refl | done].
  - destruct (tagLayer_layered layer h acc e Hlayer Hacc) as [Hkeep Hacc'].
    destruct (MultiLayer.tagLayer layer (h, acc) e) as [h1 acc1]. cbn [fst snd] in *.
    destruct (IH h1 acc1 Hacc') as [Hkeep' Hall]. split; [|done].
    by eapply keepsTags_trans.
Qed.

(** One tier of [Search]: the entries collected so far keep their tags, the
    entries of this tier receive one. *)
Lemma collect_layered (layer : string) (allEntries allEntries' : list Entry)
  (r : outcome (list Entry * Heap)) (h h' : Heap) :
  layer ∈ layerNames ->
  Forall (layered h) allEntries ->
  (forall found hr, r = Ok (found, hr) -> keepsTags h hr) ->
  MultiLayer.collect layer allEntries r h = Ok (allEntries', h') ->
  keepsTags h h' /\ Forall (layered h') allEntries'.
Proof.
  intros Hlayer Hall Hr. unfold MultiLayer.collect.
  destruct r as [[found hr]|err|]; [| |done].
  - specialize (Hr found hr eq_refl).
    pose proof (tagAll_layered layer found Hlayer hr [] ltac:(constructor)) as [Hkeep Hfound].
    unfold MultiLayer.tagAll.
    destruct (fold_left _ found (hr, [])) as [h1 found1]. cbn [fst snd] in *.
    intros [= <- <-]. split; [by eapply keepsTags_trans|].
    apply Forall_app. split; [|done].
    eapply layered_keeps; [|exact Hall]. by eapply keepsTags_trans.
  - intros [= <- <-]. split; [apply keepsTags_refl | done].
Qed.

End Layer_tags.

Section Vector_keeps_tags.
Import memory.
Context `{GoStd}.

Lemma scoreStep_keepsTags (m : Vector.VectorMemory) (keys : Entry -> list string)
  (query : SearchQuery) (st st' : Heap * list Entry) (result : Vector.VectorResult) :
  Vector.scoreStep m keys query st result = Ok st' -> keepsTags st.1 st'.1.
Proof.
  destruct st as [h acc]. cbn [fst]. unfold Vector.scoreStep.
  destruct (f32.ltb _ _); [intros [= <-]; apply keepsTags_refl|].
  destruct (Vector.entries m !! Vector.vrID result) as [entry|];
    [|intros [= <-]; apply keepsTags_refl].
  destruct (matchQuery h (keys entry) entry query) as [[]|err|];
    [|intros [= <-]; apply keepsTags_refl|done|done].
  destruct (Metadata entry) as [l0|].
  - intros [= <-]. cbn [fst]. intros l (layer & Hlayer & Hnames). exists layer.
    split; [|done].
    destruct (decide (l0 = l)) as [->|Hne].
    + rewrite deref_store_key. by rewrite lookup_insert_ne.
    + by rewrite deref_store_key_ne.
  - destruct (alloc_spec h {[ "_score"%string := AFloat32 (Vector.vrScore result) ]})
      as [Hfresh Hheap].
    destruct (Vector.alloc h _) as [l h'] eqn:Halloc. cbn [fst snd] in *. subst h'.
    intros [= <-]. cbn [fst].
    intros l' Htag. pose proof (taggedAt_dom h l' Htag) as Hin.
    destruct Htag as (layer & Hlayer & Hnames). exists layer. split; [|done].
    unfold deref in *. rewrite lookup_insert_ne; [done|]. intros ->. done.
Qed.

Lemma Vector_Search_keepsTags (m : Vector.VectorMemory) (h hr : Heap)
  (keys : Entry -> list string) (query : SearchQuery) (ord : list string)
  (found : list Entry) :
  Vector.Search m h keys query ord = Ok (found, hr) -> keepsTags h hr.
Proof.
  unfold Vector.Search.
  destruct (if 0 <? len (qEmbedding query) then _ else _) as [embedding|err|]; [|done|done].
  destruct (0 <? len embedding).
  - destruct (Vector.vsSearch (Vector.store m) embedding _) as [results|err|]; [|done|done].
    assert (forall st st', Vector.scoreLoop m keys query results st = Ok st' ->
              keepsTags st.1 st'.1) as Hloop.
    { induction results as [|result results IH]; intros st st'; cbn [Vector.scoreLoop].
      - intros [= <-]. apply keepsTags_refl.
      - destruct (Vector.scoreStep m keys query st result) as [st1|err|] eqn:Hstep;
          [|done|done].
        intros Hrest. eapply keepsTags_trans; [by eapply scoreStep_keepsTags | by apply IH]. }
    destruct (Vector.scoreLoop m keys query results (h, [])) as [[h1 found1]|err|] eqn:Hrun;
      [|done|done].
    specialize (Hloop (h, []) (h1, found1) Hrun). cbn [fst] in Hloop.
    by intros [= _ <-].
  - destruct (matching h keys query _) as [matched|err|]; [|done|done].
    destruct (_ <? qOffset query).
    + intros [= _ <-]. apply keepsTags_refl.
    + destruct (slice _ _ _); [|done]. intros [= _ <-]. apply keepsTags_refl.
Qed.

(** X23. Every entry that the multi-layer [Search] returns has a metadata
    map, and the map carries a [_layer] tag whose value is [working],
    [short_term] or [long_term]. *)
Theorem MultiLayer_Search_tags_every_entry (m : MultiLayer.MultiLayerMemory) (h h' : Heap)
  (keys : Entry -> list string) (query : SearchQuery) (ord : list string)
  (found : list Entry) :
  MultiLayer.Search m h keys query ord = Ok (found, h') ->
  Forall (layered h') found.
Proof.
  unfold MultiLayer.Search.
  destruct (MultiLayer.collect MultiLayer.LayerWorking [] _ h) as [[all1 h1]|err|] eqn:H1;
    cbn [MultiLayer.bind]; [|done|done].
  apply collect_layered in H1 as [_ Hall1]; [|set_solver|constructor|].
  2:{ intros found0 hr. destruct (Buffer.Search _ h keys query); [|done|done].
      intros [= _ <-]. apply keepsTags_refl. }
  set (short := match MultiLayer.shortTerm m with Some st => _ | None => _ end).
  assert (forall all2 h2, short = Ok (all2, h2) -> Forall (layered h2) all2) as Hshort.
  { subst short. intros all2 h2. destruct (MultiLayer.shortTerm m) as [st|].
    - intros H2. apply collect_layered in H2 as [_ Hall2]; [done|set_solver|done|].
      intros found0 hr. destruct (Summary.Search st h1 keys query); [|done|done].
      intros [= _ <-]. apply keepsTags_refl.
    - by intros [= <- <-]. }
  destruct short as [[all2 h2]|err|]; cbn [MultiLayer.bind]; [|done|done].
  specialize (Hshort all2 h2 eq_refl).
  set (long := match MultiLayer.longTerm m with Some lt => _ | None => _ end).
  assert (forall all3 h3, long = Ok (all3, h3) -> Forall (layered h3) all3) as Hlong.
  { subst long. intros all3 h3. destruct (MultiLayer.longTerm m) as [lt|].
    - destruct (_ || _).
      + intros H3. apply collect_layered in H3 as [_ Hall3]; [done|set_solver|done|].
        intros found0 hr. apply Vector_Search_keepsTags.
      + by intros [= <- <-].
    - by intros [= <- <-]. }
  destruct long as [[all3 h3]|err|]; cbn [MultiLayer.bind]; [|done|done].
  specialize (Hlong all3 h3 eq_refl).
  destruct (_ && _); intros [= <- <-]; [|done].
  apply Forall_forall. intros e He. apply subseteq_take in He.
  by apply (proj1 (Forall_forall _ _) Hlong).
Qed.

End Vector_keeps_tags.

(** *** Concrete memories *)

(** A query with no text, no embedding and no filter. *)
Definition scanQuery (offset limit : Z) : memory.SearchQuery :=
  {| memory.qQuery := ""; memory.qEmbedding := []; memory.qLimit := limit;
     memory.qOffset := offset; memory.qRoles := []; memory.qSince := None;
     memory.qUntil := None; memory.qMetadata := None; memory.qOrderBy := "";
     memory.qOrderDesc := false |}.

(** A buffer that holds [a] then [b]. *)
Definition bufferAB : Buffer.BufferMemory :=
  Buffer.setEntries (Buffer.NewBuffer 3 []) [entryAt "a" None; entryAt "b" None].

(** A buffer whose entry holds a list of tags in its metadata, a query
    that asks for a list of tags, and the one key that the [range] over the
    query's metadata visits. *)
Definition tagMaps : memory.Heap :=
  {[ 1%positive := {[ "tags"%string := ASlice [AString "go"] ]};
     2%positive := {[ "tags"%string := ASlice [AString "go"] ]} ]}.

Definition bufferTagged : Buffer.BufferMemory :=
  Buffer.setEntries (Buffer.NewBuffer 3 []) [entryAt "a" (Some 1%positive)].

Definition tagQuery : memory.SearchQuery :=
  {| memory.qQuery := ""; memory.qEmbedding := []; memory.qLimit := 0;
     memory.qOffset := 0; memory.qRoles := []; memory.qSince := None;
     memory.qUntil := None; memory.qMetadata := Some 2%positive; memory.qOrderBy := "";
     memory.qOrderDesc := false |}.

Definition tagKeys : memory.Entry -> list string := fun _ => ["tags"%string].


Lemma Buffer_Last_tail_witness :
  Buffer.Last bufferAB (-1) = Panic
  /\ Buffer.Last bufferAB 1 = Ok (lastN (Z.to_nat 1) (Buffer.entries bufferAB)).
Proof.
  split.
  - apply (proj1 (Buffer_Last_tail bufferAB (-1))). lia.
  - apply (proj2 (Buffer_Last_tail bufferAB 1)). lia.
Defined.

Lemma Buffer_Delete_first_match_witness :
  Buffer.entries (Buffer.Delete bufferAB "b").2 = [entryAt "a" None] ++ []
  /\ (Buffer.Get (Buffer.Delete bufferAB "b").2 "b").1
     = find (fun e => String.eqb (memory.ID e) "b") [].
Proof.
  apply (proj2 (proj2 (proj2 (Buffer_Delete_first_match bufferAB "b")))
           [entryAt "a" None] (entryAt "b" None) []).
  - reflexivity.
  - repeat constructor. discriminate.
  - reflexivity.
Defined.


(** A vector memory whose entry holds a list of tags in its metadata. *)
Definition vectorTagged : Vector.VectorMemory :=
  {| Vector.entries := {[ "a"%string := entryAt "a" (Some 1%positive) ]};
     Vector.embedder := Vector.embedder vectorTier;
     Vector.store := Vector.store vectorTier;
     Vector.config := Vector.config vectorTier |}.


Lemma SemanticSearch_empty_query_lists_oldest_witness :
  exists found,
    Vector.SemanticSearch vectorTier threeMaps noKeys "" 1 ["c"%string]
    = Ok (found, threeMaps)
    /\ found = page 0 1 (sort_Slice (byCreation false)
                           (Vector.rangeEntries vectorTier ["c"%string]))
    /\ StronglySorted (fun a b => memory.CreatedAt a <= memory.CreatedAt b) found.
Proof.
  apply (SemanticSearch_empty_query_lists_oldest vectorTier threeMaps noKeys 1
           ["c"%string]).
  - vm_compute. reflexivity.
  - vm_compute. reflexivity.
Defined.

Lemma Vector_Search_writes_score_witness :
  exists found h',
    Vector.Search vectorTier threeMaps noKeys firstTwo [] = Ok (found, h')
    /\ Forall (scored vectorTier threeMaps h') found.
Proof.
  destruct (Vector.Search vectorTier threeMaps noKeys firstTwo [])
    as [[found h']|err|] eqn:Hrun.
  - exists found, h'. split; [done|].
    apply (Vector_Search_writes_score vectorTier threeMaps h' noKeys firstTwo [] found);
      [|done].
    right. split; [discriminate|]. exists [1%f64], []. split; [reflexivity | discriminate].
  - exfalso. vm_compute in Hrun. discriminate.
  - exfalso. vm_compute in Hrun. discriminate.
Defined.

Lemma MultiLayer_Search_tags_every_entry_witness :
  exists found h',
    MultiLayer.Search threeTiers threeMaps noKeys firstTwo [] = Ok (found, h')
    /\ Forall (layered h') found.
Proof.
  destruct (MultiLayer.Search threeTiers threeMaps noKeys firstTwo [])
    as [[found h']|err|] eqn:Hrun.
  - exists found, h'. split; [done|].
    exact (MultiLayer_Search_tags_every_entry threeTiers threeMaps h' noKeys firstTwo []
             found Hrun).
  - exfalso. vm_compute in Hrun. discriminate.
  - exfalso. vm_compute in Hrun. discriminate.
Defined.


(** ** The summary memory: [ForceSummarize] and the lock of [doSummarize] *)

Section Force_summarize.
Context `{GoStd}.

(** Called while nobody holds [m.mu], as [Save] calls it, [doSummarize] takes
    and releases its locks without waiting: it is the function of the claims. *)
Lemma doSummarizeUnder_Free (m : Summary.SummaryMemory) (w : memory.World) :
  Summary.doSummarizeUnder Summary.Free m w = Summary.Returns (Summary.doSummarize m w).
Proof.
  unfold Summary.doSummarizeUnder, Summary.doSummarize.
  destruct (_ <=? _); [done|].
  destruct (slice _ 0 _) as [toSummarize|]; [|done].
  destruct (slice _ _ _) as [recentEntries|]; [|done].
  cbn [Summary.RLock Summary.RUnlock Summary.Lock].
  destruct (Summary.summarizer m _) as [newSummary|err|]; [|done|done].
  destruct (memory.time_Now w) as [now w']. cbn [Summary.Unlock].
  destruct (Buffer.Clear _) as [e b]. by destruct (Summary.reinsert _ _ _).
Qed.

(** While the write lock is held, [doSummarize] returns only where it takes
    no lock: before the read lock. *)
Lemma doSummarizeUnder_Writing (m : Summary.SummaryMemory) (w : memory.World) :
  let es := Buffer.entries (Summary.buffer m) in
  let cut := wrap64 (len es - Summary.KeepRecent (Summary.config m)) in
  Summary.doSummarizeUnder Summary.Writing m w
  = if len es <=? Summary.KeepRecent (Summary.config m) then Summary.Returns (Ok (m, w))
    else if (0 <=? cut) && (cut <=? len es) then Summary.Waits
    else Summary.Returns Panic.
Proof.
  intros es cut. unfold Summary.doSummarizeUnder, Buffer.Entries. fold es. fold cut.
  cbn [Summary.RLock].
  destruct (len es <=? _); [done|]. unfold slice.
  pose proof (len_nonneg es) as Hpos.
  change (0 <=? 0) with true. rewrite (Z.leb_refl (len es)).
  by destruct (0 <=? cut), (cut <=? len es).
Qed.

(** X24. [ForceSummarize] never summarises. It takes the write lock of the
    memory and runs [doSummarize], which asks for the read lock of the same
    mutex before it calls the summarizer. So, the mutex being free at the
    call: with at most [KeepRecent] entries in the buffer it returns nil and
    leaves the memory as it is; with more entries than [KeepRecent >= 0] it
    never returns. Whatever the state of the mutex and the configuration, a
    call that returns has panicked or has left the memory unchanged. *)
Theorem ForceSummarize_waits_for_its_own_lock (m : Summary.SummaryMemory)
  (w : memory.World) :
  let es := Buffer.entries (Summary.buffer m) in
  let keep := Summary.KeepRecent (Summary.config m) in
  len es < 2 ^ 63 ->
  (len es <= keep -> Summary.ForceSummarize Summary.Free m w = Summary.Returns (Ok (m, w)))
  /\ (0 <= keep < len es -> Summary.ForceSummarize Summary.Free m w = Summary.Waits)
  /\ (forall mu result,
        Summary.ForceSummarize mu m w = Summary.Returns result ->
        result = Ok (m, w) \/ result = Panic).
Proof.
  intros es keep Hlen.
  pose proof (doSummarizeUnder_Writing m w) as Hheld. cbn zeta in Hheld.
  fold es keep in Hheld.
  split; [|split].
  - intros Hfew. unfold Summary.ForceSummarize. cbn [Summary.Lock]. rewrite Hheld.
    destruct (Z.leb_spec (len es) keep); [done|lia].
  - intros Hmany. unfold Summary.ForceSummarize. cbn [Summary.Lock]. rewrite Hheld.
    destruct (Z.leb_spec (len es) keep); [lia|].
    rewrite wrap64_small by lia.
    destruct (Z.leb_spec 0 (len es - keep)), (Z.leb_spec (len es - keep) (len es));
      cbn [andb]; (done || lia).
  - intros mu result. unfold Summary.ForceSummarize.
    destruct mu; cbn [Summary.Lock]; [|done|done].
    rewrite Hheld. destruct (len es <=? keep).
    + intros [= <-]. by left.
    + destruct (_ && _); [done|]. intros [= <-]. by right.
Qed.

End Force_summarize.

(** Two entries in the buffer and [keep_recent = 1]: [ForceSummarize] waits. *)
Lemma ForceSummarize_waits_for_its_own_lock_witness :
  let m := (afterFirstSave answering [Summary.WithKeepRecent 1]).1 in
  let w := (afterFirstSave answering [Summary.WithKeepRecent 1]).2 in
  let m2 := Summary.setBuffer m (saved m (userEntry "B" "second") w).1 in
  len (Buffer.entries (Summary.buffer m2)) = 2
  /\ Summary.KeepRecent (Summary.config m2) = 1
  /\ Summary.ForceSummarize Summary.Free m2 w = Summary.Waits.
Proof.
  intros m w m2.
  assert (len (Buffer.entries (Summary.buffer m2)) = 2) as Hn by (vm_compute; reflexivity).
  assert (Summary.KeepRecent (Summary.config m2) = 1) as Hk by (vm_compute; reflexivity).
  split; [exact Hn|]. split; [exact Hk|].
  apply (ForceSummarize_waits_for_its_own_lock m2 w).
  - rewrite Hn. lia.
  - rewrite Hn, Hk. lia.
Defined.
